(** * watch_ha_control: voice middleware for Home Assistant

    A shallow embedding of the intent-resolution core:
    - [JS]            the string primitives of the host language the code relies on;
    - [Normalize]     src/normalize.js     (normalizeUtterance);
    - [IntentCache]   src/intentCache.js   (LRU-with-TTL plan cache);
    - [HomeAssistant] src/homeassistant.js (directory, scoring, refresh, callService);
    - [VoicePlan]     src/voicePlan.js     (cacheability, plan building, rendering);
    - [Orchestrator]  src/index.js         (the tool-use loop of processVoiceCommand).

    Strings are sequences of code units restricted to the Latin-1 block
    (U+0000..U+00FF), which is closed under every string operation the code
    performs; numbers are integers ([Z]); the time [Date.now()] returns is an
    explicit argument of the cache operations and the clock of the hub's
    environment for the client. *)

From Stdlib Require Import ZArith Bool List Ascii String Lia Sorted Permutation.
From stdpp Require Import gmap strings list fin_maps.
Import ListNotations.

Local Open Scope Z_scope.
Local Open Scope list_scope.

(* ===================================================================== *)
(** * Host-language string primitives *)
(* ===================================================================== *)

Module JS.

Definition code (c : ascii) : N := N_of_ascii c.

Definition between (lo hi : N) (c : ascii) : bool :=
  ((lo <=? code c) && (code c <=? hi))%N.

(** [\p{L}] on U+0000..U+00FF. *)
Definition is_letter (c : ascii) : bool :=
  between 65 90 c || between 97 122 c
  || (code c =? 170)%N || (code c =? 181)%N || (code c =? 186)%N
  || between 192 214 c || between 216 246 c || between 248 255 c.

(** [\p{N}] on U+0000..U+00FF: digits, superscripts 1-3, vulgar fractions. *)
Definition is_number (c : ascii) : bool :=
  between 48 57 c || (code c =? 178)%N || (code c =? 179)%N
  || (code c =? 185)%N || between 188 190 c.

(** [\s]: TAB, LF, VT, FF, CR, SPACE and NBSP. *)
Definition is_space (c : ascii) : bool :=
  between 9 13 c || (code c =? 32)%N || (code c =? 160)%N.

(** [\w] of a regular expression without the [u]/[i] flags: [A-Za-z0-9_]. *)
Definition is_word (c : ascii) : bool :=
  between 65 90 c || between 97 122 c || between 48 57 c || (code c =? 95)%N.

(** [String.prototype.toLowerCase], one code unit at a time: A-Z and
    U+00C0..U+00DE except the multiplication sign move up by 32. *)
Definition lower_char (c : ascii) : ascii :=
  if between 65 90 c || (between 192 222 c && negb (code c =? 215)%N)
  then ascii_of_N (code c + 32) else c.

Definition chars (s : string) : list ascii := list_ascii_of_string s.
Definition str (l : list ascii) : string := string_of_list_ascii l.

Definition toLowerCase (s : string) : string := str (map lower_char (chars s)).

(** Truthiness of a string value: only the empty string is falsy. *)
Definition truthy (s : string) : bool :=
  match s with EmptyString => false | _ => true end.

(** Truthiness of a possibly-undefined string property. *)
Definition truthy_opt (o : option string) : bool :=
  match o with Some s => truthy s | None => false end.

(** [a || b] on string values. *)
Definition or_else (a : option string) (b : string) : string :=
  match a with
  | Some s => if truthy s then s else b
  | None => b
  end.

Fixpoint is_prefix (p s : list ascii) : bool :=
  match p, s with
  | [], _ => true
  | a :: p', b :: s' => Ascii.eqb a b && is_prefix p' s'
  | _ :: _, [] => false
  end.

Fixpoint includes_chars (hay needle : list ascii) : bool :=
  is_prefix needle hay ||
  match hay with
  | [] => false
  | _ :: hay' => includes_chars hay' needle
  end.

(** [hay.includes(needle)]. *)
Definition includes (hay needle : string) : bool :=
  includes_chars (chars hay) (chars needle).

(** [s.split(/\s+/).filter(Boolean)]: the maximal runs of non-space
    characters ([cur] is the run being read, reversed). *)
Fixpoint split_ws (cur : list ascii) (s : list ascii) : list (list ascii) :=
  match s with
  | [] => match cur with [] => [] | _ => [rev cur] end
  | c :: s' =>
      if is_space c
      then match cur with [] => split_ws [] s' | _ => rev cur :: split_ws [] s' end
      else split_ws (c :: cur) s'
  end.

(** [s.split('.', 1)[0]]: the text before the first dot (all of it if none). *)
Fixpoint before_dot (s : list ascii) : list ascii :=
  match s with
  | [] => []
  | c :: s' => if Ascii.eqb c "."%char then [] else c :: before_dot s'
  end.

Definition split_dot_first (s : string) : string := str (before_dot (chars s)).

(** [String.prototype.trim]. *)
Fixpoint trim_start (s : list ascii) : list ascii :=
  match s with
  | [] => []
  | c :: s' => if is_space c then trim_start s' else s
  end.

Fixpoint trim_end (s : list ascii) : list ascii :=
  match s with
  | [] => []
  | c :: s' =>
      match trim_end s' with
      | [] => if is_space c then [] else [c]
      | r => c :: r
      end
  end.

Definition trim_chars (s : list ascii) : list ascii := trim_end (trim_start s).

(** How a template literal prints a possibly-undefined value. *)
Definition show (o : option string) : string :=
  match o with Some s => s | None => "undefined"%string end.

End JS.

(* ===================================================================== *)
(** * src/intentCache.js *)
(* ===================================================================== *)

Module IntentCache.

Section Cache.
Context {V : Type}.

(** [{ value, expiresAt }]; [expiresAt = None] is JavaScript's [null]. *)
Record Entry := mkEntry { value : V; expiresAt : option Z }.

(** A JavaScript [Map] with string keys: distinct keys in insertion
    order, oldest first. *)
Definition JsMap := list (string * Entry).

Definition map_get (k : string) (m : JsMap) : option Entry :=
  match List.find (fun kv => String.eqb k (fst kv)) m with
  | Some kv => Some (snd kv)
  | None => None
  end.

Definition map_has (k : string) (m : JsMap) : bool :=
  match map_get k m with Some _ => true | None => false end.

Definition map_delete (k : string) (m : JsMap) : JsMap :=
  List.filter (fun kv => negb (String.eqb k (fst kv))) m.

(** [Map.prototype.set]: an existing key keeps its place, a new key is
    appended. *)
Definition map_set (k : string) (e : Entry) (m : JsMap) : JsMap :=
  if map_has k m
  then List.map (fun kv => if String.eqb k (fst kv) then (k, e) else kv) m
  else m ++ [(k, e)].

Definition map_size (m : JsMap) : Z := Z.of_nat (List.length m).

(** [map.keys().next().value]; [None] is [undefined] on an empty map. *)
Definition map_first_key (m : JsMap) : option string :=
  match m with [] => None | kv :: _ => Some (fst kv) end.

Definition map_keys (m : JsMap) : list string := List.map fst m.

Record t := mkCache {
  maxEntries : Z;
  defaultTtlMs : option Z;
  map : JsMap
}.

(** [constructor({ maxEntries = 500, defaultTtlMs = 24h } = {})]. *)
Definition new (maxEntries' : option Z) (defaultTtlMs' : option (option Z)) : t :=
  {| maxEntries := match maxEntries' with Some n => n | None => 500 end;
     defaultTtlMs := match defaultTtlMs' with
                     | Some d => d
                     | None => Some (24 * 60 * 60 * 1000)
                     end;
     map := [] |}.

Definition with_map (c : t) (m : JsMap) : t :=
  {| maxEntries := maxEntries c; defaultTtlMs := defaultTtlMs c; map := m |}.

Definition expired (now : Z) (e : Entry) : bool :=
  match expiresAt e with
  | Some at_ => now >? at_
  | None => false
  end.

(** [get(key)] at time [now]; the result is [None] for [null]. *)
Definition get (c : t) (key : string) (now : Z) : option V * t :=
  match map_get key (map c) with
  | None => (None, c)
  | Some entry =>
      if expired now entry
      then (None, with_map c (map_delete key (map c)))
      else (Some (value entry),
            with_map c (map_set key entry (map_delete key (map c))))
  end.

(** The eviction loop [while (map.size > maxEntries) ...]; [None] when
    the fuel runs out before the loop condition turns false. *)
Fixpoint evict (fuel : nat) (maxEntries' : Z) (m : JsMap) : option JsMap :=
  if map_size m >? maxEntries'
  then match fuel with
       | O => None
       | S fuel' =>
           evict fuel' maxEntries'
             (match map_first_key m with
              | Some oldestKey => map_delete oldestKey m
              | None => m
              end)
       end
  else Some m.

(** [set(key, value, { ttlMs })] at time [now]; [ttlMs = None] stands
    for an option that is not a number. *)
Definition set_fuel (fuel : nat) (c : t) (key : string) (v : V)
    (ttlMs : option Z) (now : Z) : option t :=
  let effectiveTtlMs := match ttlMs with Some n => Some n | None => defaultTtlMs c end in
  let expiresAt' := match effectiveTtlMs with
                    | None => None
                    | Some n => Some (now + n)
                    end in
  let m1 := if map_has key (map c) then map_delete key (map c) else map c in
  let m2 := map_set key (mkEntry v expiresAt') m1 in
  match evict fuel (maxEntries c) m2 with
  | Some m3 => Some (with_map c m3)
  | None => None
  end.

(** One iteration per stored entry always suffices for a non-negative bound. *)
Definition set (c : t) (key : string) (v : V) (ttlMs : option Z) (now : Z)
    : option t :=
  set_fuel (S (List.length (map c))) c key v ttlMs now.

Definition delete (c : t) (key : string) : t :=
  with_map c (map_delete key (map c)).

(** A client of the cache: one call. *)
Inductive Call :=
| CGet (key : string) (now : Z)
| CSet (key : string) (v : V) (ttlMs : option Z) (now : Z)
| CDelete (key : string).

Definition call_key (o : Call) : string :=
  match o with CGet k _ | CSet k _ _ _ | CDelete k => k end.

(** Runs one call; [None] when a [set] does not return. *)
Definition perform (c : t) (o : Call) : option t :=
  match o with
  | CGet k now => Some (snd (get c k now))
  | CSet k v ttl now => set c k v ttl now
  | CDelete k => Some (delete c k)
  end.

Fixpoint perform_all (c : t) (os : list Call) : option t :=
  match os with
  | [] => Some c
  | o :: os' =>
      match perform c o with
      | Some c' => perform_all c' os'
      | None => None
      end
  end.

End Cache.

Arguments Entry : clear implicits.
Arguments JsMap : clear implicits.
Arguments t : clear implicits.
Arguments Call : clear implicits.

End IntentCache.

(* ===================================================================== *)
(** * src/normalize.js *)
(* ===================================================================== *)

Module Normalize.
Import JS.

(** A regular expression tried at one position of the subject: given the
    character before the position ([None] at the start) and the text
    from the position on, the replacement text and the number of
    characters the match consumes. *)
Definition Matcher : Type :=
  option ascii -> list ascii -> option (list ascii * nat).

Definition prev_is_word (prev : option ascii) : bool :=
  match prev with Some c => is_word c | None => false end.

Definition next_is_word (s : list ascii) : bool :=
  match s with c :: _ => is_word c | [] => false end.

(** [\b]: exactly one side of the position is a word character. *)
Definition word_boundary (prev : option ascii) (s : list ascii) : bool :=
  xorb (prev_is_word prev) (next_is_word s).

(** A literal: the text after it when the subject starts with it. *)
Fixpoint literal (w s : list ascii) : option (list ascii) :=
  match w, s with
  | [], _ => Some s
  | a :: w', b :: s' => if Ascii.eqb a b then literal w' s' else None
  | _ :: _, [] => None
  end.

(** The length of the run of [\s] characters the subject starts with. *)
Fixpoint space_run (s : list ascii) : nat :=
  match s with
  | c :: s' => if is_space c then S (space_run s') else O
  | [] => O
  end.

Definition last_char (w : list ascii) (prev : option ascii) : option ascii :=
  List.last (List.map Some w) prev.

(** [String.prototype.replace] with a global pattern: [skip] counts the
    characters of the current match still to be passed over. *)
Fixpoint replace_from (m : Matcher) (prev : option ascii) (skip : nat)
    (s : list ascii) : list ascii :=
  match s with
  | [] => []
  | c :: s' =>
      match skip with
      | S k => replace_from m (Some c) k s'
      | O =>
          match m prev s with
          | Some (r, S k) => r ++ replace_from m (Some c) k s'
          | _ => c :: replace_from m (Some c) O s'
          end
      end
  end.

Definition replace_all (m : Matcher) (s : list ascii) : list ascii :=
  replace_from m None O s.

(** One alternative of [(on|off)] followed by [\b], after [n] characters
    of ["switch"] and white space. *)
Definition switch_alt (g : string) (n : nat) (s : list ascii)
    : option (list ascii * nat) :=
  match literal (chars g) s with
  | Some rest =>
      if word_boundary (last_char (chars g) None) rest
      then Some (chars ("turn " ++ g)%string, (n + List.length (chars g))%nat)
      else None
  | None => None
  end.

(** What has to follow ["switch"]: [\s+(on|off)\b]. The greedy [\s+]
    never needs to give characters back, since what follows it starts with
    the letter o. *)
Definition after_switch (rest : list ascii) : option (list ascii * nat) :=
  match space_run rest with
  | O => None
  | S _ as n =>
      let rest' := List.skipn n rest in
      match switch_alt "on" (6 + n) rest' with
      | Some r => Some r
      | None => switch_alt "off" (6 + n) rest'
      end
  end.

(** [/\bswitch\s+(on|off)\b/g] with replacement ['turn $1']. *)
Definition match_switch : Matcher := fun prev s =>
  if word_boundary prev s then
    match literal (chars "switch") s with
    | Some rest => after_switch rest
    | None => None
    end
  else None.

(** [/\b(w)\b/g] with the empty replacement. *)
Definition match_word (w : string) : Matcher := fun prev s =>
  if word_boundary prev s then
    match literal (chars w) s with
    | Some rest =>
        if word_boundary (last_char (chars w) prev) rest
        then Some ([], List.length (chars w))
        else None
    | None => None
    end
  else None.

Definition SYNONYM_REPLACEMENTS : list Matcher :=
  [ match_switch;
    match_word "please";
    match_word "the";
    match_word "a";
    match_word "an";
    match_word "my" ].

(** The characters [/[^\p{L}\p{N}\s%.-]/gu] leaves in place. *)
Definition kept (c : ascii) : bool :=
  is_letter c || is_number c || is_space c
  || Ascii.eqb c "%" || Ascii.eqb c "." || Ascii.eqb c "-".

Definition blank_out (s : list ascii) : list ascii :=
  List.map (fun c => if kept c then c else " "%char) s.

(** [.replace(/\s+/g, ' ')]: [in_run] tells that the previous character
    was white space, already replaced. *)
Fixpoint collapse_spaces (in_run : bool) (s : list ascii) : list ascii :=
  match s with
  | [] => []
  | c :: s' =>
      if is_space c
      then (if in_run then collapse_spaces true s'
            else " "%char :: collapse_spaces true s')
      else c :: collapse_spaces false s'
  end.

Definition substitute (s : list ascii) : list ascii :=
  List.fold_left (fun normalized m => replace_all m normalized)
    SYNONYM_REPLACEMENTS s.

Definition normalize_chars (s : list ascii) : list ascii :=
  trim_chars (collapse_spaces false (substitute (blank_out (List.map lower_char s)))).

Definition normalizeUtterance (text : string) : string :=
  if negb (truthy text) then ""%string
  else str (normalize_chars (chars text)).

(** The first substitution alone, as a string function. *)
Definition rewrite_switch (s : string) : string :=
  str (replace_all match_switch (chars s)).

End Normalize.

(* ===================================================================== *)
(** * src/homeassistant.js *)
(* ===================================================================== *)

Module HomeAssistant.
Import JS.

(** ** Data *)

(** The attributes of a hub state object; an open mapping in the hub's
    answer, of which the code reads these two. *)
Record Attributes := mkAttributes {
  friendly_name : option string;
  unit_of_measurement : option string
}.

Definition no_attributes : Attributes := mkAttributes None None.

(** One element of the hub's [/api/states] answer. *)
Record State := mkState {
  entity_id : string;
  state : string;
  attributes : option Attributes
}.

(** An element of [entitiesByDomain]. *)
Record Entity := mkEntity {
  e_entity_id : string;
  e_name : string;
  e_state : string;
  e_attributes : Attributes;
  e_tokens : list string
}.

(** What [findEntities] returns per entity: [_tokens] and [attributes]
    are left out. *)
Record EntityView := mkEntityView {
  v_entity_id : string;
  v_name : string;
  v_state : string
}.

Record Summary := mkSummary {
  s_entity_id : string;
  s_name : string;
  s_domain : string;
  s_attributes : Attributes
}.

Record Target := mkTarget {
  target_entity_id : option string;
  target_area_id : option string
}.

(** The input object of a tool call; absent properties are [None].
    [data] is an open mapping of extra service parameters. *)
Record ToolInput := mkToolInput {
  in_domain : option string;
  in_service : option string;
  in_target : option Target;
  in_data : option (list (string * string));
  in_entity_id : option string;
  in_search : option string
}.

Definition empty_input : ToolInput :=
  mkToolInput None None None None None None.

(** What the tools return. *)
Inductive ToolValue :=
| VEntities (l : list EntityView)
| VState (s : State)
| VCalled (success : bool) (message : string).

(** The [throw new Error(...)] sites of the client, and a rejected fetch. *)
Inductive Error :=
| ERequired (what : string)
| EFetchStates (status : Z)
| EGetState (status : Z)
| EEntityNotFound (id : string)
| ECallService (status : Z) (body : string)
| EUnknownTool (toolName : string)
| ETypeError (what : string)
| ERejected (why : string).

Definition is_not_found (e : Error) : bool :=
  match e with EEntityNotFound _ => true | _ => false end.

(** ** Pure helpers *)

Definition tokenize_chars (text : list ascii) : list (list ascii) :=
  split_ws []
    (List.map (fun c => if is_letter c || is_number c || is_space c
                        then c else " "%char)
              (List.map lower_char text)).

Definition tokenize (text : string) : list string :=
  List.map str (tokenize_chars (chars text)).

Definition mem_string (x : string) (l : list string) : bool :=
  List.existsb (String.eqb x) l.

Definition scoreMatch (queryTokens entityTokens : list string)
    (entityId : string) : Z :=
  match queryTokens with
  | [] => 0
  | _ =>
      List.fold_left
        (fun score token =>
           let score := if mem_string token entityTokens then score + 3 else score in
           if includes entityId token then score + 1 else score)
        queryTokens 0
  end.

(** The bonus both callers add to [scoreMatch]. *)
Definition phrase_bonus (name search : string) : Z :=
  if includes (toLowerCase name) (toLowerCase search) then 2 else 0.

(** ** The directory *)

Definition to_entity (s : State) : Entity :=
  let shown := or_else (match attributes s with
                        | Some a => friendly_name a
                        | None => None
                        end) (entity_id s) in
  {| e_entity_id := entity_id s;
     e_name := shown;
     e_state := state s;
     e_attributes := match attributes s with Some a => a | None => no_attributes end;
     e_tokens := tokenize shown |}.

(** The closure variables of [createHAClient]. [refreshInFlight] holds
    the number of the fetch whose promise it refers to. *)
Record Client := mkClient {
  statesTtlMs : Z;
  lastStatesRefreshAt : Z;
  statesByEntityId : gmap string State;
  entitiesByDomain : gmap string (list Entity);
  refreshInFlight : option nat
}.

Definition createHAClient (statesTtlMs' : option Z) : Client :=
  {| statesTtlMs := match statesTtlMs' with Some n => n | None => 5000 end;
     lastStatesRefreshAt := 0;
     statesByEntityId := ∅;
     entitiesByDomain := ∅;
     refreshInFlight := None |}.

Definition by_entity_id (states : list State) : gmap string State :=
  List.fold_left (fun m s => <[entity_id s := s]> m) states ∅.

Definition by_domain (states : list State) : gmap string (list Entity) :=
  List.fold_left
    (fun nextByDomain s =>
       let domain := split_dot_first (entity_id s) in
       let list := match nextByDomain !! domain with Some l => l | None => [] end in
       <[domain := list ++ [to_entity s]]> nextByDomain)
    states ∅.

Definition indexStates (states : list State) (c : Client) : Client :=
  {| statesTtlMs := statesTtlMs c;
     lastStatesRefreshAt := lastStatesRefreshAt c;
     statesByEntityId := by_entity_id states;
     entitiesByDomain := by_domain states;
     refreshInFlight := refreshInFlight c |}.

Definition set_refreshed_at (now : Z) (c : Client) : Client :=
  {| statesTtlMs := statesTtlMs c;
     lastStatesRefreshAt := now;
     statesByEntityId := statesByEntityId c;
     entitiesByDomain := entitiesByDomain c;
     refreshInFlight := refreshInFlight c |}.

Definition set_in_flight (p : option nat) (c : Client) : Client :=
  {| statesTtlMs := statesTtlMs c;
     lastStatesRefreshAt := lastStatesRefreshAt c;
     statesByEntityId := statesByEntityId c;
     entitiesByDomain := entitiesByDomain c;
     refreshInFlight := p |}.

Definition entities_of (c : Client) (domain : string) : list Entity :=
  match entitiesByDomain c !! domain with Some l => l | None => [] end.

(** ** Searching the snapshot *)

Definition view (e : Entity) : EntityView :=
  mkEntityView (e_entity_id e) (e_name e) (e_state e).

(** [Array.prototype.sort] with [(a, b) => b.score - a.score]: stable,
    highest score first. *)
Fixpoint insert_desc {A} (x : A * Z) (l : list (A * Z)) : list (A * Z) :=
  match l with
  | [] => [x]
  | y :: l' => if snd x <=? snd y then y :: insert_desc x l' else x :: l
  end.

Definition sort_desc {A} (l : list (A * Z)) : list (A * Z) :=
  List.fold_left (fun sorted x => insert_desc x sorted) l [].

(** The score [findEntities] gives an entity. *)
Definition find_score (search : string) (e : Entity) : Z :=
  scoreMatch (tokenize search) (e_tokens e) (e_entity_id e)
  + phrase_bonus (e_name e) search.

(** The [.map(...).filter(r => r.score > 0).sort(...)] stage of
    [findEntities], scores still attached. *)
Definition find_scored (c : Client) (domain search : string) : list (Entity * Z) :=
  sort_desc
    (List.filter (fun r => snd r >? 0)
       (List.map (fun e => (e, find_score search e)) (entities_of c domain))).

(** [findEntities] after the freshness check, on the snapshot. *)
Definition findEntities_in (c : Client) (domain : string) (search : option string)
    : list EntityView :=
  let entities := entities_of c domain in
  if negb (truthy_opt search)
  then List.map view (List.firstn 50 entities)
  else List.map (fun r => view (fst r))
         (List.firstn 50 (find_scored c domain (default ""%string search))).

(** The score [resolveEntityId] gives an entity. *)
Definition resolve_score (search : string) (entity : Entity) : Z :=
  let score :=
    scoreMatch (tokenize search) (e_tokens entity) (e_entity_id entity)
    + phrase_bonus (e_name entity) search in
  if String.eqb (e_state entity) "unknown" || String.eqb (e_state entity) "unavailable"
  then score - 10 else score.

(** The candidates of [resolveEntityId] before the sort, in the order
    the two loops push them. *)
Definition resolve_candidates (c : Client) (domains : list string) (search : string)
    : list (string * Z) :=
  List.concat
    (List.map
       (fun domain =>
          List.filter (fun r => snd r >? 0)
            (List.map (fun entity => (e_entity_id entity, resolve_score search entity))
               (entities_of c domain)))
       domains).

(** [resolveEntityId] after the freshness check, on the snapshot. *)
Definition resolveEntityId_in (c : Client) (domains : list string)
    (search : string) (minScore : Z) : option string :=
  match domains with
  | [] => None
  | _ =>
      if negb (truthy search) then None
      else match sort_desc (resolve_candidates c domains search) with
           | [] => None
           | best :: _ => if snd best <? minScore then None else Some (fst best)
           end
  end.

Definition getEntitySummary (c : Client) (id : string) : option Summary :=
  match statesByEntityId c !! id with
  | None => None
  | Some s =>
      Some {| s_entity_id := id;
              s_name := or_else (match attributes s with
                                 | Some a => friendly_name a
                                 | None => None
                                 end) id;
              s_domain := split_dot_first id;
              s_attributes := match attributes s with
                              | Some a => a
                              | None => no_attributes
                              end |}
  end.

(** ** The hub and the effects of a call *)

(** A settled [fetchWithTimeout]: rejected (network failure, abort on
    timeout, unreadable body), answered with a status that is not [ok]
    and some text, or answered [ok] with a body. *)
Inductive Fetched (B : Type) :=
| Rejected (why : string)
| NotOk (status : Z) (text : string)
| Ok (status : Z) (body : B).
Arguments Rejected {B} why.
Arguments NotOk {B} status text.
Arguments Ok {B} status body.

Inductive Request :=
| GetStates
| GetState (id : string)
| PostService (domain service : string) (serviceData : list (string * string)).

Definition is_control (r : Request) : bool :=
  match r with PostService _ _ _ => true | _ => false end.

(** The remote side: a clock and the hub's three endpoints, each a
    transition of the environment. *)
Class Hub (H : Type) := {
  now : H -> Z;
  get_states : H -> Fetched (list State) * H;
  get_state : string -> H -> Fetched State * H;
  post_service : string -> string -> list (string * string) -> H -> Fetched string * H
}.

(** How an awaited call ends: it returns, it throws, or it stays
    suspended on a promise that only another caller can settle. *)
Inductive Outcome (A : Type) :=
| Returned (a : A)
| Threw (e : Error)
| Suspended (promise : nat).
Arguments Returned {A} a.
Arguments Threw {A} e.
Arguments Suspended {A} promise.

Section Effects.
Context {H : Type} `{Hub H}.

(** The client, the environment, and the requests sent so far (newest
    last). *)
Record World := mkWorld {
  client : Client;
  hub : H;
  requests : list Request
}.

Definition M (A : Type) : Type := World -> Outcome A * World.

Definition ret {A} (a : A) : M A := fun w => (Returned a, w).
Definition throw {A} (e : Error) : M A := fun w => (Threw e, w).
Definition bind {A B} (m : M A) (k : A -> M B) : M B := fun w =>
  match m w with
  | (Returned a, w') => k a w'
  | (Threw e, w') => (Threw e, w')
  | (Suspended p, w') => (Suspended p, w')
  end.

Definition read_client : M Client := fun w => (Returned (client w), w).
Definition states_sent (w : World) : nat :=
  List.length (List.filter (fun r => match r with GetStates => true | _ => false end)
                 (requests w)).

Definition fetch_state (id : string) : M (Fetched State) := fun w =>
  let '(answer, h) := get_state id (hub w) in
  (Returned answer, mkWorld (client w) h (requests w ++ [GetState id])).
Definition fetch_service (domain service : string)
    (serviceData : list (string * string)) : M (Fetched string) := fun w =>
  let '(answer, h) := post_service domain service serviceData (hub w) in
  (Returned answer,
   mkWorld (client w) h (requests w ++ [PostService domain service serviceData])).

End Effects.

Arguments World H : clear implicits.
Arguments M H A : clear implicits.

Declare Scope ha_scope.
Delimit Scope ha_scope with ha.
Notation "x <- m ;; k" := (bind m (fun x => k))
  (at level 100, m at next level, right associativity) : ha_scope.
Notation "m ;;; k" := (bind m (fun _ => k))
  (at level 100, right associativity) : ha_scope.

(** ** refreshStates *)

(** How a [refreshStates] call leaves its synchronous part. *)
Inductive Entered :=
| NoOp                (* fresh and not forced: returns at once *)
| Joined (p : nat)    (* returns the promise in [refreshInFlight] *)
| Started (p : nat).  (* sends the request and sets [refreshInFlight] *)

(** [refreshStates] up to its first suspension; [next] numbers the
    fetch it may start. *)
Definition refresh_enter (force : bool) (now' : Z) (next : nat) (c : Client)
    : Entered * Client :=
  let stale := now' - lastStatesRefreshAt c >? statesTtlMs c in
  if negb force && negb stale then (NoOp, c)
  else match refreshInFlight c with
       | Some p => (Joined p, c)
       | None => (Started next, set_in_flight (Some next) c)
       end.

(** The rest of the fetching function once the hub's answer is in. *)
Definition refresh_body (answer : Fetched (list State)) (now' : Z) (c : Client)
    : Outcome unit * Client :=
  match answer with
  | Rejected why => (Threw (ERejected why), c)
  | NotOk status _ => (Threw (EFetchStates status), c)
  | Ok _ states => (Returned tt, set_refreshed_at now' (indexStates states c))
  end.

(** The [finally] block of the caller that started the fetch. *)
Definition refresh_finally (c : Client) : Client := set_in_flight None c.

Section Calls.
Context {H : Type} `{Hub H}.
Local Open Scope ha_scope.

(** [refreshStates({ force })] run to completion with nothing else
    scheduled in between. *)
Definition refreshStates (force : bool) : M H unit := fun w =>
  match refresh_enter force (now (hub w)) (states_sent w) (client w) with
  | (NoOp, _) => (Returned tt, w)
  | (Joined p, _) => (Suspended p, w)
  | (Started _, c1) =>
      let '(answer, h) := get_states (hub w) in
      let '(out, c2) := refresh_body answer (now h) c1 in
      (out, mkWorld (refresh_finally c2) h (requests w ++ [GetStates]))
  end.

Definition ensureStatesFresh : M H unit := refreshStates false.

Definition known (id : string) : M H bool :=
  c <- read_client ;;
  ret (bool_decide (is_Some (statesByEntityId c !! id))).

Definition findEntities (input : ToolInput) : M H (list EntityView) :=
  if negb (truthy_opt (in_domain input)) then throw (ERequired "domain")
  else
    ensureStatesFresh ;;;
    c <- read_client ;;
    ret (findEntities_in c (default ""%string (in_domain input)) (in_search input)).

Definition getEntityState (id : option string) : M H State :=
  if negb (truthy_opt id) then throw (ERequired "entity_id")
  else
    let id := default ""%string id in
    ensureStatesFresh ;;;
    c <- read_client ;;
    match statesByEntityId c !! id with
    | Some cached => ret cached
    | None =>
        refreshStates true ;;;
        c <- read_client ;;
        match statesByEntityId c !! id with
        | Some cachedAfter => ret cachedAfter
        | None =>
            res <- fetch_state id ;;
            match res with
            | Rejected why => throw (ERejected why)
            | NotOk status _ => throw (EGetState status)
            | Ok _ s => ret s
            end
        end
    end.

Definition target_id (input : ToolInput) : option string :=
  match in_target input with Some t => target_entity_id t | None => None end.

Definition target_area (input : ToolInput) : option string :=
  match in_target input with Some t => target_area_id t | None => None end.

(** A JavaScript object as the list of its properties in enumeration
    order. Assigning a property: a key the object has keeps its place and
    takes the new value, a new key goes last. *)
Fixpoint obj_assign (key value : string) (o : list (string * string))
    : list (string * string) :=
  match o with
  | [] => [(key, value)]
  | (k, v) :: rest =>
      if String.eqb k key then (key, value) :: rest
      else (k, v) :: obj_assign key value rest
  end.

(** [{ ...o, ...source }]: the properties of [source] are assigned to a
    copy of [o], one after another. *)
Definition obj_spread (source o : list (string * string)) : list (string * string) :=
  List.fold_left (fun acc kv => obj_assign (fst kv) (snd kv) acc) source o.

Definition obj_get (key : string) (o : list (string * string)) : option string :=
  option_map snd (List.find (fun kv => String.eqb (fst kv) key) o).

(** The object spread that builds [serviceData]: [data], then the
    target's [entity_id] and [area_id] when they are truthy, a later
    property overwriting an earlier one of the same key. *)
Definition service_data (input : ToolInput) : list (string * string) :=
  let fromData := obj_spread (default [] (in_data input)) [] in
  let withEntity :=
    if truthy_opt (target_id input)
    then obj_spread [("entity_id"%string, default ""%string (target_id input))] fromData
    else fromData in
  if truthy_opt (target_area input)
  then obj_spread [("area_id"%string, default ""%string (target_area input))] withEntity
  else withEntity.

(** The guard of [callService] for a given target entity id. *)
Definition ensure_known (id : string) : M H unit :=
  ensureStatesFresh ;;;
  has <- known id ;;
  if has then ret tt
  else
    refreshStates true ;;;
    has' <- known id ;;
    if has' then ret tt else throw (EEntityNotFound id).

Definition callService (input : ToolInput) : M H ToolValue :=
  if negb (truthy_opt (in_domain input)) then throw (ERequired "domain")
  else if negb (truthy_opt (in_service input)) then throw (ERequired "service")
  else
    let domain := default ""%string (in_domain input) in
    let service := default ""%string (in_service input) in
    (if truthy_opt (target_id input)
     then ensure_known (default ""%string (target_id input))
     else ret tt) ;;;
    res <- fetch_service domain service (service_data input) ;;
    match res with
    | Rejected why => throw (ERejected why)
    | NotOk status errorText => throw (ECallService status errorText)
    | Ok _ _ =>
        ret (VCalled true ("Called " ++ domain ++ "." ++ service)%string)
    end.

(** [executeTool(toolName, input)]; an [undefined] input is replaced by
    the default [{}] of [findEntities] and cannot be read otherwise. *)
Definition executeTool (toolName : string) (input : option ToolInput)
    : M H ToolValue :=
  if String.eqb toolName "find_entities" then
    l <- findEntities (default empty_input input) ;; ret (VEntities l)
  else if String.eqb toolName "get_entity_state" then
    match input with
    | Some i => s <- getEntityState (in_entity_id i) ;; ret (VState s)
    | None => throw (ETypeError "input.entity_id")
    end
  else if String.eqb toolName "call_service" then
    match input with
    | Some i => callService i
    | None => throw (ETypeError "input.domain")
    end
  else throw (EUnknownTool toolName).

Definition resolveEntityId (domains : list string) (search : string)
    (minScore : Z) : M H (option string) :=
  match domains with
  | [] => ret None
  | _ =>
      if negb (truthy search) then ret None
      else
        ensureStatesFresh ;;;
        c <- read_client ;;
        ret (resolveEntityId_in c domains search minScore)
  end.

End Calls.

(** ** Interleaved refreshes

    Several requests are served by one thread: a handler runs until it
    awaits, and other handlers run before it resumes. For [refreshStates]
    the steps are: a call runs its synchronous part; the hub's answer to
    an outstanding fetch arrives and the fetching function finishes; the
    caller that started the fetch resumes and runs its [finally]. *)

Record Flights := mkFlights {
  t_client : Client;
  t_sent : nat;               (* [/api/states] requests sent so far *)
  t_outstanding : list nat;   (* fetches sent and not yet answered *)
  t_unresumed : list nat      (* fetches answered whose starter has not resumed *)
}.

Inductive Event :=
| Call (force : bool) (now' : Z)
| Answer (p : nat) (answer : Fetched (list State)) (now' : Z)
| Resume (p : nat).

Definition remove_nat (p : nat) (l : list nat) : list nat :=
  List.filter (fun q => negb (Nat.eqb p q)) l.

Definition mem_nat (p : nat) (l : list nat) : bool := List.existsb (Nat.eqb p) l.

(** One step; [None] when the event cannot happen in this state. The
    second component tells how a [Call] left its synchronous part. *)
Definition step (t : Flights) (ev : Event) : option (Flights * option Entered) :=
  match ev with
  | Call force now' =>
      match refresh_enter force now' (t_sent t) (t_client t) with
      | (Started p, c) =>
          Some (mkFlights c (S (t_sent t)) (t_outstanding t ++ [p]) (t_unresumed t),
                Some (Started p))
      | (entered, c) =>
          Some (mkFlights c (t_sent t) (t_outstanding t) (t_unresumed t), Some entered)
      end
  | Answer p answer now' =>
      if mem_nat p (t_outstanding t)
      then Some (mkFlights (snd (refresh_body answer now' (t_client t))) (t_sent t)
                   (remove_nat p (t_outstanding t)) (t_unresumed t ++ [p]),
                 None)
      else None
  | Resume p =>
      if mem_nat p (t_unresumed t)
      then Some (mkFlights (refresh_finally (t_client t)) (t_sent t)
                   (t_outstanding t) (remove_nat p (t_unresumed t)),
                 None)
      else None
  end.

Fixpoint steps (t : Flights) (evs : list Event) : option Flights :=
  match evs with
  | [] => Some t
  | ev :: evs' =>
      match step t ev with
      | Some (t', _) => steps t' evs'
      | None => None
      end
  end.

Definition start (c : Client) : Flights := mkFlights c 0 [] [].

End HomeAssistant.

(* ===================================================================== *)
(** * src/voicePlan.js *)
(* ===================================================================== *)

Module VoicePlan.
Import JS HomeAssistant.

(** [{ name, input }]; a missing [input] is [None]. *)
Record ToolCall := mkToolCall {
  name : string;
  input : option ToolInput
}.

Record Plan := mkPlan {
  version : Z;
  toolCalls : list ToolCall
}.

(** [{ name, input, result }], an element of what [executePlan] returns. *)
Record ToolResult := mkToolResult {
  r_name : string;
  r_input : option ToolInput;
  r_result : ToolValue
}.

(** [toolCall.input?.target?.entity_id]. *)
Definition input_target_id (i : option ToolInput) : option string :=
  match i with Some i' => target_id i' | None => None end.

Definition input_service (i : option ToolInput) : option string :=
  match i with Some i' => in_service i' | None => None end.

Definition input_entity_id (i : option ToolInput) : option string :=
  match i with Some i' => in_entity_id i' | None => None end.

Definition is_string (o : option string) (s : string) : bool :=
  match o with Some x => String.eqb x s | None => false end.

Definition isCacheableToolCall (toolCall : ToolCall) : bool :=
  if negb (truthy (name toolCall)) || negb (bool_decide (is_Some (input toolCall)))
  then false
  else if String.eqb (name toolCall) "call_service" then
    if negb (truthy_opt (input_target_id (input toolCall))) then false
    else if is_string (input_service (input toolCall)) "toggle" then false
    else true
  else if String.eqb (name toolCall) "get_entity_state" then
    truthy_opt (input_entity_id (input toolCall))
  else false.

Definition buildPlanFromToolUses (toolUses : list ToolCall) : option Plan :=
  let concreteCalls := List.filter isCacheableToolCall toolUses in
  match concreteCalls with
  | [] => None
  | _ => Some {| version := 1;
                 toolCalls := List.map (fun t => mkToolCall (name t) (input t))
                                concreteCalls |}
  end.

(** The properties [formatStateForSpeech] reads from its argument; a
    value of another shape has none of them. *)
Definition obj_attributes (v : ToolValue) : option Attributes :=
  match v with VState s => attributes s | _ => None end.
Definition obj_entity_id (v : ToolValue) : option string :=
  match v with VState s => Some (entity_id s) | _ => None end.
Definition obj_state (v : ToolValue) : option string :=
  match v with VState s => Some (state s) | _ => None end.

Definition formatStateForSpeech (stateObj : ToolValue) : string :=
  let name :=
    let fn := match obj_attributes stateObj with
              | Some a => friendly_name a
              | None => None
              end in
    if truthy_opt fn then fn else obj_entity_id stateObj in
  let unit := or_else (match obj_attributes stateObj with
                       | Some a => unit_of_measurement a
                       | None => None
                       end) "" in
  let state := obj_state stateObj in
  if truthy unit
  then (show name ++ " is " ++ show state ++ unit ++ ".")%string
  else (show name ++ " is " ++ show state ++ ".")%string.

Definition renderResponseFromToolResults (ha : Client)
    (toolResults : list ToolResult) : string :=
  match last toolResults with
  | None => "Done."%string
  | Some last =>
      if String.eqb (r_name last) "call_service" then
        let entityId := input_target_id (r_input last) in
        let summary := if truthy_opt entityId
                       then getEntitySummary ha (default ""%string entityId)
                       else None in
        let service := input_service (r_input last) in
        match summary with
        | Some summary' =>
            if is_string service "turn_on" || is_string service "turn_off"
            then
              let verb := if is_string service "turn_on"
                          then "Turned on"%string else "Turned off"%string in
              (verb ++ " " ++ s_name summary' ++ ".")%string
            else "Done."%string
        | None => "Done."%string
        end
      else if String.eqb (r_name last) "get_entity_state" then
        formatStateForSpeech (r_result last)
      else "Done."%string
  end.

Section Execute.
Context {H : Type} `{Hub H}.
Local Open Scope ha_scope.

Fixpoint run_calls (calls : list ToolCall) : M H (list ToolResult) :=
  match calls with
  | [] => ret []
  | call :: calls' =>
      result <- executeTool (name call) (input call) ;;
      rest <- run_calls calls' ;;
      ret (mkToolResult (name call) (input call) result :: rest)
  end.

(** ** The state reads, started together

    [Promise.all(stateReads.map(async call => ...))] starts every read
    before any of them gets an answer, and between two answers of the hub
    every read runs as far as it can. The reads therefore move in step:
    they share the freshness check, those that miss share one forced
    refresh (the first starts it, the others find it in flight and join),
    and those that still miss each send their own lookup, in listed
    order. The hub is taken to answer in the order of the requests. *)

(** How far one read has got. *)
Inductive Read :=
| Resolved (s : State)
| Failed (e : Error)
| Missing (id : string).

Definition is_missing (r : Read) : bool :=
  match r with Missing _ => true | _ => false end.

(** What a read does before its first [await] on the hub: reading
    [input.entity_id], and the check of [getEntityState]. *)
Definition read_start (call : ToolCall) : Read :=
  match input call with
  | None => Failed (ETypeError "input.entity_id")
  | Some i =>
      if negb (truthy_opt (in_entity_id i)) then Failed (ERequired "entity_id")
      else Missing (default ""%string (in_entity_id i))
  end.

(** [statesByEntityId.get(entity_id)] by a read that is still looking. *)
Definition read_lookup (c : Client) (r : Read) : Read :=
  match r with
  | Missing id =>
      match statesByEntityId c !! id with
      | Some s => Resolved s
      | None => Missing id
      end
  | _ => r
  end.

Definition read_fail (e : Error) (r : Read) : Read :=
  match r with Missing _ => Failed e | _ => r end.

(** The refresh the reads that are still looking share, and their lookup
    in the snapshot after it; a failed refresh fails each of them, and a
    refresh found in flight at the start suspends them. *)
Definition read_refresh (force : bool) (reads : list Read) (w : World H)
    : (list Read + nat) * World H :=
  if List.existsb is_missing reads then
    match refreshStates force w with
    | (Returned _, w1) => (inl (List.map (read_lookup (client w1)) reads), w1)
    | (Threw e, w1) => (inl (List.map (read_fail e) reads), w1)
    | (Suspended p, w1) => (inr p, w1)
    end
  else (inl reads, w).

Definition read_answer (res : Fetched State) : Read :=
  match res with
  | Rejected why => Failed (ERejected why)
  | NotOk status _ => Failed (EGetState status)
  | Ok _ s => Resolved s
  end.

(** The lookups of the reads that the snapshot cannot serve. *)
Fixpoint read_fetch (reads : list Read) (w : World H) : list Read * World H :=
  match reads with
  | [] => ([], w)
  | Missing id :: rest =>
      let '(res, h) := get_state id (hub w) in
      let '(rest', w') :=
        read_fetch rest (mkWorld (client w) h (requests w ++ [GetState id])) in
      (read_answer res :: rest', w')
  | r :: rest =>
      let '(rest', w') := read_fetch rest w in (r :: rest', w')
  end.

Definition is_type_error (r : Read) : bool :=
  match r with Failed (ETypeError _) => true | _ => false end.

Definition is_failed (r : Read) : bool :=
  match r with Failed _ => true | _ => false end.

Definition is_required (r : Read) : bool :=
  match r with Failed (ERequired _) => true | _ => false end.

Definition error_of (r : option Read) : option Error :=
  match r with Some (Failed e) => Some e | _ => None end.

(** The rejection [Promise.all] passes on is the first in time: a read
    whose [input] cannot be read rejects first, then one without an
    entity id, then those that fail on the hub, which fail in listed
    order. *)
Definition first_rejection (reads : list Read) : option Error :=
  match error_of (List.find is_type_error reads) with
  | Some e => Some e
  | None =>
      match error_of (List.find is_required reads) with
      | Some e => Some e
      | None => error_of (List.find is_failed reads)
      end
  end.

Fixpoint read_results (calls : list ToolCall) (reads : list Read) : list ToolResult :=
  match calls, reads with
  | call :: calls', Resolved s :: reads' =>
      mkToolResult (name call) (input call) (VState s) :: read_results calls' reads'
  | _ :: calls', _ :: reads' => read_results calls' reads'
  | _, _ => []
  end.

(** What [await Promise.all(...)] gives once every read has settled or is
    suspended: the first rejection if there is one (the world is the one
    the other reads leave behind), and otherwise the results in listed
    order. *)
Definition read_settle (calls : list ToolCall) (reads : list Read)
    (suspended : option nat) (w : World H) : Outcome (list ToolResult) * World H :=
  match first_rejection reads, suspended with
  | Some e, _ => (Threw e, w)
  | None, Some p => (Suspended p, w)
  | None, None => (Returned (read_results calls reads), w)
  end.

Definition read_all (calls : list ToolCall) : M H (list ToolResult) := fun w =>
  let started := List.map read_start calls in
  match read_refresh false started w with
  | (inr p, w1) => read_settle calls started (Some p) w1
  | (inl checked, w1) =>
      match read_refresh true checked w1 with
      | (inr p, w2) => read_settle calls checked (Some p) w2
      | (inl refreshed, w2) =>
          let '(final, w3) := read_fetch refreshed w2 in
          read_settle calls final None w3
      end
  end.

(** [executePlan]: the calls other than state reads one after another,
    then the state reads, started together. *)
Definition executePlan (plan : Plan) : M H (list ToolResult) :=
  let stateReads :=
    List.filter (fun c => String.eqb (name c) "get_entity_state") (toolCalls plan) in
  let otherCalls :=
    List.filter (fun c => negb (String.eqb (name c) "get_entity_state")) (toolCalls plan) in
  toolResults <- run_calls otherCalls ;;
  stateResults <- match stateReads with
                  | [] => ret []
                  | _ => read_all stateReads
                  end ;;
  ret (toolResults ++ stateResults).

End Execute.

End VoicePlan.

(* ===================================================================== *)
(** * src/index.js: the tool-use loop *)
(* ===================================================================== *)

Module Orchestrator.
Import JS HomeAssistant VoicePlan.

Inductive Block :=
| Text (text : string)
| ToolUse (id name : string) (input : option ToolInput).

(** A model response. *)
Record Response := mkResponse {
  stop_reason : string;
  content : list Block
}.

(** A [tool_result] block; the content is the value that the code
    serialises, or the message of the error it caught. *)
Record ToolResultBlock := mkToolResultBlock {
  tool_use_id : string;
  tr_content : ToolValue + Error;
  is_error : bool
}.

Inductive Message :=
| User (text : string)
| Assistant (content : list Block)
| UserResults (results : list ToolResultBlock).

(** [anthropic.messages.create] with the fixed model, system prompt and
    tool catalogue: the answer to a message list, or a rejection. *)
Definition Model : Type := list Message -> option Response.

(** How far [processVoiceCommand] got. *)
Inductive Run (A : Type) :=
| Replied (a : A)                 (* it returned *)
| Raised (why : string)           (* an exception left it *)
| Waiting (p : nat)               (* suspended inside a tool *)
| Running.                        (* still looping when the fuel ran out *)
Arguments Replied {A} a.
Arguments Raised {A} why.
Arguments Waiting {A} p.
Arguments Running {A}.

Definition tool_uses (blocks : list Block) : list (string * ToolCall) :=
  List.flat_map
    (fun b => match b with
              | ToolUse id n i => [(id, mkToolCall n i)]
              | Text _ => []
              end) blocks.

Definition first_text (blocks : list Block) : option string :=
  match List.find (fun b => match b with Text _ => true | _ => false end) blocks with
  | Some (Text t) => Some t
  | _ => None
  end.

Section Loop.
Context {H : Type} `{Hub H}.

(** One [tool_result] block: a returned value, or the caught error;
    a suspended tool yields no block. *)
Definition tool_block (id : string) (out : Outcome ToolValue)
    : ToolResultBlock + nat :=
  match out with
  | Returned result => inl (mkToolResultBlock id (inl result) false)
  | Threw error => inl (mkToolResultBlock id (inr error) true)
  | Suspended p => inr p
  end.

(** The body of [for (const toolUse of toolUseBlocks)]. *)
Fixpoint run_tools (uses : list (string * ToolCall)) (w : World H)
    : (list ToolResultBlock + nat) * World H :=
  match uses with
  | [] => (inl [], w)
  | (id, call) :: uses' =>
      let '(out, w') := executeTool (name call) (input call) w in
      match tool_block id out with
      | inr p => (inr p, w')
      | inl block =>
          match run_tools uses' w' with
          | (inl blocks, w'') => (inl (block :: blocks), w'')
          | (inr p, w'') => (inr p, w'')
          end
      end
  end.

(** What the loop has accumulated. *)
Record Loop := mkLoop {
  l_response : Response;
  l_messages : list Message;
  l_toolUsesSeen : list ToolCall;
  l_rounds : nat;
  l_world : World H
}.

(** [while (response.stop_reason === 'tool_use') { ... }]: one unit of
    fuel per iteration. *)
Fixpoint tool_loop (fuel : nat) (llm : Model) (l : Loop) : Run Loop :=
  if String.eqb (stop_reason (l_response l)) "tool_use" then
    match fuel with
    | O => Running
    | S fuel' =>
        let uses := tool_uses (content (l_response l)) in
        match run_tools uses (l_world l) with
        | (inl toolResults, w') =>
            let messages :=
              l_messages l ++ [Assistant (content (l_response l));
                               UserResults toolResults] in
            match llm messages with
            | Some response =>
                tool_loop fuel' llm
                  (mkLoop response messages
                     (l_toolUsesSeen l ++ List.map snd uses)
                     (S (l_rounds l)) w')
            | None => Raised "messages.create"
            end
        | (inr p, _) => Waiting p
        end
    end
  else Replied l.

(** What [processVoiceCommand] leaves behind when it returns. *)
Record Reply := mkReply {
  responseText : string;
  rounds : nat;
  toolUsesSeen : list ToolCall;
  world : World H;
  cache : IntentCache.t Plan
}.

Definition processVoiceCommand (fuel : nat) (llm : Model)
    (intentCache : IntentCache.t Plan) (userText normalized : string)
    (w : World H) : Run Reply :=
  let messages := [User userText] in
  match llm messages with
  | None => Raised "messages.create"
  | Some response =>
      match tool_loop fuel llm (mkLoop response messages [] 0 w) with
      | Replied l =>
          let text := or_else (first_text (content (l_response l))) "Done." in
          let plan := buildPlanFromToolUses (l_toolUsesSeen l) in
          match plan with
          | Some plan' =>
              if truthy normalized
              then match IntentCache.set intentCache normalized plan' None
                           (now (hub (l_world l))) with
                   | Some cache' =>
                       Replied (mkReply text (l_rounds l) (l_toolUsesSeen l)
                                  (l_world l) cache')
                   | None => Running
                   end
              else Replied (mkReply text (l_rounds l) (l_toolUsesSeen l)
                              (l_world l) intentCache)
          | None => Replied (mkReply text (l_rounds l) (l_toolUsesSeen l)
                               (l_world l) intentCache)
          end
      | Raised why => Raised why
      | Waiting p => Waiting p
      | Running => Running
      end
  end.

End Loop.

End Orchestrator.

(* ===================================================================== *)
(** * The plan cache: recency order, expiry, bound *)
(* ===================================================================== *)

Section IntentCacheFacts.
Import IntentCache.
Context {V : Type}.
Implicit Types (m : JsMap V) (c : t V) (k key : string) (e : Entry V).

(** The representation invariant of a [Map]: no key occurs twice. *)
Definition distinct_keys m : Prop := List.NoDup (map_keys m).
Definition well_formed c : Prop := distinct_keys (map c).

(** The entry [set] stores. *)
Definition stored_entry c (v : V) (ttlMs : option Z) (now : Z) : Entry V :=
  mkEntry v
    match (match ttlMs with Some n => Some n | None => defaultTtlMs c end) with
    | None => None
    | Some n => Some (now + n)
    end.

(** The map with [key] moved (or added) to the most recent end. *)
Definition touched m key e : JsMap V := map_delete key m ++ [(key, e)].

Lemma map_get_cons k k' e m :
  map_get k ((k', e) :: m) = if String.eqb k k' then Some e else map_get k m.
Proof. unfold map_get. simpl. destruct (String.eqb k k'); reflexivity. Qed.

Lemma map_get_None_keys k m : map_get k m = None <-> ~ List.In k (map_keys m).
Proof.
  induction m as [|[k' e] m IH]; simpl.
  - split; auto.
  - rewrite map_get_cons. destruct (String.eqb_spec k k') as [->|Hne].
    + split; [discriminate | intros Hn; exfalso; apply Hn; now left].
    + rewrite IH. split; intros Hn; [intros [Heq|Hin]; [congruence | auto] | tauto].
Qed.

Lemma map_delete_keys k m :
  map_keys (map_delete k m) = List.filter (fun k' => negb (String.eqb k k')) (map_keys m).
Proof.
  induction m as [|[k' e] m IH]; simpl; [reflexivity|].
  destruct (String.eqb k k'); simpl; now rewrite IH.
Qed.

Lemma map_get_delete_eq k m : map_get k (map_delete k m) = None.
Proof.
  apply map_get_None_keys. rewrite map_delete_keys, List.filter_In.
  intros [_ Hk]. rewrite String.eqb_refl in Hk. discriminate.
Qed.

Lemma map_get_delete_ne k k' m : k <> k' -> map_get k (map_delete k' m) = map_get k m.
Proof.
  intros Hne. induction m as [|[k2 e] m IH]; simpl; [reflexivity|].
  destruct (String.eqb_spec k' k2) as [->|Hne2]; simpl; rewrite !map_get_cons, ?IH.
  - destruct (String.eqb_spec k k2); [congruence | reflexivity].
  - reflexivity.
Qed.

Lemma map_delete_absent k m : map_get k m = None -> map_delete k m = m.
Proof.
  induction m as [|[k' e] m IH]; simpl; [reflexivity|].
  rewrite map_get_cons. destruct (String.eqb k k'); [discriminate|].
  simpl. intros Hn. now rewrite IH.
Qed.

Lemma map_get_app k m m' :
  map_get k (m ++ m') = match map_get k m with Some e => Some e | None => map_get k m' end.
Proof.
  induction m as [|[k' e] m IH]; simpl; [reflexivity|].
  rewrite !map_get_cons. destruct (String.eqb k k'); [reflexivity | apply IH].
Qed.

Lemma map_set_absent k e m : map_get k m = None -> map_set k e m = m ++ [(k, e)].
Proof. intros Hn. unfold map_set, map_has. now rewrite Hn. Qed.

Lemma map_set_touch k e m : map_set k e (map_delete k m) = touched m k e.
Proof. apply map_set_absent, map_get_delete_eq. Qed.

Lemma set_step_touch k e m :
  map_set k e (if map_has k m then map_delete k m else m) = touched m k e.
Proof.
  unfold map_has. destruct (map_get k m) eqn:Hg.
  - apply map_set_touch.
  - unfold touched. rewrite (map_delete_absent _ _ Hg). now apply map_set_absent.
Qed.

Lemma distinct_delete k m : distinct_keys m -> distinct_keys (map_delete k m).
Proof.
  unfold distinct_keys. rewrite map_delete_keys. apply List.NoDup_filter.
Qed.

Lemma distinct_touched k e m : distinct_keys m -> distinct_keys (touched m k e).
Proof.
  intros Hm. unfold distinct_keys, touched, map_keys. rewrite List.map_app. simpl.
  apply List.NoDup_app; repeat split.
  - apply (distinct_delete k m Hm).
  - repeat constructor. intros [].
  - intros x Hx [<-|[]]. fold (map_keys (map_delete k m)) in Hx.
    apply (proj1 (map_get_None_keys k (map_delete k m)) (map_get_delete_eq k m) Hx).
Qed.

Lemma distinct_skipn n m : distinct_keys m -> distinct_keys (List.skipn n m).
Proof.
  revert m. induction n as [|n IH]; intros [|kv m] Hm; simpl; auto.
  apply IH. now inversion Hm.
Qed.

Lemma map_delete_first k e m :
  distinct_keys ((k, e) :: m) -> map_delete k ((k, e) :: m) = m.
Proof.
  intros Hm. inversion Hm as [|? ? Hnot Hrest]; subst. simpl.
  rewrite String.eqb_refl. simpl.
  apply map_delete_absent. now apply map_get_None_keys.
Qed.

(** The loop removes entries from the oldest end only, as many as exceed
    the bound, and ends within that many iterations. *)
Lemma evict_skipn fuel bound m :
  distinct_keys m -> 0 <= bound ->
  (Z.to_nat (map_size m - bound) <= fuel)%nat ->
  evict fuel bound m = Some (List.skipn (Z.to_nat (map_size m - bound)) m).
Proof.
  revert m. induction fuel as [|fuel IH]; intros m Hm Hb Hf.
  - simpl. destruct (map_size m >? bound) eqn:Hgt.
    + apply Z.gtb_lt in Hgt. lia.
    + rewrite Z.gtb_ltb, Z.ltb_ge in Hgt.
      replace (Z.to_nat (map_size m - bound)) with O by lia. reflexivity.
  - simpl. destruct (map_size m >? bound) eqn:Hgt.
    + apply Z.gtb_lt in Hgt. destruct m as [|[k e] m].
      * unfold map_size in Hgt. simpl in Hgt. lia.
      * simpl map_first_key. cbv iota. rewrite (map_delete_first k e m Hm).
        unfold map_size in *. simpl List.length in *.
        rewrite IH.
        -- f_equal.
           replace (Z.to_nat (Z.of_nat (S (List.length m)) - bound))
             with (S (Z.to_nat (Z.of_nat (List.length m) - bound))) by lia.
           reflexivity.
        -- now inversion Hm.
        -- assumption.
        -- lia.
    + rewrite Z.gtb_ltb, Z.ltb_ge in Hgt.
      replace (Z.to_nat (map_size m - bound)) with O by lia. reflexivity.
Qed.

(** Whatever the loop returns is within the bound. *)
Lemma evict_bound fuel bound m m' :
  evict fuel bound m = Some m' -> map_size m' <= bound.
Proof.
  revert m. induction fuel as [|fuel IH]; intros m; simpl;
    destruct (map_size m >? bound) eqn:Hgt; try discriminate.
  - intros [= <-]. rewrite Z.gtb_ltb, Z.ltb_ge in Hgt. exact Hgt.
  - apply IH.
  - intros [= <-]. rewrite Z.gtb_ltb, Z.ltb_ge in Hgt. exact Hgt.
Qed.

(** With a negative bound the loop condition never turns false. *)
Lemma evict_negative fuel bound m : bound < 0 -> evict fuel bound m = None.
Proof.
  intros Hb. revert m. induction fuel as [|fuel IH]; intros m; simpl;
    destruct (map_size m >? bound) eqn:Hgt; auto;
    rewrite Z.gtb_ltb, Z.ltb_ge in Hgt; unfold map_size in Hgt; lia.
Qed.

Lemma set_fuel_unfold fuel c key v ttlMs now :
  set_fuel fuel c key v ttlMs now =
  match evict fuel (maxEntries c) (touched (map c) key (stored_entry c v ttlMs now)) with
  | Some m3 => Some (with_map c m3)
  | None => None
  end.
Proof. unfold set_fuel. now rewrite set_step_touch. Qed.

Lemma touched_length m key e :
  (List.length (touched m key e) <= S (List.length m))%nat.
Proof.
  unfold touched, map_delete. rewrite List.length_app. simpl.
  pose proof (List.filter_length_le (fun kv => negb (String.eqb key (fst kv))) m). lia.
Qed.

(** [set] returns for every non-negative bound, and what it leaves is
    the touched map without its oldest entries in excess of the bound. *)
Lemma set_spec c key v ttlMs now :
  well_formed c -> 0 <= maxEntries c ->
  let m := touched (map c) key (stored_entry c v ttlMs now) in
  set c key v ttlMs now =
  Some (with_map c (List.skipn (Z.to_nat (map_size m - maxEntries c)) m)).
Proof.
  intros Hwf Hb m. unfold set. rewrite set_fuel_unfold. fold m.
  rewrite evict_skipn; [reflexivity | now apply distinct_touched | assumption |].
  pose proof (touched_length (map c) key (stored_entry c v ttlMs now)).
  fold m in H. unfold map_size. lia.
Qed.

Lemma get_well_formed c key now : well_formed c -> well_formed (snd (get c key now)).
Proof.
  intros Hwf. unfold get. destruct (map_get key (map c)) as [e|]; [|exact Hwf].
  destruct (expired now e); simpl; unfold well_formed; simpl.
  - now apply distinct_delete.
  - rewrite map_set_touch. now apply distinct_touched.
Qed.

Lemma set_well_formed c key v ttlMs now c' :
  well_formed c -> set c key v ttlMs now = Some c' -> well_formed c'.
Proof.
  intros Hwf Hset. destruct (Z.lt_ge_cases (maxEntries c) 0) as [Hneg|Hb].
  - unfold set in Hset. rewrite set_fuel_unfold, evict_negative in Hset by assumption.
    discriminate.
  - rewrite set_spec in Hset by assumption. injection Hset as <-.
    unfold well_formed. simpl. now apply distinct_skipn, distinct_touched.
Qed.

Lemma perform_well_formed c o c' :
  well_formed c -> perform c o = Some c' -> well_formed c'.
Proof.
  intros Hwf. destruct o as [k now|k v ttl now|k]; simpl.
  - intros [= <-]. now apply get_well_formed.
  - now apply set_well_formed.
  - intros [= <-]. unfold well_formed, delete. simpl. now apply distinct_delete.
Qed.

Lemma map_get_skipn k n m :
  distinct_keys m ->
  map_get k (List.skipn n m) = None \/ map_get k (List.skipn n m) = map_get k m.
Proof.
  revert m. induction n as [|n IH]; intros [|[k' e] m] Hm; simpl; auto.
  inversion Hm as [|? ? Hnot Hrest]; subst.
  destruct (IH m Hrest) as [Hn|Heq]; [now left|].
  rewrite map_get_cons. destruct (String.eqb_spec k k') as [->|Hne]; [|now right].
  left. rewrite Heq. now apply map_get_None_keys.
Qed.

End IntentCacheFacts.

Section IntentCacheClaims.
Import IntentCache.
Context {V : Type}.
Implicit Types (m : JsMap V) (c : t V) (k key : string) (e : Entry V).

Lemma skipn_touched_last n m key e :
  (n <= List.length (map_delete key m))%nat ->
  last (List.skipn n (touched m key e)) = Some (key, e).
Proof.
  intros Hn. unfold touched. rewrite List.skipn_app.
  replace (n - List.length (map_delete key m))%nat with O by lia.
  simpl. apply last_snoc.
Qed.

(** C4. The map is kept in recency order, oldest first. A [get] that
    finds a live entry and every [set] put the entry at the most recent
    end and leave the other entries in their order; [set] then removes
    entries from the oldest end only, and keeps the new entry whenever
    the bound is at least one. Storing a new key in a cache that holds
    exactly [maxEntries] entries removes the oldest entry and no other. *)
Theorem intent_cache_lru_order c key now :
  well_formed c ->
  (forall v c', get c key now = (Some v, c') ->
     exists e, map_get key (map c) = Some e /\ value e = v /\
               map c' = touched (map c) key e)
  /\ (forall v ttlMs c', set c key v ttlMs now = Some c' ->
        let e := stored_entry c v ttlMs now in
        (exists n, map c' = List.skipn n (touched (map c) key e))
        /\ (1 <= maxEntries c -> last (map c') = Some (key, e)))
  /\ (forall v ttlMs,
        0 <= maxEntries c -> map_size (map c) = maxEntries c ->
        map_get key (map c) = None ->
        exists c', set c key v ttlMs now = Some c' /\
                   map c' = List.tl (map c ++ [(key, stored_entry c v ttlMs now)])).
Proof.
  intros Hwf. repeat split.
  - intros v c'. unfold get. destruct (map_get key (map c)) as [e|]; [|discriminate].
    destruct (expired now e); [discriminate|]. intros [= <- <-].
    exists e. repeat split. simpl. apply map_set_touch.
  - destruct (Z.lt_ge_cases (maxEntries c) 0) as [Hneg|Hb].
    + unfold set in H. rewrite set_fuel_unfold, evict_negative in H by assumption.
      discriminate.
    + rewrite set_spec in H by assumption. injection H as <-. simpl. eauto.
  - intros Hone. rewrite set_spec in H by (assumption || lia). injection H as <-.
    simpl. apply skipn_touched_last.
    unfold map_size, touched. rewrite List.length_app. simpl. lia.
  - intros v ttlMs Hb Hfull Habsent. rewrite set_spec by assumption.
    eexists; split; [reflexivity|]. simpl.
    unfold touched. rewrite (map_delete_absent _ _ Habsent).
    unfold map_size in *. rewrite List.length_app. simpl.
    replace (Z.to_nat (Z.of_nat (List.length (map c) + 1) - maxEntries c)) with 1%nat by lia.
    reflexivity.
Qed.

Lemma map_get_touched_ne k key e m : k <> key -> map_get k (touched m key e) = map_get k m.
Proof.
  intros Hne. unfold touched. rewrite map_get_app, map_get_delete_ne by assumption.
  destruct (map_get k m); [reflexivity|]. rewrite map_get_cons.
  destruct (String.eqb_spec k key); [congruence | reflexivity].
Qed.

Lemma map_get_touched_eq key e m : map_get key (touched m key e) = Some e.
Proof.
  unfold touched. rewrite map_get_app, map_get_delete_eq, map_get_cons.
  now rewrite String.eqb_refl.
Qed.

(** A call on another key leaves the entry of [key] alone or evicts it. *)
Lemma perform_other_key c o c' key :
  well_formed c -> call_key o <> key -> perform c o = Some c' ->
  map_get key (map c') = None \/ map_get key (map c') = map_get key (map c).
Proof.
  intros Hwf Hne. destruct o as [k now|k v ttl now|k]; simpl in *.
  - intros [= <-]. right. unfold get. destruct (map_get k (map c)) as [e|]; [|reflexivity].
    destruct (expired now e); simpl.
    + apply map_get_delete_ne. congruence.
    + rewrite map_set_touch. apply map_get_touched_ne. congruence.
  - intros Hset. destruct (Z.lt_ge_cases (maxEntries c) 0) as [Hneg|Hb].
    + unfold set in Hset. rewrite set_fuel_unfold, evict_negative in Hset by assumption.
      discriminate.
    + rewrite set_spec in Hset by assumption. injection Hset as <-. simpl.
      match goal with |- context [List.skipn ?n ?m] =>
        destruct (map_get_skipn key n m) as [Hn|Heq] end.
      * now apply distinct_touched.
      * now left.
      * right. rewrite Heq. apply map_get_touched_ne. congruence.
  - intros [= <-]. right. simpl. apply map_get_delete_ne. congruence.
Qed.

Lemma perform_all_other_keys c os c' key :
  well_formed c -> List.Forall (fun o => call_key o <> key) os ->
  perform_all c os = Some c' ->
  well_formed c' /\
  (map_get key (map c') = None \/ map_get key (map c') = map_get key (map c)).
Proof.
  revert c. induction os as [|o os IH]; intros c Hwf Hos; simpl.
  - intros [= <-]. auto.
  - inversion Hos as [|? ? Ho Hos']; subst.
    destruct (perform c o) as [c1|] eqn:Hp; [|discriminate]. intros Hall.
    destruct (IH c1 (perform_well_formed _ _ _ Hwf Hp) Hos' Hall) as [Hwf' Hget].
    split; [assumption|].
    destruct Hget as [Hn|Heq]; [now left|].
    destruct (perform_other_key _ _ _ _ Hwf Ho Hp) as [Hn|Heq'];
      [left | right]; congruence.
Qed.

(** A [get] of an entry whose expiry lies strictly in the past returns
    [null] and removes it. *)
Lemma get_expired c key now e at_ :
  map_get key (map c) = Some e -> expiresAt e = Some at_ -> now > at_ ->
  fst (get c key now) = None /\ map_get key (map (snd (get c key now))) = None.
Proof.
  intros Hg He Hlt. unfold get. rewrite Hg. unfold expired. rewrite He.
  replace (now >? at_) with true by (symmetry; apply Z.gtb_lt; lia).
  simpl. split; [reflexivity | apply map_get_delete_eq].
Qed.

Lemma get_absent c key now :
  map_get key (map c) = None ->
  fst (get c key now) = None /\ map_get key (map (snd (get c key now))) = None.
Proof. intros Hg. unfold get. rewrite Hg. simpl. auto. Qed.

(** C5 (amended). An entry stored with an expiry time [at_] (with
    [ttlMs = 0] that is the time of the [set]) is absent for every later
    [get] made strictly after [at_], whatever calls on other keys come in
    between: the [get] returns [null] and the key is no longer stored.
    While the entry is still stored, a [get] made no later than [at_], so
    also one in the millisecond of a [ttlMs = 0] [set], returns the
    value. *)
Theorem intent_cache_expired_get c key v ttlMs t0 c1 others c2 at_ t1 :
  well_formed c ->
  set c key v ttlMs t0 = Some c1 ->
  expiresAt (stored_entry c v ttlMs t0) = Some at_ ->
  List.Forall (fun o => call_key o <> key) others ->
  perform_all c1 others = Some c2 ->
  (t1 > at_ ->
   fst (get c2 key t1) = None /\ map_get key (map (snd (get c2 key t1))) = None)
  /\ (t1 <= at_ -> map_get key (map c2) <> None -> fst (get c2 key t1) = Some v).
Proof.
  intros Hwf Hset Hexp Hothers Hall.
  pose proof (set_well_formed _ _ _ _ _ _ Hwf Hset) as Hwf1.
  destruct (perform_all_other_keys _ _ _ key Hwf1 Hothers Hall) as [_ Hget].
  assert (Hc1 : map_get key (map c1) = None \/
                map_get key (map c1) = Some (stored_entry c v ttlMs t0)).
  { destruct (Z.lt_ge_cases (maxEntries c) 0) as [Hneg|Hb].
    - unfold set in Hset. rewrite set_fuel_unfold, evict_negative in Hset by assumption.
      discriminate.
    - rewrite set_spec in Hset by assumption. injection Hset as <-. simpl.
      match goal with |- context [List.skipn ?n ?m] =>
        destruct (map_get_skipn key n m) as [Hn|Heq] end.
      + now apply distinct_touched.
      + now left.
      + right. rewrite Heq. apply map_get_touched_eq. }
  assert (Hc2 : map_get key (map c2) = None \/
                map_get key (map c2) = Some (stored_entry c v ttlMs t0)).
  { destruct Hget as [Hn|Heq]; [now left|]. rewrite Heq. exact Hc1. }
  split.
  - intros Hlt. destruct Hc2 as [Hn|Hs].
    + now apply get_absent.
    + now apply (get_expired _ _ _ _ at_ Hs Hexp).
  - intros Hle Hstored. destruct Hc2 as [Hn|Hs]; [contradiction|].
    unfold get. rewrite Hs. unfold expired. rewrite Hexp.
    replace (t1 >? at_) with false by (symmetry; rewrite Z.gtb_ltb; apply Z.ltb_ge; lia).
    reflexivity.
Qed.

(** C10. Whenever [set] returns, the cache holds at most [maxEntries]
    entries, and it returns for every non-negative bound. With
    [maxEntries = 0] a cache that starts empty stays empty through any
    sequence of calls, and every [get] returns [null]. *)
Theorem intent_cache_bounded c key v ttlMs now :
  (forall c', set c key v ttlMs now = Some c' ->
     map_size (map c') <= maxEntries c' /\ maxEntries c' = maxEntries c)
  /\ (well_formed c -> 0 <= maxEntries c -> exists c', set c key v ttlMs now = Some c')
  /\ (maxEntries c = 0 -> map c = [] ->
      forall calls, exists c',
        perform_all c calls = Some c' /\ map c' = [] /\
        forall k t, fst (get c' k t) = None).
Proof.
  repeat split.
  - unfold set, set_fuel in H.
    destruct (evict _ _ _) as [m3|] eqn:Hev; [|discriminate].
    injection H as <-. simpl. now apply evict_bound in Hev.
  - unfold set, set_fuel in H. destruct (evict _ _ _); [|discriminate].
    now injection H as <-.
  - intros Hwf Hb. rewrite set_spec by assumption. eauto.
  - intros Hzero Hempty calls. revert c Hzero Hempty.
    induction calls as [|o calls IH]; intros c Hzero Hempty.
    + exists c. repeat split; [assumption|]. intros k t. unfold get.
      rewrite Hempty. reflexivity.
    + assert (Hstep : exists c1, perform c o = Some c1 /\
                                 maxEntries c1 = 0 /\ map c1 = []).
      { destruct o as [k t|k v' ttl t|k]; simpl.
        - eexists; split; [reflexivity|]. unfold get. rewrite Hempty. simpl. auto.
        - rewrite set_spec; [| unfold well_formed; rewrite Hempty; constructor | lia].
          eexists; split; [reflexivity|]. simpl. rewrite Hempty, Hzero. auto.
        - eexists; split; [reflexivity|]. simpl. rewrite Hempty. auto. }
      destruct Hstep as (c1 & Hp & Hz1 & He1).
      destruct (IH c1 Hz1 He1) as (c' & Hall & Hres).
      exists c'. simpl. rewrite Hp. auto.
Qed.

End IntentCacheClaims.

(** A cache of capacity two holding the keys a (oldest) and b. *)
Definition two_entries : IntentCache.t Z :=
  IntentCache.mkCache 2 (Some 60000)
    [("a"%string, IntentCache.mkEntry 1 None); ("b"%string, IntentCache.mkEntry 2 (Some 900))].

Lemma two_entries_well_formed : well_formed two_entries.
Proof.
  unfold well_formed, distinct_keys. simpl.
  repeat constructor; simpl; intuition discriminate.
Defined.

Lemma intent_cache_lru_order_witness :
  well_formed two_entries
  /\ (exists e, IntentCache.map_get "a" (IntentCache.map two_entries) = Some e /\
                IntentCache.value e = 1 /\
                IntentCache.map (snd (IntentCache.get two_entries "a" 5)) =
                touched (IntentCache.map two_entries) "a" e)
  /\ (forall c', IntentCache.set two_entries "b" 7 (Some 0) 5 = Some c' ->
                 last (IntentCache.map c') = Some ("b"%string, IntentCache.mkEntry 7 (Some 5)))
  /\ (exists c', IntentCache.set two_entries "c" 3 None 5 = Some c' /\
                 IntentCache.map c' =
                 [("b"%string, IntentCache.mkEntry 2 (Some 900));
                  ("c"%string, IntentCache.mkEntry 3 (Some 60005))]).
Proof.
  split; [exact two_entries_well_formed|].
  destruct (intent_cache_lru_order two_entries "a" 5 two_entries_well_formed) as (Hget & _ & _).
  destruct (intent_cache_lru_order two_entries "b" 5 two_entries_well_formed) as (_ & Hset & _).
  destruct (intent_cache_lru_order two_entries "c" 5 two_entries_well_formed) as (_ & _ & Hfull).
  split; [|split].
  - apply (Hget 1 (snd (IntentCache.get two_entries "a" 5))). reflexivity.
  - intros c' Hc'. apply (Hset 7 (Some 0) c' Hc'). simpl. lia.
  - apply (Hfull 3 None); [simpl; lia | reflexivity | reflexivity].
Defined.

(** C5 as stated fails when the [get] falls in the millisecond of the
    [set]: the test is [Date.now() > expiresAt], and with [ttlMs = 0] the
    expiry is the time of the [set]. *)
Lemma intent_cache_ttl0_counterexample :
  ~ (forall (c c1 : IntentCache.t Z) key v t0 t1,
       well_formed c -> IntentCache.set c key v (Some 0) t0 = Some c1 -> t1 >= t0 ->
       fst (IntentCache.get c1 key t1) = None).
Proof.
  intros Hclaim.
  pose (c := IntentCache.new (V := Z) (Some 500) None).
  assert (Hwf : well_formed c) by (unfold well_formed, distinct_keys; simpl; constructor).
  specialize (Hclaim c (IntentCache.with_map c [("k"%string, IntentCache.mkEntry 7 (Some 1000))])
                "k"%string 7 1000 1000 Hwf eq_refl).
  assert (Hge : 1000 >= 1000) by lia.
  specialize (Hclaim Hge). vm_compute in Hclaim. discriminate.
Qed.

Lemma intent_cache_expired_get_witness :
  (fst (IntentCache.get
          (IntentCache.mkCache 2 (Some 60000)
             [("a"%string, IntentCache.mkEntry 9 (Some 5));
              ("c"%string, IntentCache.mkEntry 3 (Some 60006))])
          "a" 6) = None
   /\ IntentCache.map_get "a"
        (IntentCache.map
           (snd (IntentCache.get
                   (IntentCache.mkCache 2 (Some 60000)
                      [("a"%string, IntentCache.mkEntry 9 (Some 5));
                       ("c"%string, IntentCache.mkEntry 3 (Some 60006))])
                   "a" 6))) = None)
  /\ fst (IntentCache.get
            (IntentCache.mkCache 2 (Some 60000)
               [("b"%string, IntentCache.mkEntry 2 (Some 900));
                ("a"%string, IntentCache.mkEntry 9 (Some 5))])
            "a" 5) = Some 9.
Proof.
  destruct (intent_cache_expired_get two_entries "a" 9 (Some 0) 5
              (IntentCache.mkCache 2 (Some 60000)
                 [("b"%string, IntentCache.mkEntry 2 (Some 900));
                  ("a"%string, IntentCache.mkEntry 9 (Some 5))])
              [IntentCache.CSet "c" 3 None 6; IntentCache.CGet "c" 7]
              (IntentCache.mkCache 2 (Some 60000)
                 [("a"%string, IntentCache.mkEntry 9 (Some 5));
                  ("c"%string, IntentCache.mkEntry 3 (Some 60006))])
              5 6) as [Hlate _];
    [exact two_entries_well_formed | reflexivity | reflexivity
     | repeat constructor; simpl; discriminate | reflexivity |].
  destruct (intent_cache_expired_get two_entries "a" 9 (Some 0) 5
              (IntentCache.mkCache 2 (Some 60000)
                 [("b"%string, IntentCache.mkEntry 2 (Some 900));
                  ("a"%string, IntentCache.mkEntry 9 (Some 5))])
              []
              (IntentCache.mkCache 2 (Some 60000)
                 [("b"%string, IntentCache.mkEntry 2 (Some 900));
                  ("a"%string, IntentCache.mkEntry 9 (Some 5))])
              5 5) as [_ Hsame];
    [exact two_entries_well_formed | reflexivity | reflexivity
     | constructor | reflexivity |].
  split; [apply Hlate; lia | apply Hsame; [lia | discriminate]].
Defined.

Lemma intent_cache_bounded_witness :
  (forall c', IntentCache.set two_entries "c" 3 None 5 = Some c' ->
     IntentCache.map_size (IntentCache.map c') <= 2)
  /\ (exists c', IntentCache.set two_entries "c" 3 None 5 = Some c')
  /\ (exists c', IntentCache.perform_all (IntentCache.new (Some 0) None)
                   [IntentCache.CSet "k" 1 None 10; IntentCache.CGet "k" 10] = Some c' /\
                 IntentCache.map c' = [] /\
                 forall k t, fst (IntentCache.get c' k t) = None).
Proof.
  destruct (intent_cache_bounded two_entries "c" 3 None 5) as (Hb & Hret & _).
  destruct (intent_cache_bounded (IntentCache.new (V := Z) (Some 0) None) "k" 1 None 10)
    as (_ & _ & Hzero).
  split; [|split].
  - intros c' Hc'. destruct (Hb c' Hc') as [Hle Hmax]. rewrite Hmax in Hle. exact Hle.
  - apply Hret; [exact two_entries_well_formed | simpl; lia].
  - apply Hzero; reflexivity.
Defined.

(* ===================================================================== *)
(** * Plans: cacheability and the spoken confirmation *)
(* ===================================================================== *)

Section VoicePlanClaims.
Import JS HomeAssistant VoicePlan.

(** A call names a target entity: [input.target.entity_id] is a non-empty
    string. *)
Definition has_target_entity (toolCall : ToolCall) : Prop :=
  truthy_opt (input_target_id (input toolCall)) = true.

(** A state read names an entity: [input.entity_id] is a non-empty string. *)
Definition names_entity (toolCall : ToolCall) : Prop :=
  truthy_opt (input_entity_id (input toolCall)) = true.

Definition is_toggle (toolCall : ToolCall) : Prop :=
  input_service (input toolCall) = Some "toggle"%string.

Lemma is_string_true o s : is_string o s = true <-> o = Some s.
Proof.
  destruct o as [x|]; simpl; [|split; discriminate].
  rewrite String.eqb_eq. split; congruence.
Qed.

Lemma target_needs_input toolCall :
  truthy_opt (input_target_id (input toolCall)) = true -> is_Some (input toolCall).
Proof. destruct (input toolCall); simpl; [eauto | discriminate]. Qed.

Lemma entity_needs_input toolCall :
  truthy_opt (input_entity_id (input toolCall)) = true -> is_Some (input toolCall).
Proof. destruct (input toolCall); simpl; [eauto | discriminate]. Qed.

Lemma cacheable_call_service toolCall :
  name toolCall = "call_service"%string ->
  isCacheableToolCall toolCall =
  truthy_opt (input_target_id (input toolCall))
  && negb (is_string (input_service (input toolCall)) "toggle").
Proof.
  intros Hn. unfold isCacheableToolCall. rewrite Hn. simpl.
  destruct (input toolCall) as [i|]; simpl; [|reflexivity].
  destruct (truthy_opt (target_id i)); simpl; [|reflexivity].
  destruct (is_string (in_service i) "toggle"); reflexivity.
Qed.

Lemma cacheable_get_entity_state toolCall :
  name toolCall = "get_entity_state"%string ->
  isCacheableToolCall toolCall = truthy_opt (input_entity_id (input toolCall)).
Proof.
  intros Hn. unfold isCacheableToolCall. rewrite Hn. simpl.
  destruct (input toolCall) as [i|]; simpl; reflexivity.
Qed.

Lemma cacheable_other toolCall :
  name toolCall <> "call_service"%string ->
  name toolCall <> "get_entity_state"%string ->
  isCacheableToolCall toolCall = false.
Proof.
  intros H1 H2. unfold isCacheableToolCall.
  destruct (negb (truthy (name toolCall)) || _); [reflexivity|].
  destruct (String.eqb_spec (name toolCall) "call_service"); [contradiction|].
  destruct (String.eqb_spec (name toolCall) "get_entity_state"); [contradiction|].
  reflexivity.
Qed.

(** C3. A service call is cacheable exactly when it names a target
    entity and its service is not toggle; a state read exactly when it
    names an entity; a discovery call never; and [buildPlanFromToolUses]
    returns a plan exactly when some call is cacheable, the plan holding
    the cacheable calls in order. *)
Theorem cacheability_rules (toolCall : ToolCall) (toolUses : list ToolCall) :
  (name toolCall = "call_service"%string ->
     (isCacheableToolCall toolCall = true <->
      has_target_entity toolCall /\ ~ is_toggle toolCall))
  /\ (name toolCall = "get_entity_state"%string ->
        (isCacheableToolCall toolCall = true <-> names_entity toolCall))
  /\ (name toolCall = "find_entities"%string -> isCacheableToolCall toolCall = false)
  /\ (forall plan, buildPlanFromToolUses toolUses = Some plan ->
        (exists call, List.In call toolUses /\ isCacheableToolCall call = true)
        /\ version plan = 1
        /\ toolCalls plan = List.filter isCacheableToolCall toolUses)
  /\ ((forall call, List.In call toolUses -> isCacheableToolCall call = false) ->
        buildPlanFromToolUses toolUses = None).
Proof.
  split; [|split; [|split; [|split]]].
  - intros Hn. rewrite (cacheable_call_service _ Hn), andb_true_iff.
    unfold has_target_entity, is_toggle. rewrite negb_true_iff.
    rewrite <- is_string_true, not_true_iff_false. reflexivity.
  - intros Hn. rewrite (cacheable_get_entity_state _ Hn). reflexivity.
  - intros Hn. apply cacheable_other; rewrite Hn; discriminate.
  - intros plan Hplan. unfold buildPlanFromToolUses in Hplan.
    destruct (List.filter isCacheableToolCall toolUses) as [|call rest] eqn:Hf;
      [discriminate|].
    injection Hplan as <-. simpl. split; [|split].
    + exists call. apply List.filter_In. rewrite Hf. now left.
    + reflexivity.
    + f_equal; [now destruct call|].
      rewrite <- (List.map_id rest) at 2. apply List.map_ext. now intros [].
  - intros Hnone. unfold buildPlanFromToolUses.
    destruct (List.filter isCacheableToolCall toolUses) as [|call rest] eqn:Hf; [reflexivity|].
    assert (Hin : List.In call (List.filter isCacheableToolCall toolUses))
      by (rewrite Hf; now left).
    apply List.filter_In in Hin as [Hin Hc]. rewrite (Hnone call Hin) in Hc. discriminate.
Qed.

Definition display_name (s : State) : string :=
  or_else (match attributes s with Some a => friendly_name a | None => None end)
          (entity_id s).

Definition unit_text (s : State) : string :=
  or_else (match attributes s with Some a => unit_of_measurement a | None => None end) "".

Lemma format_state s :
  formatStateForSpeech (VState s) =
  (display_name s ++ " is " ++ state s ++ unit_text s ++ ".")%string.
Proof.
  unfold formatStateForSpeech, display_name, unit_text. simpl.
  set (fn := match attributes s with Some a => friendly_name a | None => None end).
  set (u := or_else _ "").
  assert (Hname : show (if truthy_opt fn then fn else Some (entity_id s))
                  = or_else fn (entity_id s)).
  { destruct fn as [x|]; simpl; [|reflexivity]. destruct (truthy x); reflexivity. }
  rewrite Hname. destruct u; reflexivity.
Qed.

Lemma render_call_service ha last :
  r_name last = "call_service"%string ->
  renderResponseFromToolResults ha [last] =
  match (if truthy_opt (input_target_id (r_input last))
         then getEntitySummary ha (default ""%string (input_target_id (r_input last)))
         else None) with
  | Some summary =>
      if is_string (input_service (r_input last)) "turn_on"
      then ("Turned on " ++ s_name summary ++ ".")%string
      else if is_string (input_service (r_input last)) "turn_off"
           then ("Turned off " ++ s_name summary ++ ".")%string
           else "Done."%string
  | None => "Done."%string
  end.
Proof.
  intros Hn. unfold renderResponseFromToolResults. simpl. rewrite Hn. simpl.
  destruct (if truthy_opt _ then _ else None); [|reflexivity].
  destruct (is_string _ "turn_on"); simpl; [reflexivity|].
  destruct (is_string _ "turn_off"); reflexivity.
Qed.

(** C6. The response depends on the last result only. For a service
    call with service turn_on or turn_off and a target whose summary is
    known it is "Turned on NAME." or "Turned off NAME."; for every other
    service call, also when the summary is missing, it is "Done."; for a
    state read it is "NAME is STATE" followed by the unit, if there is
    one, and a full stop; for anything else it is "Done.". *)
Theorem render_of_last_result (ha : Client) (earlier : list ToolResult) (last : ToolResult) :
  renderResponseFromToolResults ha (earlier ++ [last]) =
    renderResponseFromToolResults ha [last]
  /\ (r_name last = "call_service"%string ->
      (forall id summary,
          input_target_id (r_input last) = Some id -> truthy id = true ->
          getEntitySummary ha id = Some summary ->
          (input_service (r_input last) = Some "turn_on"%string ->
             renderResponseFromToolResults ha (earlier ++ [last]) =
             ("Turned on " ++ s_name summary ++ ".")%string)
          /\ (input_service (r_input last) = Some "turn_off"%string ->
                renderResponseFromToolResults ha (earlier ++ [last]) =
                ("Turned off " ++ s_name summary ++ ".")%string))
      /\ ((input_service (r_input last) <> Some "turn_on"%string /\
           input_service (r_input last) <> Some "turn_off"%string)
          \/ truthy_opt (input_target_id (r_input last)) = false
          \/ getEntitySummary ha (default ""%string (input_target_id (r_input last))) = None ->
          renderResponseFromToolResults ha (earlier ++ [last]) = "Done."%string))
  /\ (r_name last = "get_entity_state"%string ->
      forall s, r_result last = VState s ->
        renderResponseFromToolResults ha (earlier ++ [last]) =
          (display_name s ++ " is " ++ state s ++ unit_text s ++ ".")%string
        /\ (unit_text s = ""%string ->
            renderResponseFromToolResults ha (earlier ++ [last]) =
              (display_name s ++ " is " ++ state s ++ ".")%string))
  /\ (r_name last <> "call_service"%string ->
      r_name last <> "get_entity_state"%string ->
      renderResponseFromToolResults ha (earlier ++ [last]) = "Done."%string).
Proof.
  assert (Hlast : renderResponseFromToolResults ha (earlier ++ [last]) =
                  renderResponseFromToolResults ha [last]).
  { unfold renderResponseFromToolResults. now rewrite last_snoc. }
  rewrite Hlast. split; [reflexivity|]. split; [|split].
  - intros Hn. rewrite (render_call_service ha last Hn). split.
    + intros id summary Hid Hty Hsum. rewrite Hid. simpl. rewrite Hty, Hsum.
      split; intros Hs; rewrite Hs; reflexivity.
    + intros [[Hon Hoff]|[Hno|Hnone]].
      * destruct (if truthy_opt _ then _ else None); [|reflexivity].
        destruct (is_string _ "turn_on") eqn:E1;
          [apply is_string_true in E1; contradiction|].
        destruct (is_string _ "turn_off") eqn:E2;
          [apply is_string_true in E2; contradiction|].
        reflexivity.
      * now rewrite Hno.
      * rewrite Hnone. now destruct (truthy_opt _).
  - intros Hn s Hs. unfold renderResponseFromToolResults. simpl. rewrite Hn. simpl.
    rewrite Hs, format_state. split; [reflexivity|].
    intros Hu. rewrite Hu. reflexivity.
  - intros H1 H2. unfold renderResponseFromToolResults. simpl.
    destruct (String.eqb_spec (r_name last) "call_service"); [contradiction|].
    destruct (String.eqb_spec (r_name last) "get_entity_state"); [contradiction|].
    reflexivity.
Qed.

End VoicePlanClaims.

(** A small directory: a light, a pool pump, a pool thermometer and a
    sensor that is out of reach. *)
Definition bedroom_light : HomeAssistant.State :=
  HomeAssistant.mkState "light.bedroom" "on"
    (Some (HomeAssistant.mkAttributes (Some "Bedroom Light"%string) None)).

Definition pool_pump : HomeAssistant.State :=
  HomeAssistant.mkState "switch.pool_pump" "off"
    (Some (HomeAssistant.mkAttributes (Some "Pool Pump"%string) None)).

Definition pool_temperature : HomeAssistant.State :=
  HomeAssistant.mkState "sensor.pool_temperature" "82.1"
    (Some (HomeAssistant.mkAttributes (Some "Pool Temperature"%string)
             (Some (String "176"%char "F")))).

Definition pool_heater : HomeAssistant.State :=
  HomeAssistant.mkState "switch.pool_heater" "unavailable"
    (Some (HomeAssistant.mkAttributes (Some "Pool Heater"%string) None)).

Definition home : HomeAssistant.Client :=
  HomeAssistant.indexStates [bedroom_light; pool_pump; pool_temperature; pool_heater]
    (HomeAssistant.createHAClient None).

Definition service_input (service id : string) : HomeAssistant.ToolInput :=
  HomeAssistant.mkToolInput (Some (JS.split_dot_first id)) (Some service)
    (Some (HomeAssistant.mkTarget (Some id) None)) None None None.

Definition read_input (id : string) : HomeAssistant.ToolInput :=
  HomeAssistant.mkToolInput None None None None (Some id) None.

Definition search_input (domain search : string) : HomeAssistant.ToolInput :=
  HomeAssistant.mkToolInput (Some domain) None None None None (Some search).

Definition turn_off_bedroom : VoicePlan.ToolCall :=
  VoicePlan.mkToolCall "call_service" (Some (service_input "turn_off" "light.bedroom")).

Definition toggle_bedroom : VoicePlan.ToolCall :=
  VoicePlan.mkToolCall "call_service" (Some (service_input "toggle" "light.bedroom")).

Definition read_pool : VoicePlan.ToolCall :=
  VoicePlan.mkToolCall "get_entity_state" (Some (read_input "sensor.pool_temperature")).

Definition find_lights : VoicePlan.ToolCall :=
  VoicePlan.mkToolCall "find_entities" (Some (search_input "light" "bedroom")).

Lemma cacheability_rules_witness :
  VoicePlan.isCacheableToolCall turn_off_bedroom = true
  /\ ~ VoicePlan.isCacheableToolCall toggle_bedroom = true
  /\ VoicePlan.isCacheableToolCall read_pool = true
  /\ VoicePlan.isCacheableToolCall find_lights = false
  /\ VoicePlan.toolCalls
       (VoicePlan.mkPlan 1 [turn_off_bedroom; read_pool]) =
     List.filter VoicePlan.isCacheableToolCall
       [find_lights; turn_off_bedroom; toggle_bedroom; read_pool]
  /\ VoicePlan.buildPlanFromToolUses [find_lights; toggle_bedroom] = None.
Proof.
  destruct (cacheability_rules turn_off_bedroom
              [find_lights; turn_off_bedroom; toggle_bedroom; read_pool])
    as (Hcall & _ & _ & Hplan & _).
  destruct (cacheability_rules toggle_bedroom [find_lights; toggle_bedroom])
    as (Htoggle & _ & _ & _ & Hnone).
  destruct (cacheability_rules read_pool []) as (_ & Hread & _).
  destruct (cacheability_rules find_lights []) as (_ & _ & Hfind & _).
  split_and!.
  - apply (Hcall eq_refl). split; [reflexivity | discriminate].
  - intros Hc. apply (Htoggle eq_refl) in Hc as [_ Hnot]. apply Hnot. reflexivity.
  - apply (Hread eq_refl). reflexivity.
  - apply (Hfind eq_refl).
  - apply (Hplan (VoicePlan.mkPlan 1 [turn_off_bedroom; read_pool]) eq_refl).
  - apply Hnone. intros call [<-|[<-|[]]]; reflexivity.
Defined.

Definition called_turn_off_bedroom : VoicePlan.ToolResult :=
  VoicePlan.mkToolResult "call_service" (Some (service_input "turn_off" "light.bedroom"))
    (HomeAssistant.VCalled true "Called light.turn_off").

Definition called_turn_off_attic : VoicePlan.ToolResult :=
  VoicePlan.mkToolResult "call_service" (Some (service_input "turn_off" "light.attic"))
    (HomeAssistant.VCalled true "Called light.turn_off").

Definition read_pool_result : VoicePlan.ToolResult :=
  VoicePlan.mkToolResult "get_entity_state" (Some (read_input "sensor.pool_temperature"))
    (HomeAssistant.VState pool_temperature).

Definition found_lights : VoicePlan.ToolResult :=
  VoicePlan.mkToolResult "find_entities" (Some (search_input "light" "bedroom"))
    (HomeAssistant.VEntities []).

Lemma render_of_last_result_witness :
  VoicePlan.renderResponseFromToolResults home
    ([read_pool_result] ++ [called_turn_off_bedroom]) = "Turned off Bedroom Light."%string
  /\ VoicePlan.renderResponseFromToolResults home
       ([] ++ [called_turn_off_attic]) = "Done."%string
  /\ VoicePlan.renderResponseFromToolResults home
       ([called_turn_off_bedroom] ++ [read_pool_result]) =
     ("Pool Temperature is 82.1" ++ String "176"%char "F.")%string
  /\ VoicePlan.renderResponseFromToolResults home
       ([read_pool_result] ++ [found_lights]) = "Done."%string.
Proof.
  destruct (render_of_last_result home [read_pool_result] called_turn_off_bedroom)
    as (_ & Hcall & _).
  destruct (render_of_last_result home [] called_turn_off_attic) as (_ & Hattic & _).
  destruct (render_of_last_result home [called_turn_off_bedroom] read_pool_result)
    as (_ & _ & Hread & _).
  destruct (render_of_last_result home [read_pool_result] found_lights)
    as (_ & _ & _ & Hother).
  split_and!.
  - destruct (Hcall eq_refl) as [Hknown _].
    refine (proj2 (Hknown "light.bedroom"%string
                     (HomeAssistant.mkSummary "light.bedroom" "Bedroom Light" "light"
                        (HomeAssistant.mkAttributes (Some "Bedroom Light"%string) None))
                     eq_refl eq_refl _) eq_refl).
    vm_compute. reflexivity.
  - destruct (Hattic eq_refl) as [_ Hdone]. apply Hdone. right. right.
    vm_compute. reflexivity.
  - exact (proj1 (Hread eq_refl pool_temperature eq_refl)).
  - apply Hother; discriminate.
Defined.

(* ===================================================================== *)
(** * Searching the directory: the two scores *)
(* ===================================================================== *)

Section ScoringClaims.
Import JS HomeAssistant.

(** An entity the resolver penalises. *)
Definition unreachable (e : Entity) : bool :=
  String.eqb (e_state e) "unknown" || String.eqb (e_state e) "unavailable".

(** [findEntities] with a search as the specification words it: the
    resolver's score (penalty included) restricted to the domain, strictly
    positive scores only, highest first, at most 50. *)
Definition findEntities_as_specified (c : Client) (domain search : string)
    : list EntityView :=
  List.map (fun r => view (fst r))
    (List.firstn 50
       (sort_desc
          (List.filter (fun r => snd r >? 0)
             (List.map (fun e => (e, resolve_score search e)) (entities_of c domain))))).

(** Highest score first. *)
Definition descending {A} (l : list (A * Z)) : Prop :=
  StronglySorted (fun a b => snd b <= snd a) l.

Lemma insert_desc_perm {A} (x : A * Z) l : Permutation (insert_desc x l) (x :: l).
Proof.
  induction l as [|y l IH]; simpl; [reflexivity|].
  destruct (snd x <=? snd y); [|reflexivity].
  rewrite IH. apply perm_swap.
Qed.

Lemma insert_desc_sorted {A} (x : A * Z) l : descending l -> descending (insert_desc x l).
Proof.
  unfold descending. induction 1 as [|y l Hl IH Hy]; simpl.
  - repeat constructor.
  - destruct (snd x <=? snd y) eqn:Hle.
    + apply Z.leb_le in Hle. constructor; [assumption|].
      rewrite (insert_desc_perm x l). constructor; assumption.
    + apply Z.leb_gt in Hle. constructor; [now constructor|].
      constructor; [lia|]. eapply List.Forall_impl; [|exact Hy].
      simpl. intros; lia.
Qed.

Lemma fold_insert_perm {A} (l acc : list (A * Z)) :
  Permutation (List.fold_left (fun sorted x => insert_desc x sorted) l acc) (acc ++ l).
Proof.
  revert acc. induction l as [|x l IH]; intros acc; simpl.
  - now rewrite List.app_nil_r.
  - rewrite IH, insert_desc_perm. apply Permutation_middle.
Qed.

Lemma fold_insert_sorted {A} (l acc : list (A * Z)) :
  descending acc -> descending (List.fold_left (fun sorted x => insert_desc x sorted) l acc).
Proof.
  revert acc. induction l as [|x l IH]; intros acc Hacc; simpl; [assumption|].
  apply IH. now apply insert_desc_sorted.
Qed.

Lemma sort_desc_perm {A} (l : list (A * Z)) : Permutation (sort_desc l) l.
Proof. unfold sort_desc. now rewrite fold_insert_perm. Qed.

Lemma sort_desc_sorted {A} (l : list (A * Z)) : descending (sort_desc l).
Proof. apply fold_insert_sorted. constructor. Qed.

Lemma descending_firstn {A} n (l : list (A * Z)) : descending l -> descending (List.firstn n l).
Proof.
  unfold descending. intros Hl. revert n. induction Hl as [|x l Hl IH Hx]; intros [|n]; simpl;
    try constructor; auto.
  apply Forall_forall. intros y Hy. apply (subseteq_take n l) in Hy.
  rewrite Forall_forall in Hx. now apply Hx.
Qed.

Lemma resolve_score_find_score search e :
  resolve_score search e = find_score search e - (if unreachable e then 10 else 0).
Proof.
  unfold resolve_score, find_score, unreachable.
  destruct (_ || _); lia.
Qed.

(** C1 (amended). [findEntities] with a search gives each entity the
    resolver's score without the penalty: the sum of [scoreMatch] and the
    whole-phrase bonus. The resolver's score is that score, less 10 when
    the entity's state is unknown or unavailable. [findEntities] returns
    the entities of the domain whose score is strictly positive, highest
    score first, at most 50 of them; on a directory whose entities of the
    domain are all reachable it returns what the resolver's scoring would. *)
Theorem find_entities_scoring (c : Client) (domain search : string) :
  truthy search = true ->
  let scored := find_scored c domain search in
  (forall e, find_score search e =
             scoreMatch (tokenize search) (e_tokens e) (e_entity_id e)
             + phrase_bonus (e_name e) search)
  /\ (forall e, resolve_score search e =
                find_score search e - (if unreachable e then 10 else 0))
  /\ findEntities_in c domain (Some search) =
     List.map (fun r => view (fst r)) (List.firstn 50 scored)
  /\ Permutation scored
       (List.filter (fun r => snd r >? 0)
          (List.map (fun e => (e, find_score search e)) (entities_of c domain)))
  /\ (forall r, List.In r scored ->
        List.In (fst r) (entities_of c domain) /\
        snd r = find_score search (fst r) /\ 0 < snd r)
  /\ descending (List.firstn 50 scored)
  /\ (List.length (findEntities_in c domain (Some search)) <= 50)%nat
  /\ (List.Forall (fun e => unreachable e = false) (entities_of c domain) ->
      findEntities_in c domain (Some search) = findEntities_as_specified c domain search).
Proof.
  intros Hsearch scored.
  assert (Hfind : findEntities_in c domain (Some search) =
                  List.map (fun r => view (fst r)) (List.firstn 50 scored)).
  { unfold findEntities_in. simpl. rewrite Hsearch. reflexivity. }
  split_and!.
  - reflexivity.
  - apply resolve_score_find_score.
  - exact Hfind.
  - apply sort_desc_perm.
  - intros r Hr. apply (Permutation_in _ (sort_desc_perm _)) in Hr.
    apply List.filter_In in Hr as [Hr Hpos]. apply List.in_map_iff in Hr as (e & <- & He).
    simpl in *. apply Z.gtb_lt in Hpos. auto with zarith.
  - apply descending_firstn, sort_desc_sorted.
  - rewrite Hfind, List.length_map, List.length_firstn. lia.
  - intros Hall. rewrite Hfind. unfold findEntities_as_specified, scored, find_scored.
    do 4 f_equal. apply List.map_ext_in. intros e He.
    rewrite resolve_score_find_score.
    rewrite Forall_forall in Hall. rewrite (Hall e) by now apply list_elem_of_In.
    f_equal. lia.
Qed.

End ScoringClaims.

(** C1 as stated fails on an unavailable entity: [findEntities] gives the
    pool heater the score 10 and returns it, the resolver gives it 0. *)
Lemma find_entities_no_penalty_counterexample :
  HomeAssistant.find_score "pool heater" (HomeAssistant.to_entity pool_heater) = 10
  /\ HomeAssistant.resolve_score "pool heater" (HomeAssistant.to_entity pool_heater) = 0
  /\ HomeAssistant.findEntities_in home "switch" (Some "pool heater"%string) =
     [HomeAssistant.mkEntityView "switch.pool_heater" "Pool Heater" "unavailable";
      HomeAssistant.mkEntityView "switch.pool_pump" "Pool Pump" "off"]
  /\ findEntities_as_specified home "switch" "pool heater" =
     [HomeAssistant.mkEntityView "switch.pool_pump" "Pool Pump" "off"]
  /\ HomeAssistant.findEntities_in home "switch" (Some "pool heater"%string) <>
     findEntities_as_specified home "switch" "pool heater".
Proof.
  split_and!; try (vm_compute; reflexivity).
  vm_compute. discriminate.
Qed.

Lemma find_entities_scoring_witness :
  HomeAssistant.findEntities_in home "switch" (Some "pool pump"%string) =
  List.map (fun r => HomeAssistant.view (fst r))
    (List.firstn 50 (HomeAssistant.find_scored home "switch" "pool pump"))
  /\ HomeAssistant.findEntities_in home "light" (Some "bedroom"%string) =
     findEntities_as_specified home "light" "bedroom".
Proof.
  destruct (find_entities_scoring home "switch" "pool pump" eq_refl)
    as (_ & _ & Hfind & _).
  destruct (find_entities_scoring home "light" "bedroom" eq_refl)
    as (_ & _ & _ & _ & _ & _ & _ & Hsame).
  split; [exact Hfind|].
  apply Hsame. vm_compute. repeat constructor.
Defined.

(* ===================================================================== *)
(** * callService on an unknown target *)
(* ===================================================================== *)

Section CallServiceClaims.
Import JS HomeAssistant.
Context {H : Type} `{Hub H}.

Definition control_requests (w : World H) : list Request :=
  List.filter is_control (requests w).

(** A refresh sends at most one request, for the inventory, and no
    control request. *)
Lemma refreshStates_requests force (w w' : World H) out :
  refreshStates force w = (out, w') ->
  (requests w' = requests w \/ requests w' = requests w ++ [GetStates])
  /\ control_requests w' = control_requests w.
Proof.
  unfold refreshStates, control_requests.
  destruct (refresh_enter _ _ _ _) as [[| p | p] c1].
  - intros [= <- <-]. auto.
  - intros [= <- <-]. auto.
  - destruct (get_states (hub w)) as [answer h]. destruct (refresh_body _ _ _) as [out' c2].
    intros [= <- <-]. simpl. split; [now right|].
    rewrite List.filter_app. simpl. apply List.app_nil_r.
Qed.

(** The guard of [callService] sends no control request, however it ends. *)
Lemma ensure_known_requests id (w w' : World H) out :
  ensure_known id w = (out, w') -> control_requests w' = control_requests w.
Proof.
  unfold ensure_known, ensureStatesFresh, known, bind, read_client, ret, throw.
  destruct (refreshStates false w) as [[[]|e|p] w1] eqn:H1;
    pose proof (proj2 (refreshStates_requests _ _ _ _ H1)) as R1.
  - destruct (bool_decide _).
    + now intros [= <- <-].
    + destruct (refreshStates true w1) as [[[]|e|p] w2] eqn:H2;
        pose proof (proj2 (refreshStates_requests _ _ _ _ H2)) as R2.
      * destruct (bool_decide _); intros [= <- <-]; congruence.
      * intros [= <- <-]; congruence.
      * intros [= <- <-]; congruence.
  - now intros [= <- <-].
  - now intros [= <- <-].
Qed.

(** C7. A [callService] whose target entity id is absent from the
    snapshot after the freshness check and still absent after the forced
    refresh fails with the not-found error for that id. It ends in the
    world the forced refresh left: no request was sent after it, and no
    control request at all. *)
Theorem call_service_unknown_target (input : ToolInput) (id : string) (w w1 w2 : World H) :
  truthy_opt (in_domain input) = true ->
  truthy_opt (in_service input) = true ->
  target_id input = Some id -> truthy id = true ->
  ensureStatesFresh w = (Returned tt, w1) ->
  statesByEntityId (client w1) !! id = None ->
  refreshStates true w1 = (Returned tt, w2) ->
  statesByEntityId (client w2) !! id = None ->
  callService input w = (Threw (EEntityNotFound id), w2)
  /\ is_not_found (EEntityNotFound id) = true
  /\ control_requests w2 = control_requests w
  /\ List.Forall (fun r => is_control r = false)
       (List.skipn (List.length (requests w)) (requests w2)).
Proof.
  intros Hd Hs Ht Hid H1 Hn1 H2 Hn2.
  assert (Hcall : callService input w = (Threw (EEntityNotFound id), w2)).
  { unfold callService. rewrite Hd, Hs, Ht. simpl. rewrite Hid.
    unfold ensure_known, known, bind, read_client, ret, throw. cbv beta.
    rewrite H1. cbv beta iota. rewrite Hn1.
    rewrite bool_decide_eq_false_2 by (intros [? ?]; discriminate).
    rewrite H2. cbv beta iota. rewrite Hn2.
    rewrite bool_decide_eq_false_2 by (intros [? ?]; discriminate).
    reflexivity. }
  destruct (refreshStates_requests _ _ _ _ H1) as [R1 C1].
  destruct (refreshStates_requests _ _ _ _ H2) as [R2 C2].
  split_and!; [exact Hcall | reflexivity | congruence |].
  destruct R1 as [R1|R1], R2 as [R2|R2]; rewrite R2, R1;
    rewrite <- ?List.app_assoc, ?List.skipn_all, ?List.skipn_app, ?List.skipn_all,
      ?Nat.sub_diag; simpl; repeat constructor.
Qed.

(** Whenever the target is absent from the snapshot a [callService]
    ends with, the call has not returned and has sent no control request. *)
Lemma call_service_absent_target (input : ToolInput) (id : string) (w w' : World H) out :
  target_id input = Some id -> truthy id = true ->
  callService input w = (out, w') ->
  statesByEntityId (client w') !! id = None ->
  (forall v, out <> Returned v) /\ control_requests w' = control_requests w.
Proof.
  intros Ht Hid Hcall Habsent. unfold callService in Hcall.
  destruct (negb (truthy_opt (in_domain input))).
  { injection Hcall as <- <-. split; [discriminate | reflexivity]. }
  destruct (negb (truthy_opt (in_service input))).
  { injection Hcall as <- <-. split; [discriminate | reflexivity]. }
  rewrite Ht in Hcall. simpl in Hcall. rewrite Hid in Hcall.
  unfold bind at 1 in Hcall.
  destruct (ensure_known id w) as [[[]|e|p] w1] eqn:Hk.
  - exfalso. revert Hk Hcall.
    unfold ensure_known, ensureStatesFresh, known, bind, read_client, ret, throw,
      fetch_service.
    destruct (refreshStates false w) as [[[]|e|p] w1'] eqn:H1; try discriminate.
    destruct (bool_decide (is_Some (statesByEntityId (client w1') !! id))) eqn:B1.
    + intros [= <-]. apply bool_decide_eq_true_1 in B1 as [s Hs].
      destruct (post_service _ _ _ _) as [answer h]. destruct answer; intros [= <- <-];
        simpl in Habsent; congruence.
    + destruct (refreshStates true w1') as [[[]|e|p] w2'] eqn:H2; try discriminate.
      destruct (bool_decide (is_Some (statesByEntityId (client w2') !! id))) eqn:B2;
        [|discriminate].
      intros [= <-]. apply bool_decide_eq_true_1 in B2 as [s Hs].
      destruct (post_service _ _ _ _) as [answer h]. destruct answer; intros [= <- <-];
        simpl in Habsent; congruence.
  - injection Hcall as <- <-. split; [discriminate|]. exact (ensure_known_requests id w _ _ Hk).
  - injection Hcall as <- <-. split; [discriminate|]. exact (ensure_known_requests id w _ _ Hk).
Qed.

End CallServiceClaims.

(** A hub that answers the inventory requests from a script (and rejects
    them once the script is used up), knows no single entity beyond it, and
    accepts every service call; each request takes 100 ms. *)
Record Scripted := mkScripted {
  clock : Z;
  inventories : list (HomeAssistant.Fetched (list HomeAssistant.State))
}.

#[export] Instance scripted_hub : HomeAssistant.Hub Scripted := {|
  HomeAssistant.now h := clock h;
  HomeAssistant.get_states h :=
    match inventories h with
    | answer :: rest => (answer, mkScripted (clock h + 100) rest)
    | [] => (HomeAssistant.Rejected "aborted", mkScripted (clock h + 100) [])
    end;
  HomeAssistant.get_state id h :=
    (HomeAssistant.NotOk 404 "not found", mkScripted (clock h + 100) (inventories h));
  HomeAssistant.post_service domain service data h :=
    (HomeAssistant.Ok 200 "[]"%string, mkScripted (clock h + 100) (inventories h))
|}.

Definition inventory : list HomeAssistant.State :=
  [bedroom_light; pool_pump; pool_temperature; pool_heater].

(** The client right after start-up, facing a hub that will report the
    same inventory twice. *)
Definition cold_start : HomeAssistant.World Scripted :=
  HomeAssistant.mkWorld (HomeAssistant.createHAClient None)
    (mkScripted 1700000000000 [HomeAssistant.Ok 200 inventory; HomeAssistant.Ok 200 inventory])
    [].

Lemma call_service_unknown_target_witness :
  exists w2,
    HomeAssistant.callService (service_input "turn_off" "light.attic") cold_start =
      (HomeAssistant.Threw (HomeAssistant.EEntityNotFound "light.attic"), w2)
    /\ HomeAssistant.requests w2 = [HomeAssistant.GetStates; HomeAssistant.GetStates]
    /\ control_requests w2 = [].
Proof.
  pose (w1 := snd (HomeAssistant.ensureStatesFresh cold_start)).
  pose (w2 := snd (HomeAssistant.refreshStates true w1)).
  exists w2.
  destruct (call_service_unknown_target (service_input "turn_off" "light.attic")
              "light.attic" cold_start w1 w2) as (Hcall & _ & Hcontrol & _);
    try (vm_compute; reflexivity).
  split_and!; [exact Hcall | vm_compute; reflexivity | rewrite Hcontrol; reflexivity].
Defined.

(* ===================================================================== *)
(** * Interleaved refreshes: one fetch at a time *)
(* ===================================================================== *)

Section RefreshClaims.
Import HomeAssistant.

(** The guard and the two lists of pending work agree: nothing is pending
    and the guard is empty, or the guard names the one fetch that is
    either outstanding or answered with its starter still to resume. *)
Definition guarded (t : Flights) : Prop :=
  match refreshInFlight (t_client t) with
  | None => t_outstanding t = [] /\ t_unresumed t = []
  | Some p => (t_outstanding t = [p] /\ t_unresumed t = [])
              \/ (t_outstanding t = [] /\ t_unresumed t = [p])
  end.

(** The snapshot is within its time to live at [now']. *)
Definition fresh (c : Client) (now' : Z) : bool :=
  negb (now' - lastStatesRefreshAt c >? statesTtlMs c).

Lemma refresh_body_guard answer now' c :
  refreshInFlight (snd (refresh_body answer now' c)) = refreshInFlight c.
Proof. destruct answer; reflexivity. Qed.

Lemma mem_nat_single p q : mem_nat p [q] = true -> p = q.
Proof.
  unfold mem_nat. simpl. rewrite orb_false_r. apply Nat.eqb_eq.
Qed.

Lemma remove_nat_single p : remove_nat p [p] = [].
Proof. unfold remove_nat. simpl. now rewrite Nat.eqb_refl. Qed.

Lemma step_guarded t ev t' entered :
  guarded t -> step t ev = Some (t', entered) -> guarded t'.
Proof.
  unfold guarded. intros Hg. destruct ev as [force now'|p answer now'|p]; simpl.
  - unfold refresh_enter. destruct (negb force && _).
    + now intros [= <- <-].
    + destruct (refreshInFlight (t_client t)) as [q|] eqn:Hq.
      * intros [= <- <-]. simpl. now rewrite Hq.
      * intros [= <- <-]. simpl. destruct Hg as [-> ->]. now left.
  - destruct (mem_nat p (t_outstanding t)) eqn:Hm; [|discriminate].
    intros [= <- <-]. simpl. rewrite refresh_body_guard.
    destruct (refreshInFlight (t_client t)) as [q|].
    + destruct Hg as [[Ho Hu]|[Ho Hu]]; rewrite Ho, Hu in *.
      * apply mem_nat_single in Hm as ->. right. now rewrite remove_nat_single.
      * discriminate.
    + destruct Hg as [Ho Hu]. rewrite Ho in Hm. discriminate.
  - destruct (mem_nat p (t_unresumed t)) eqn:Hm; [|discriminate].
    intros [= <- <-]. simpl.
    destruct (refreshInFlight (t_client t)) as [q|].
    + destruct Hg as [[Ho Hu]|[Ho Hu]]; rewrite Ho, Hu in *.
      * discriminate.
      * apply mem_nat_single in Hm as ->. now rewrite remove_nat_single.
    + destruct Hg as [Ho Hu]. rewrite Hu in Hm. discriminate.
Qed.

Lemma steps_guarded evs t t' : guarded t -> steps t evs = Some t' -> guarded t'.
Proof.
  revert t. induction evs as [|ev evs IH]; intros t Hg; simpl.
  - now intros [= <-].
  - destruct (step t ev) as [[t1 entered]|] eqn:Hs; [|discriminate].
    apply IH. eapply step_guarded; eassumption.
Qed.

(** C8 (amended). From a client with an empty guard, after any sequence
    of calls, answers and resumptions: at most one fetch is outstanding;
    while one is, a call sends no request: it returns at once when it is
    not forced and the snapshot is fresh, and joins the outstanding fetch
    otherwise; and once the fetch is answered, with whatever answer, and
    its starter has resumed, the guard is empty and a forced call starts a
    new fetch. *)
Theorem refresh_single_flight (c0 : Client) (evs : list Event) (t : Flights) :
  refreshInFlight c0 = None ->
  steps (start c0) evs = Some t ->
  (List.length (t_outstanding t) <= 1)%nat
  /\ (forall p force now', List.In p (t_outstanding t) ->
        step t (Call force now') =
        Some (t, Some (if negb force && fresh (t_client t) now' then NoOp else Joined p)))
  /\ (forall p answer now' t1,
        step t (Answer p answer now') = Some (t1, None) ->
        t_outstanding t1 = []
        /\ exists t2, step t1 (Resume p) = Some (t2, None)
           /\ refreshInFlight (t_client t2) = None
           /\ forall now'', exists t3,
                step t2 (Call true now'') = Some (t3, Some (Started (t_sent t2)))
                /\ t_sent t3 = S (t_sent t2)
                /\ t_outstanding t3 = [t_sent t2]).
Proof.
  intros Hc0 Hsteps.
  assert (Hg : guarded t).
  { apply (steps_guarded evs (start c0)); [|assumption].
    unfold guarded. simpl. now rewrite Hc0. }
  split_and!.
  - unfold guarded in Hg. destruct (refreshInFlight (t_client t)).
    + destruct Hg as [[-> _]|[-> _]]; simpl; lia.
    + destruct Hg as [-> _]. simpl. lia.
  - intros p force now' Hp. unfold guarded in Hg. simpl.
    unfold refresh_enter, fresh.
    destruct (refreshInFlight (t_client t)) as [q|] eqn:Hq.
    + destruct Hg as [[Ho Hu]|[Ho Hu]]; rewrite Ho in Hp; [|destruct Hp].
      destruct Hp as [<-|[]].
      destruct (negb force && _); destruct t; reflexivity.
    + destruct Hg as [Ho _]. rewrite Ho in Hp. destruct Hp.
  - intros p answer now' t1 H1.
    pose proof (step_guarded _ _ _ _ Hg H1) as Hg1.
    simpl in H1. destruct (mem_nat p (t_outstanding t)) eqn:Hm; [|discriminate].
    injection H1 as <-. unfold guarded in Hg. simpl in *.
    destruct (refreshInFlight (t_client t)) as [q|] eqn:Hq.
    2:{ destruct Hg as [Ho _]. rewrite Ho in Hm. discriminate. }
    destruct Hg as [[Ho Hu]|[Ho Hu]]; rewrite Ho in Hm; [|discriminate].
    apply mem_nat_single in Hm as ->. rewrite Ho, Hu, remove_nat_single. simpl.
    split; [reflexivity|].
    unfold mem_nat. simpl. rewrite Nat.eqb_refl. simpl.
    eexists. split; [reflexivity|]. simpl. split; [reflexivity|].
    intros now''. unfold refresh_enter. simpl.
    eexists. split; [reflexivity|]. simpl. auto.
Qed.

End RefreshClaims.

(** C8 as stated fails for a call that is not forced while the snapshot
    is fresh: a forced refresh is outstanding (fetch 1), and the call
    returns at once instead of joining it. *)
Lemma refresh_fresh_call_counterexample :
  exists t,
    HomeAssistant.steps (HomeAssistant.start (HomeAssistant.createHAClient None))
      [HomeAssistant.Call true 1000;
       HomeAssistant.Answer 0 (HomeAssistant.Ok 200 inventory) 1100;
       HomeAssistant.Resume 0;
       HomeAssistant.Call true 1200] = Some t
    /\ HomeAssistant.t_outstanding t = [1%nat]
    /\ HomeAssistant.step t (HomeAssistant.Call false 1300) =
       Some (t, Some HomeAssistant.NoOp)
    /\ HomeAssistant.step t (HomeAssistant.Call false 1300) <>
       Some (t, Some (HomeAssistant.Joined 1)).
Proof.
  eexists. split; [vm_compute; reflexivity|].
  split_and!; [reflexivity | vm_compute; reflexivity | vm_compute; discriminate].
Qed.

Lemma refresh_single_flight_witness :
  exists t,
    HomeAssistant.steps (HomeAssistant.start (HomeAssistant.createHAClient None))
      [HomeAssistant.Call false 1000; HomeAssistant.Call true 1001] = Some t
    /\ HomeAssistant.t_sent t = 1%nat
    /\ HomeAssistant.step t (HomeAssistant.Call true 1002) =
       Some (t, Some (HomeAssistant.Joined 0))
    /\ (exists t1 t2,
          HomeAssistant.step t (HomeAssistant.Answer 0 (HomeAssistant.NotOk 502 "bad gateway") 1100)
          = Some (t1, None)
          /\ HomeAssistant.step t1 (HomeAssistant.Resume 0) = Some (t2, None)
          /\ HomeAssistant.refreshInFlight (HomeAssistant.t_client t2) = None).
Proof.
  pose (t := HomeAssistant.mkFlights
               (HomeAssistant.set_in_flight (Some 0%nat) (HomeAssistant.createHAClient None))
               1 [0%nat] []).
  exists t.
  destruct (refresh_single_flight (HomeAssistant.createHAClient None)
              [HomeAssistant.Call false 1000; HomeAssistant.Call true 1001] t
              eq_refl eq_refl) as (_ & Hjoin & Hclear).
  split_and!; [reflexivity | reflexivity | |].
  - apply (Hjoin 0%nat true 1002). now left.
  - destruct (Hclear 0%nat (HomeAssistant.NotOk 502 "bad gateway") 1100
                (HomeAssistant.mkFlights
                   (HomeAssistant.set_in_flight (Some 0%nat) (HomeAssistant.createHAClient None))
                   1 [] [0%nat]) eq_refl) as (_ & t2 & Hresume & Hguard & _).
    eexists _, t2. split_and!; [reflexivity | exact Hresume | exact Hguard].
Defined.

(* ===================================================================== *)
(** * The tool-use loop: no ceiling on the rounds *)
(* ===================================================================== *)

(** A response that asks for a tool the client does not have, and a
    final response. *)
Definition ask : Orchestrator.Response :=
  Orchestrator.mkResponse "tool_use" [Orchestrator.ToolUse "toolu_1" "reboot_house" None].

Definition done : Orchestrator.Response :=
  Orchestrator.mkResponse "end_turn" [Orchestrator.Text "I cannot do that."].

(** A model that asks for the tool in its first [n] responses and then
    stops: the message list grows by two per round. *)
Definition asks (n : nat) : Orchestrator.Model := fun messages =>
  Some (if (List.length messages <? 2 * n + 1)%nat then ask else done).

(** A model that never stops asking. *)
Definition always_asks : Orchestrator.Model := fun _ => Some ask.

Section LoopClaims.
Import HomeAssistant VoicePlan Orchestrator.
Context {H : Type} `{Hub H}.

Lemma run_tools_ask (w : World H) :
  run_tools (tool_uses (content ask)) w =
  (inl [mkToolResultBlock "toolu_1" (inr (EUnknownTool "reboot_house")) true], w).
Proof. reflexivity. Qed.

(** The loop ends when the stop reason is not tool_use. *)
Lemma tool_loop_stop fuel llm (l : Loop) :
  String.eqb (stop_reason (l_response l)) "tool_use" = false ->
  tool_loop fuel llm l = Replied l.
Proof. intros Hstop. destruct fuel; simpl; now rewrite Hstop. Qed.

(** One round of the loop. *)
Lemma tool_loop_round fuel llm (l : Loop) toolResults w' response :
  String.eqb (stop_reason (l_response l)) "tool_use" = true ->
  run_tools (tool_uses (content (l_response l))) (l_world l) = (inl toolResults, w') ->
  llm (l_messages l ++ [Assistant (content (l_response l)); UserResults toolResults])
    = Some response ->
  tool_loop (S fuel) llm l =
  tool_loop fuel llm
    (mkLoop response
       (l_messages l ++ [Assistant (content (l_response l)); UserResults toolResults])
       (l_toolUsesSeen l ++ List.map snd (tool_uses (content (l_response l))))
       (S (l_rounds l)) w').
Proof. intros Hstop Hrun Hllm. simpl. now rewrite Hstop, Hrun, Hllm. Qed.

Lemma tool_loop_asks n d : forall fuel (l : Loop),
  (d <= n)%nat -> (d <= fuel)%nat ->
  List.length (l_messages l) = (2 * (n - d) + 1)%nat ->
  l_response l = (if (List.length (l_messages l) <? 2 * n + 1)%nat then ask else done) ->
  List.Forall (fun call => isCacheableToolCall call = false) (l_toolUsesSeen l) ->
  exists l', tool_loop fuel (asks n) l = Replied l'
             /\ l_rounds l' = (l_rounds l + d)%nat
             /\ l_world l' = l_world l
             /\ l_response l' = done
             /\ List.Forall (fun call => isCacheableToolCall call = false) (l_toolUsesSeen l').
Proof.
  induction d as [|d IH]; intros fuel l Hdn Hfuel Hlen Hresp Hseen.
  - replace (List.length (l_messages l) <? 2 * n + 1)%nat with false in Hresp
      by (symmetry; apply Nat.ltb_ge; lia).
    exists l. rewrite tool_loop_stop by now rewrite Hresp.
    split_and!; [reflexivity | lia | reflexivity | assumption | assumption].
  - replace (List.length (l_messages l) <? 2 * n + 1)%nat with true in Hresp
      by (symmetry; apply Nat.ltb_lt; lia).
    destruct fuel as [|fuel]; [lia|].
    erewrite tool_loop_round;
      [| now rewrite Hresp | rewrite Hresp; apply run_tools_ask | reflexivity].
    match goal with |- context [tool_loop fuel (asks n) ?l1] =>
      destruct (IH fuel l1) as (l' & Hrun & Hrounds & Hworld & Hdone & Hseen') end.
    + lia.
    + lia.
    + simpl. rewrite List.length_app. simpl. lia.
    + reflexivity.
    + simpl. apply Forall_app. split; [assumption|]. rewrite Hresp. repeat constructor.
    + exists l'. rewrite Hrun. simpl in Hrounds, Hworld.
      split_and!; [reflexivity | lia | assumption | assumption | assumption].
Qed.

Lemma tool_loop_always_asks fuel : forall (l : Loop),
  l_response l = ask -> tool_loop fuel always_asks l = Running.
Proof.
  induction fuel as [|fuel IH]; intros l Hresp.
  - simpl. now rewrite Hresp.
  - erewrite tool_loop_round;
      [| now rewrite Hresp | rewrite Hresp; apply run_tools_ask | reflexivity].
    now apply IH.
Qed.

Lemma build_plan_none toolUses :
  List.Forall (fun call => isCacheableToolCall call = false) toolUses ->
  buildPlanFromToolUses toolUses = None.
Proof.
  intros Hall. unfold buildPlanFromToolUses.
  destruct (List.filter isCacheableToolCall toolUses) as [|call rest] eqn:Hf; [reflexivity|].
  assert (Hin : List.In call (List.filter isCacheableToolCall toolUses))
    by (rewrite Hf; now left).
  apply List.filter_In in Hin as [Hin Hc]. rewrite Forall_forall in Hall.
  rewrite (Hall call) in Hc by now apply list_elem_of_In. discriminate.
Qed.

Lemma process_asks (n fuel : nat) (intentCache : IntentCache.t Plan)
    (userText normalized : string) (w : World H) :
  (n <= fuel)%nat ->
  exists reply,
    processVoiceCommand fuel (asks n) intentCache userText normalized w = Replied reply
    /\ rounds reply = n
    /\ responseText reply = "I cannot do that."%string.
Proof.
  intros Hfuel. unfold processVoiceCommand.
  change (asks n [User userText]) with
    (Some (if (List.length [User userText] <? 2 * n + 1)%nat then ask else done)).
  cbv iota.
  match goal with |- context [tool_loop fuel (asks n) ?l0] =>
    destruct (tool_loop_asks n n fuel l0) as (l' & Hrun & Hrounds & Hworld & Hdone & Hseen)
  end; try (simpl; lia); try reflexivity; try constructor.
  rewrite Hrun, (build_plan_none _ Hseen), Hdone. simpl in Hrounds.
  eexists. split_and!; [reflexivity | exact Hrounds | reflexivity].
Qed.

Lemma process_always_asks (fuel : nat) (intentCache : IntentCache.t Plan)
    (userText normalized : string) (w : World H) :
  processVoiceCommand fuel always_asks intentCache userText normalized w = Running.
Proof.
  unfold processVoiceCommand. change (always_asks [User userText]) with (Some ask).
  cbv iota. now rewrite tool_loop_always_asks.
Qed.

(** C9 (amended). The loop has no ceiling: it goes on for as long as
    the model's responses carry the stop reason tool_use. For every [n] a
    model that asks for a tool [n] times makes it run exactly [n] rounds
    and return the model's text, with nothing raised; under a model that
    never stops asking it is still running after any number of rounds. *)
Theorem tool_loop_unbounded (n fuel : nat) (intentCache : IntentCache.t Plan)
    (userText normalized : string) (w : World H) :
  ((n <= fuel)%nat ->
   exists reply,
     processVoiceCommand fuel (asks n) intentCache userText normalized w = Replied reply
     /\ rounds reply = n
     /\ responseText reply = "I cannot do that."%string)
  /\ processVoiceCommand fuel always_asks intentCache userText normalized w = Running.
Proof.
  split; [apply process_asks | apply process_always_asks].
Qed.

End LoopClaims.

(** C9 as stated fails: no number bounds the rounds of the runs that
    return normally. *)
Lemma tool_loop_ceiling_counterexample :
  ~ exists ceiling : nat,
      forall (llm : Orchestrator.Model) (fuel : nat) reply,
        Orchestrator.processVoiceCommand fuel llm (IntentCache.new None None)
          "reboot the house" "reboot house" cold_start = Orchestrator.Replied reply ->
        (Orchestrator.rounds reply <= ceiling)%nat.
Proof.
  intros [ceiling Hbound].
  destruct (process_asks (S ceiling) (S ceiling) (IntentCache.new None None)
              "reboot the house" "reboot house" cold_start (Nat.le_refl _))
    as (reply & Hreply & Hrounds & _).
  specialize (Hbound _ _ _ Hreply). lia.
Qed.

Lemma tool_loop_unbounded_witness :
  exists reply,
    Orchestrator.processVoiceCommand 9 (asks 9) (IntentCache.new None None)
      "reboot the house" "reboot house" cold_start = Orchestrator.Replied reply
    /\ Orchestrator.rounds reply = 9%nat
    /\ Orchestrator.responseText reply = "I cannot do that."%string.
Proof.
  apply (tool_loop_unbounded 9 9 (IntentCache.new None None)
           "reboot the house" "reboot house" cold_start).
  apply Nat.le_refl.
Defined.

(* ===================================================================== *)
(** * The normalizer: what a second pass does *)
(* ===================================================================== *)

Section NormalizeFacts.
Import JS Normalize.
Implicit Types (c : ascii) (s u a : list ascii) (p q : option ascii) (m : Matcher).

(** ** Characters *)

Ltac each_char c :=
  destruct c as [[] [] [] [] [] [] [] []]; vm_compute; intros;
  first [reflexivity | discriminate].

Lemma word_not_space c : is_word c = true -> is_space c = false.
Proof. each_char c. Qed.

(** A character that lower-casing and the blanking step leave alone. *)
Definition settled c : bool := Ascii.eqb (lower_char c) c && kept c.

Lemma blank_lower_settled c :
  settled (if kept (lower_char c) then lower_char c else " "%char) = true.
Proof. each_char c. Qed.

Lemma settled_lower c : settled c = true -> lower_char c = c.
Proof. unfold settled. intros Hc. apply andb_prop in Hc as [Hc _]. now apply Ascii.eqb_eq. Qed.

Lemma settled_kept c : settled c = true -> kept c = true.
Proof. unfold settled. intros Hc. now apply andb_prop in Hc as [_ Hc]. Qed.

Definition all_settled s : Prop := List.Forall (fun c => settled c = true) s.

Lemma all_settled_lower s : all_settled s -> List.map lower_char s = s.
Proof.
  induction 1 as [|c s Hc _ IH]; simpl; [reflexivity|].
  now rewrite (settled_lower c Hc), IH.
Qed.

Lemma all_settled_blank s : all_settled s -> blank_out s = s.
Proof.
  induction 1 as [|c s Hc _ IH]; simpl; [reflexivity|].
  fold (blank_out s). now rewrite (settled_kept c Hc), IH.
Qed.

Lemma blank_lower_all_settled s : all_settled (blank_out (List.map lower_char s)).
Proof.
  induction s as [|c s IH]; simpl; constructor; [apply blank_lower_settled | exact IH].
Qed.

(** ** Literals and runs of word characters *)

Lemma literal_spec w s rest : literal w s = Some rest <-> s = w ++ rest.
Proof.
  revert s. induction w as [|x w IH]; intros s; simpl.
  - split; congruence.
  - destruct s as [|y s]; [split; discriminate|].
    destruct (Ascii.eqb_spec x y) as [->|Hne].
    + rewrite IH. split; congruence.
    + split; [discriminate | congruence].
Qed.

Lemma literal_app w rest : literal w (w ++ rest) = Some rest.
Proof. now apply literal_spec. Qed.

Definition wordy u : Prop := List.Forall (fun c => is_word c = true) u.

(** A non-empty run of word characters. *)
Definition is_run u : Prop := u <> [] /\ wordy u.

Fixpoint take_word s : list ascii :=
  match s with
  | c :: s' => if is_word c then c :: take_word s' else []
  | [] => []
  end.

Fixpoint drop_word s : list ascii :=
  match s with
  | c :: s' => if is_word c then drop_word s' else s
  | [] => []
  end.

Lemma take_drop_word s : s = take_word s ++ drop_word s.
Proof.
  induction s as [|c s IH]; simpl; [reflexivity|].
  destruct (is_word c); simpl; congruence.
Qed.

Lemma take_word_wordy s : wordy (take_word s).
Proof.
  induction s as [|c s IH]; simpl; [constructor|].
  destruct (is_word c) eqn:Hc; now constructor.
Qed.

Lemma drop_word_next s : next_is_word (drop_word s) = false.
Proof.
  induction s as [|c s IH]; simpl; [reflexivity|].
  destruct (is_word c) eqn:Hc; simpl; auto.
Qed.

Lemma drop_word_length s : (List.length (drop_word s) <= List.length s)%nat.
Proof.
  induction s as [|c s IH]; simpl; [lia|]. destruct (is_word c); simpl; lia.
Qed.

(** Two ways of cutting a text after a run of word characters agree. *)
Lemma run_split_unique u w s rest :
  u ++ s = w ++ rest -> wordy u -> wordy w ->
  next_is_word s = false -> next_is_word rest = false -> u = w /\ s = rest.
Proof.
  revert w. induction u as [|x u IH]; intros w Heq Hu Hw Hs Hr.
  - destruct w as [|y w]; [auto|]. simpl in Heq. subst s. simpl in Hs.
    inversion Hw; congruence.
  - destruct w as [|y w]; simpl in Heq.
    + subst rest. simpl in Hr. inversion Hu; congruence.
    + injection Heq as -> Heq. inversion Hu; inversion Hw; subst.
      destruct (IH w Heq) as [-> ->]; auto.
Qed.

(** Induction along the runs of a text: a character that is not a word
    character, or a whole run of word characters, is taken off the front. *)
Lemma run_induction (P : list ascii -> Prop) :
  P [] ->
  (forall c s, is_word c = false ->
     (forall s', (List.length s' <= List.length s)%nat -> P s') -> P (c :: s)) ->
  (forall u s, is_run u -> next_is_word s = false ->
     (forall s', (List.length s' <= List.length s)%nat -> P s') -> P (u ++ s)) ->
  forall s, P s.
Proof.
  intros Hnil Hother Hrun s.
  remember (List.length s) as n eqn:Hn. revert s Hn.
  induction n as [n IH] using lt_wf_ind. intros s Hn.
  destruct s as [|c s]; [exact Hnil|].
  destruct (is_word c) eqn:Hc.
  - rewrite (take_drop_word (c :: s)). apply Hrun.
    + split; [simpl; now rewrite Hc | apply take_word_wordy].
    + apply drop_word_next.
    + intros s' Hs'. apply (IH (List.length s')); [|reflexivity].
      pose proof (drop_word_length s). simpl in *. rewrite Hc in Hs'. simpl in Hn. lia.
  - apply Hother; [exact Hc|]. intros s' Hs'.
    apply (IH (List.length s')); [simpl in Hn; lia | reflexivity].
Qed.

(** ** Global replacement *)

Lemma last_default {A} (l : list A) x d d' : List.last (x :: l) d = List.last (x :: l) d'.
Proof. revert x. induction l as [|y l IH]; intros x; [reflexivity|]. apply (IH y). Qed.

Lemma last_char_cons c a p : last_char (c :: a) p = last_char a (Some c).
Proof.
  unfold last_char. destruct a as [|d a]; [reflexivity|].
  simpl List.map. change (List.last (Some c :: Some d :: List.map Some a) p)
    with (List.last (Some d :: List.map Some a) p). apply last_default.
Qed.

Lemma last_char_run u p : is_run u -> prev_is_word (last_char u p) = true.
Proof.
  intros [Hne Hu]. revert p. induction Hu as [|c u Hc Hu IH]; intros p; [contradiction|].
  rewrite last_char_cons. destruct u as [|d u]; [exact Hc|].
  apply IH. discriminate.
Qed.

Lemma last_char_context u p q : u <> [] -> last_char u p = last_char u q.
Proof. destruct u as [|c u]; [contradiction|]. intros _. apply last_default. Qed.

(** Passing over the rest of a match. *)
Lemma replace_from_skip m a : forall p s,
  replace_from m p (List.length a) (a ++ s) = replace_from m (last_char a p) O s.
Proof.
  induction a as [|c a IH]; intros p s; [reflexivity|].
  simpl. rewrite IH. now rewrite last_char_cons.
Qed.

Lemma replace_from_none m p c s :
  m p (c :: s) = None ->
  replace_from m p O (c :: s) = c :: replace_from m (Some c) O s.
Proof. intros Hm. simpl. now rewrite Hm. Qed.

Lemma replace_from_match m p a s r :
  a <> [] -> m p (a ++ s) = Some (r, List.length a) ->
  replace_from m p O (a ++ s) = r ++ replace_from m (last_char a p) O s.
Proof.
  destruct a as [|c a]; [contradiction|]. intros _ Hm.
  simpl List.app in *. simpl List.length in Hm. simpl replace_from. rewrite Hm.
  now rewrite replace_from_skip, last_char_cons.
Qed.

Lemma replace_from_settled m (Hm : forall p s r n, m p s = Some (r, n) -> all_settled r) :
  forall s p k, all_settled s -> all_settled (replace_from m p k s).
Proof.
  induction s as [|c s IH]; intros p k Hs; simpl; [constructor|].
  inversion Hs as [|? ? Hc Hs']; subst. destruct k as [|k]; [|now apply IH].
  destruct (m p (c :: s)) as [[r [|n]]|] eqn:E.
  - constructor; [assumption | now apply IH].
  - apply Forall_app. split; [eapply Hm; eassumption | now apply IH].
  - constructor; [assumption | now apply IH].
Qed.

(** The patterns of the normalizer all start with a word boundary
    followed by a word character, and see the text before the position
    only through the boundary. *)
Record word_led m : Prop := {
  led_boundary : forall p s, word_boundary p s = false -> m p s = None;
  led_context : forall p q s, prev_is_word p = prev_is_word q -> m p s = m q s;
  led_word : forall p c s, is_word c = false -> m p (c :: s) = None
}.

Lemma replace_from_context m p q s :
  word_led m -> prev_is_word p = prev_is_word q ->
  replace_from m p O s = replace_from m q O s.
Proof.
  intros Hm Hpq. destruct s as [|c s]; [reflexivity|].
  simpl. now rewrite (led_context m Hm p q).
Qed.

Lemma replace_from_other m p c s :
  word_led m -> is_word c = false ->
  replace_from m p O (c :: s) = c :: replace_all m s.
Proof.
  intros Hm Hc. rewrite replace_from_none by now apply (led_word m Hm).
  f_equal. apply replace_from_context; [assumption|]. exact Hc.
Qed.

(** After a word character the text up to the end of the run is copied. *)
Lemma replace_from_inside m u : forall p s,
  word_led m -> prev_is_word p = true -> wordy u ->
  replace_from m p O (u ++ s) = u ++ replace_from m (last_char u p) O s.
Proof.
  induction u as [|c u IH]; intros p s Hm Hp Hu; [reflexivity|].
  inversion Hu as [|? ? Hc Hu']; subst. simpl List.app.
  rewrite replace_from_none.
  - rewrite IH by assumption. now rewrite last_char_cons.
  - apply (led_boundary m Hm). unfold word_boundary. simpl. now rewrite Hp, Hc.
Qed.

Lemma replace_from_rest m p s :
  word_led m -> next_is_word s = false -> replace_from m p O s = replace_all m s.
Proof.
  intros Hm Hs. destruct s as [|c s]; [reflexivity|]. simpl in Hs.
  unfold replace_all. now rewrite !replace_from_other.
Qed.

(** A run at which the pattern does not match is copied. *)
Lemma replace_all_run_none m u s :
  word_led m -> is_run u -> next_is_word s = false ->
  m None (u ++ s) = None -> replace_all m (u ++ s) = u ++ replace_all m s.
Proof.
  intros Hm [Hne Hu] Hs Hnone. destruct u as [|c u]; [contradiction|].
  inversion Hu as [|? ? Hc Hu']; subst. unfold replace_all. simpl List.app in *.
  rewrite replace_from_none by assumption.
  rewrite replace_from_inside by assumption.
  now rewrite replace_from_rest.
Qed.

(** A match is replaced, and the scan goes on behind it. *)
Lemma replace_all_match m a s r :
  word_led m -> a <> [] -> next_is_word s = false ->
  m None (a ++ s) = Some (r, List.length a) ->
  replace_all m (a ++ s) = r ++ replace_all m s.
Proof.
  intros Hm Hne Hs Hmatch. unfold replace_all.
  rewrite (replace_from_match m None a s r Hne Hmatch).
  now rewrite replace_from_rest.
Qed.

(** ** The patterns *)

Lemma next_is_word_run u s : is_run u -> next_is_word (u ++ s) = true.
Proof. intros [Hne Hu]. destruct u as [|c u]; [contradiction|]. now inversion Hu. Qed.

Lemma literal_other w c s : is_run w -> is_word c = false -> literal w (c :: s) = None.
Proof.
  intros [Hne Hw] Hc. destruct w as [|x w]; [contradiction|].
  simpl. destruct (Ascii.eqb_spec x c) as [->|_]; [|reflexivity].
  inversion Hw; congruence.
Qed.

Lemma match_word_led w : is_run (chars w) -> word_led (match_word w).
Proof.
  intros Hw. split.
  - intros p s Hb. unfold match_word. now rewrite Hb.
  - intros p q s Hpq. unfold match_word, word_boundary. rewrite Hpq.
    now rewrite (last_char_context (chars w) p q) by apply Hw.
  - intros p c s Hc. unfold match_word. rewrite literal_other by assumption.
    now destruct (word_boundary p (c :: s)).
Qed.

Lemma switch_is_run : is_run (chars "switch").
Proof. split; [discriminate | repeat constructor]. Qed.

Lemma match_switch_led : word_led match_switch.
Proof.
  split.
  - intros p s Hb. unfold match_switch. now rewrite Hb.
  - intros p q s Hpq. unfold match_switch, word_boundary. now rewrite Hpq.
  - intros p c s Hc. unfold match_switch.
    rewrite literal_other by (assumption || apply switch_is_run).
    now destruct (word_boundary p (c :: s)).
Qed.

Lemma boundary_after_run u p rest :
  is_run u -> word_boundary (last_char u p) rest = negb (next_is_word rest).
Proof. intros Hu. unfold word_boundary. now rewrite (last_char_run u p Hu). Qed.

(** At the start of a run, [\b(w)\b] matches exactly the run [w]. *)
Lemma match_word_run w u s :
  is_run (chars w) -> is_run u -> next_is_word s = false ->
  match_word w None (u ++ s) =
  if decide (u = chars w) then Some ([], List.length (chars w)) else None.
Proof.
  intros Hw Hu Hs. unfold match_word.
  replace (word_boundary None (u ++ s)) with true
    by (unfold word_boundary; simpl; now rewrite next_is_word_run).
  destruct (decide (u = chars w)) as [->|Hne].
  - rewrite literal_app, boundary_after_run, Hs by assumption. reflexivity.
  - destruct (literal (chars w) (u ++ s)) as [rest|] eqn:E; [|reflexivity].
    apply literal_spec in E. rewrite boundary_after_run by assumption.
    destruct (next_is_word rest) eqn:Hr; [reflexivity|]. exfalso. apply Hne.
    now apply (run_split_unique u (chars w) s rest E (proj2 Hu) (proj2 Hw)).
Qed.

Lemma space_run_word_start s : next_is_word s = true -> space_run s = O.
Proof.
  destruct s as [|c s]; [reflexivity|]. simpl. intros Hc.
  now rewrite (word_not_space c Hc).
Qed.

(** At the start of a run, the first pattern needs the run ["switch"]. *)
Lemma match_switch_run u s :
  is_run u -> next_is_word s = false ->
  match_switch None (u ++ s) =
  if decide (u = chars "switch") then after_switch s else None.
Proof.
  intros Hu Hs. unfold match_switch.
  replace (word_boundary None (u ++ s)) with true
    by (unfold word_boundary; simpl; now rewrite next_is_word_run).
  destruct (decide (u = chars "switch")) as [->|Hne].
  - now rewrite literal_app.
  - destruct (literal (chars "switch") (u ++ s)) as [rest|] eqn:E; [|reflexivity].
    apply literal_spec in E. unfold after_switch.
    destruct (next_is_word rest) eqn:Hr.
    + now rewrite (space_run_word_start rest Hr).
    + exfalso. apply Hne.
      now apply (run_split_unique u (chars "switch") s rest E (proj2 Hu) (proj2 switch_is_run)).
Qed.

Definition spaces s : Prop := List.Forall (fun c => is_space c = true) s.

Lemma space_run_split s :
  spaces (List.firstn (space_run s) s)
  /\ List.length (List.firstn (space_run s) s) = space_run s.
Proof.
  induction s as [|c s [IH1 IH2]]; simpl; [split; [constructor | reflexivity]|].
  destruct (is_space c) eqn:Hc; simpl; [|split; [constructor | reflexivity]].
  split; [now constructor | now rewrite IH2].
Qed.

Lemma switch_alt_some g k s r n :
  g = "on"%string \/ g = "off"%string ->
  switch_alt g k s = Some (r, n) ->
  exists rest, s = chars g ++ rest /\ next_is_word rest = false
               /\ r = chars ("turn " ++ g) /\ n = (k + List.length (chars g))%nat.
Proof.
  intros Hg. unfold switch_alt.
  destruct (literal (chars g) s) as [rest|] eqn:E; [|discriminate].
  apply literal_spec in E.
  assert (Hb : word_boundary (last_char (chars g) None) rest = negb (next_is_word rest))
    by (destruct Hg as [-> | ->]; reflexivity).
  rewrite Hb. destruct (next_is_word rest) eqn:Hr; [discriminate|].
  intros [= <- <-]. exists rest. split_and!; (assumption || reflexivity).
Qed.

(** What a match of the first pattern looks like behind ["switch"]. *)
Lemma after_switch_some s r n :
  after_switch s = Some (r, n) ->
  exists ws g rest,
    s = ws ++ chars g ++ rest /\ ws <> [] /\ spaces ws
    /\ (g = "on"%string \/ g = "off"%string)
    /\ next_is_word rest = false
    /\ r = chars ("turn " ++ g)
    /\ n = List.length (chars "switch" ++ ws ++ chars g).
Proof.
  unfold after_switch. destruct (space_run s) as [|k] eqn:Hk; [discriminate|].
  destruct (space_run_split s) as [Hsp Hlen]. rewrite Hk in Hsp, Hlen.
  set (ws := List.firstn (S k) s) in *. set (tail := List.skipn (S k) s).
  assert (Hs : s = ws ++ tail) by (symmetry; apply List.firstn_skipn).
  assert (Hne : ws <> []) by (intros E; rewrite E in Hlen; discriminate).
  intros Hm.
  assert (Halt : exists g, (g = "on"%string \/ g = "off"%string)
                           /\ switch_alt g (6 + S k) tail = Some (r, n)).
  { destruct (switch_alt "on" (6 + S k) tail) as [x|] eqn:Eon.
    - exists "on"%string. split; [now left | congruence].
    - exists "off"%string. split; [now right | assumption]. }
  destruct Halt as (g & Hg & Halt).
  destruct (switch_alt_some g _ tail r n Hg Halt) as (rest & Htail & Hrest & Hr & Hn).
  exists ws, g, rest. split_and!; try assumption.
  - now rewrite <- Htail.
  - rewrite Hn, !List.length_app, Hlen. simpl. lia.
Qed.

(** The first substitution at the start of a run: the run is copied, or
    it is ["switch"] followed by white space and on or off, and the whole
    phrase is rewritten. *)
Lemma rewrite_switch_run u s :
  is_run u -> next_is_word s = false ->
  replace_all match_switch (u ++ s) = u ++ replace_all match_switch s
  \/ exists ws g rest,
       u = chars "switch" /\ s = ws ++ chars g ++ rest /\ ws <> [] /\ spaces ws
       /\ (g = "on"%string \/ g = "off"%string)
       /\ next_is_word rest = false
       /\ replace_all match_switch (u ++ s) =
          chars ("turn " ++ g) ++ replace_all match_switch rest.
Proof.
  intros Hu Hs. pose proof (match_switch_run u s Hu Hs) as Hm.
  destruct (decide (u = chars "switch")) as [->|Hne].
  - destruct (after_switch s) as [[r n]|] eqn:Ha.
    + right. destruct (after_switch_some s r n Ha)
        as (ws & g & rest & -> & Hws & Hsp & Hg & Hrest & -> & ->).
      exists ws, g, rest. split_and!; try assumption; try reflexivity.
      rewrite !List.app_assoc in *. rewrite <- (List.app_assoc (chars "switch")) in *.
      apply replace_all_match; try assumption; [apply match_switch_led|].
      intros E. apply List.app_eq_nil in E as [E _]. discriminate.
    + left. apply replace_all_run_none; try assumption. apply match_switch_led.
  - left. apply replace_all_run_none; try assumption. apply match_switch_led.
Qed.

(** ** The words of a text *)

Definition push_char c (l : list (list ascii)) : list (list ascii) :=
  match l with
  | w :: ws => (c :: w) :: ws
  | [] => [[c]]
  end.

(** The maximal runs of word characters, in order. *)
Fixpoint words s : list (list ascii) :=
  match s with
  | [] => []
  | c :: s' =>
      if is_word c
      then (if next_is_word s' then push_char c (words s') else [c] :: words s')
      else words s'
  end.

Lemma words_other c s : is_word c = false -> words (c :: s) = words s.
Proof. intros Hc. simpl. now rewrite Hc. Qed.

Lemma words_run u s : is_run u -> next_is_word s = false -> words (u ++ s) = u :: words s.
Proof.
  intros [Hne Hu] Hs. induction Hu as [|c u Hc Hu IH]; [contradiction|].
  simpl. rewrite Hc. destruct u as [|d u].
  - simpl. now rewrite Hs.
  - rewrite next_is_word_run by (split; [discriminate | assumption]).
    rewrite IH by discriminate. reflexivity.
Qed.

Lemma space_not_word c : is_space c = true -> is_word c = false.
Proof.
  intros Hc. destruct (is_word c) eqn:Hw; [|reflexivity].
  rewrite (word_not_space c Hw) in Hc. discriminate.
Qed.

Lemma words_spaces ws s : spaces ws -> words (ws ++ s) = words s.
Proof.
  induction 1 as [|c ws Hc _ IH]; [reflexivity|].
  simpl List.app. now rewrite words_other by now apply space_not_word.
Qed.

Lemma replace_all_next m s :
  word_led m -> next_is_word s = false -> next_is_word (replace_all m s) = false.
Proof.
  intros Hm Hs. destruct s as [|c s]; [reflexivity|]. simpl in Hs.
  unfold replace_all. now rewrite replace_from_other.
Qed.

(** A word that does not occur is not there to be deleted. *)
Lemma delete_absent_word w s :
  is_run (chars w) -> ~ List.In (chars w) (words s) ->
  replace_all (match_word w) s = s.
Proof.
  intros Hw. pose proof (match_word_led w Hw) as Hm.
  induction s as [|c s Hc IH|u s Hu Hs IH] using run_induction; intros Hnot.
  - reflexivity.
  - unfold replace_all. rewrite replace_from_other by assumption.
    rewrite words_other in Hnot by assumption. now rewrite IH.
  - rewrite words_run in Hnot by assumption.
    pose proof (match_word_run w u s Hw Hu Hs) as Hmatch.
    destruct (decide (u = chars w)) as [->|Hne]; [exfalso; apply Hnot; now left|].
    rewrite replace_all_run_none by assumption.
    rewrite IH; [reflexivity | lia |]. intros Hin. apply Hnot. now right.
Qed.

(** Deleting a word deletes every occurrence and makes no new word. *)
Lemma delete_word_words w s :
  is_run (chars w) ->
  ~ List.In (chars w) (words (replace_all (match_word w) s))
  /\ forall x, List.In x (words (replace_all (match_word w) s)) -> List.In x (words s).
Proof.
  intros Hw. pose proof (match_word_led w Hw) as Hm.
  induction s as [|c s Hc IH|u s Hu Hs IH] using run_induction.
  - split; [intros [] | auto].
  - unfold replace_all. rewrite replace_from_other by assumption.
    rewrite !words_other by assumption. now apply IH.
  - destruct (IH s) as [IH1 IH2]; [lia|].
    pose proof (match_word_run w u s Hw Hu Hs) as Hmatch.
    rewrite (words_run u s) by assumption.
    destruct (decide (u = chars w)) as [->|Hne].
    + rewrite (replace_all_match (match_word w) (chars w) s []) by (assumption || apply Hw).
      simpl. split; [assumption | intros x Hx; right; now apply IH2].
    + rewrite replace_all_run_none by assumption.
      rewrite words_run by (assumption || now apply replace_all_next).
      split.
      * intros [Hin|Hin]; [congruence | contradiction].
      * intros x [Hx|Hx]; [now left | right; now apply IH2].
Qed.

(** The first substitution makes no new words besides turn, on and off. *)
Lemma rewrite_switch_words s x :
  List.In x (words (replace_all match_switch s)) ->
  List.In x (words s) \/ List.In x [chars "turn"; chars "on"; chars "off"].
Proof.
  pose proof match_switch_led as Hm.
  induction s as [|c s Hc IH|u s Hu Hs IH] using run_induction.
  - intros [].
  - unfold replace_all. rewrite replace_from_other by assumption.
    rewrite !words_other by assumption. now apply IH.
  - rewrite (words_run u s) by assumption.
    destruct (rewrite_switch_run u s Hu Hs)
      as [->|(ws & g & rest & -> & -> & Hws & Hsp & Hg & Hrest & ->)].
    + rewrite words_run by (assumption || now apply replace_all_next).
      intros [Hx|Hx]; [left; now left|].
      destruct (IH s (Nat.le_refl _) Hx) as [Hin|Hin]; [left; now right | now right].
    + assert (Hgrun : is_run (chars g))
        by (destruct Hg as [-> | ->]; (split; [discriminate | repeat constructor])).
      assert (Hturn : chars ("turn " ++ g) = chars "turn" ++ " "%char :: chars g)
        by (destruct Hg as [-> | ->]; reflexivity).
      rewrite Hturn, <- List.app_assoc.
      rewrite words_run by (reflexivity || (split; [discriminate | repeat constructor])).
      simpl List.app. rewrite words_other by reflexivity.
      rewrite words_run by (assumption || now apply replace_all_next).
      rewrite words_spaces, words_run by assumption.
      intros [Hx|[Hx|Hx]].
      * right. now left.
      * right. subst x. destruct Hg as [-> | ->]; simpl; auto.
      * assert (Hlen : (List.length rest <= List.length (ws ++ chars g ++ rest))%nat)
          by (rewrite !List.length_app; lia).
        destruct (IH rest Hlen Hx) as [Hin|Hin]; [left; right; now right | now right].
Qed.

(** ** White space *)

Lemma collapse_next s : next_is_word (collapse_spaces false s) = next_is_word s.
Proof.
  destruct s as [|c s]; [reflexivity|]. simpl.
  destruct (is_space c) eqn:Hc; [|reflexivity]. simpl.
  now rewrite (space_not_word c Hc).
Qed.

Lemma words_collapse s : forall b, words (collapse_spaces b s) = words s.
Proof.
  induction s as [|c s IH]; intros b; [reflexivity|]. simpl collapse_spaces.
  destruct (is_space c) eqn:Hc.
  - rewrite (words_other c s) by now apply space_not_word.
    destruct b; [apply IH|]. now rewrite words_other, IH.
  - simpl. now rewrite collapse_next, IH.
Qed.

Lemma words_trim_start s : words (trim_start s) = words s.
Proof.
  induction s as [|c s IH]; [reflexivity|]. simpl trim_start.
  destruct (is_space c) eqn:Hc; [|reflexivity].
  now rewrite IH, (words_other c s) by now apply space_not_word.
Qed.

Lemma trim_end_next s : trim_end s <> [] -> next_is_word (trim_end s) = next_is_word s.
Proof.
  destruct s as [|c s]; [reflexivity|]. simpl.
  destruct (trim_end s); [|reflexivity]. destruct (is_space c); [contradiction | reflexivity].
Qed.

Lemma words_trim_end s : words (trim_end s) = words s.
Proof.
  induction s as [|c s IH]; [reflexivity|]. simpl trim_end.
  destruct (trim_end s) as [|d r] eqn:E.
  - simpl in IH. destruct (is_space c) eqn:Hc.
    + now rewrite (words_other c s) by now apply space_not_word.
    + simpl. rewrite <- IH. now destruct (is_word c), (next_is_word s).
  - assert (Hn : next_is_word (d :: r) = next_is_word s)
      by (rewrite <- E; apply trim_end_next; rewrite E; discriminate).
    change (words (c :: d :: r)) with
      (if is_word c
       then (if next_is_word (d :: r) then push_char c (words (d :: r))
             else [c] :: words (d :: r))
       else words (d :: r)).
    now rewrite Hn, IH.
Qed.

(** Every white-space character is a single space between others, where
    [after_space] tells that a space comes just before the text. *)
Fixpoint squeezed_from (after_space : bool) s : bool :=
  match s with
  | [] => true
  | c :: s' =>
      if is_space c
      then Ascii.eqb c " " && negb after_space && squeezed_from true s'
      else squeezed_from false s'
  end.

(** Squeezed, and not ending in a space. *)
Fixpoint tidy_from (after_space : bool) s : bool :=
  match s with
  | [] => negb after_space
  | c :: s' =>
      if is_space c
      then Ascii.eqb c " " && negb after_space && tidy_from true s'
      else tidy_from false s'
  end.

(** The shape of a normalised text: single spaces between the other
    characters, none at either end. *)
Definition tidy s : Prop := s = [] \/ tidy_from true s = true.

Lemma collapse_squeezed s : forall b, squeezed_from b (collapse_spaces b s) = true.
Proof.
  induction s as [|c s IH]; intros b; [reflexivity|]. simpl.
  destruct (is_space c) eqn:Hc.
  - destruct b; [apply IH|]. simpl. apply IH.
  - simpl. rewrite Hc. apply IH.
Qed.

Lemma trim_start_squeezed s : forall b,
  squeezed_from b s = true -> squeezed_from true (trim_start s) = true.
Proof.
  induction s as [|c s IH]; intros b; [reflexivity|]. simpl.
  destruct (is_space c) eqn:Hc.
  - intros Hsq. apply andb_prop in Hsq as [_ Hsq]. now apply (IH true).
  - simpl. now rewrite Hc.
Qed.

Lemma trim_end_tidy s : forall b,
  squeezed_from b s = true -> trim_end s = [] \/ tidy_from b (trim_end s) = true.
Proof.
  induction s as [|c s IH]; intros b; [now left|]. simpl.
  destruct (is_space c) eqn:Hc.
  - intros Hsq. apply andb_prop in Hsq as [Hsq Hs]. apply andb_prop in Hsq as [Heq Hb].
    destruct (IH true Hs) as [E|Ht].
    + rewrite E. now left.
    + destruct (trim_end s) as [|d r] eqn:E; [discriminate|].
      right. simpl tidy_from at 1. now rewrite Hc, Heq, Hb.
  - intros Hs. right. destruct (IH false Hs) as [E|Ht].
    + rewrite E. simpl. now rewrite Hc.
    + destruct (trim_end s) as [|d r] eqn:E; simpl tidy_from at 1; now rewrite Hc.
Qed.

Lemma normal_form_tidy s : tidy (trim_chars (collapse_spaces false s)).
Proof.
  unfold tidy, trim_chars. apply trim_end_tidy.
  apply (trim_start_squeezed _ false), collapse_squeezed.
Qed.

Lemma tidy_squeezed s : forall b, tidy_from b s = true -> squeezed_from b s = true.
Proof.
  induction s as [|c s IH]; intros b; [reflexivity|]. simpl.
  destruct (is_space c).
  - intros Ht. apply andb_prop in Ht as [Ht Hs]. rewrite Ht. simpl. now apply IH.
  - apply IH.
Qed.

Lemma squeezed_collapse s : forall b, squeezed_from b s = true -> collapse_spaces b s = s.
Proof.
  induction s as [|c s IH]; intros b; [reflexivity|]. simpl.
  destruct (is_space c).
  - intros Hsq. apply andb_prop in Hsq as [Hsq Hs]. apply andb_prop in Hsq as [Heq Hb].
    apply Ascii.eqb_eq in Heq as ->. destruct b; [discriminate|]. now rewrite IH.
  - intros Hs. now rewrite IH.
Qed.

Lemma squeezed_weaken s : squeezed_from true s = true -> squeezed_from false s = true.
Proof.
  destruct s as [|c s]; [reflexivity|]. simpl. destruct (is_space c); [|auto].
  rewrite andb_false_r. discriminate.
Qed.

Lemma tidy_trim_start s : tidy_from true s = true -> trim_start s = s.
Proof.
  destruct s as [|c s]; [reflexivity|]. simpl. destruct (is_space c); [|reflexivity].
  rewrite andb_false_r. discriminate.
Qed.

Lemma tidy_trim_end s : forall b, tidy_from b s = true -> trim_end s = s.
Proof.
  induction s as [|c s IH]; intros b; [reflexivity|]. simpl.
  destruct (is_space c).
  - intros Ht. apply andb_prop in Ht as [_ Hs]. rewrite (IH true Hs).
    destruct s; [discriminate | reflexivity].
  - intros Hs. rewrite (IH false Hs). now destruct s.
Qed.

(** On a tidy text the last two steps of the normalizer change nothing. *)
Lemma tidy_normal_form s : tidy s -> trim_chars (collapse_spaces false s) = s.
Proof.
  intros [->|Ht]; [reflexivity|]. unfold trim_chars.
  rewrite squeezed_collapse by now apply squeezed_weaken, tidy_squeezed.
  rewrite tidy_trim_start by assumption. now apply (tidy_trim_end s true).
Qed.

Lemma tidy_from_run u s b : is_run u -> tidy_from b (u ++ s) = tidy_from false s.
Proof.
  intros [Hne Hu]. revert b. induction Hu as [|c u Hc Hu IH]; intros b; [contradiction|].
  simpl. rewrite (word_not_space c Hc). destruct u as [|d u]; [reflexivity|].
  apply IH. discriminate.
Qed.

Lemma tidy_from_spaces ws s :
  spaces ws -> ws <> [] -> tidy_from false (ws ++ s) = true ->
  ws = [" "%char] /\ tidy_from true s = true.
Proof.
  intros Hsp Hne. destruct Hsp as [|c ws Hc Hsp]; [contradiction|].
  simpl. rewrite Hc. intros Ht. apply andb_prop in Ht as [Ht Hs].
  apply andb_prop in Ht as [Heq _]. apply Ascii.eqb_eq in Heq as ->.
  destruct Hsp as [|d ws Hd Hsp]; [auto|].
  simpl in Hs. rewrite Hd, andb_false_r in Hs. discriminate.
Qed.

(** The first substitution keeps a text tidy. *)
Lemma rewrite_switch_tidy_from s : forall b,
  tidy_from b s = true -> tidy_from b (replace_all match_switch s) = true.
Proof.
  pose proof match_switch_led as Hm.
  induction s as [|c s Hc IH|u s Hu Hs IH] using run_induction; intros b.
  - auto.
  - unfold replace_all. rewrite replace_from_other by assumption. simpl.
    destruct (is_space c).
    + intros Ht. apply andb_prop in Ht as [Ht Hts]. rewrite Ht. simpl.
      now apply (IH s (Nat.le_refl _) true).
    + now apply (IH s (Nat.le_refl _) false).
  - rewrite tidy_from_run by assumption. intros Ht.
    destruct (rewrite_switch_run u s Hu Hs)
      as [->|(ws & g & rest & -> & -> & Hws & Hsp & Hg & Hrest & ->)].
    + rewrite tidy_from_run by assumption. now apply (IH s (Nat.le_refl _) false).
    + assert (Hgrun : is_run (chars g))
        by (destruct Hg as [-> | ->]; (split; [discriminate | repeat constructor])).
      assert (Hturn : chars ("turn " ++ g) = chars "turn" ++ " "%char :: chars g)
        by (destruct Hg as [-> | ->]; reflexivity).
      destruct (tidy_from_spaces ws _ Hsp Hws Ht) as [-> Ht'].
      rewrite tidy_from_run in Ht' by assumption.
      rewrite Hturn, <- List.app_assoc.
      rewrite tidy_from_run by (split; [discriminate | repeat constructor]).
      simpl List.app. change (tidy_from false (" "%char :: ?x)) with (tidy_from true x).
      rewrite tidy_from_run by assumption.
      apply (IH rest); [|assumption]. rewrite !List.length_app. lia.
Qed.

Lemma rewrite_switch_tidy s : tidy s -> tidy (replace_all match_switch s).
Proof.
  intros [->|Ht]; [now left|]. right. now apply rewrite_switch_tidy_from.
Qed.

(** ** Settled characters along the pipeline *)

Lemma match_word_settled w p s r n : match_word w p s = Some (r, n) -> all_settled r.
Proof.
  unfold match_word. destruct (word_boundary p s); [|discriminate].
  destruct (literal (chars w) s); [|discriminate].
  destruct (word_boundary _ _); [|discriminate]. intros [= <- _]. constructor.
Qed.

Lemma match_switch_settled p s r n : match_switch p s = Some (r, n) -> all_settled r.
Proof.
  unfold match_switch. destruct (word_boundary p s); [|discriminate].
  destruct (literal (chars "switch") s) as [rest|]; [|discriminate].
  intros Ha. destruct (after_switch_some rest r n Ha) as (_ & g & _ & _ & _ & _ & Hg & _ & -> & _).
  destruct Hg as [-> | ->]; repeat constructor.
Qed.

Lemma collapse_settled s : forall b, all_settled s -> all_settled (collapse_spaces b s).
Proof.
  induction s as [|c s IH]; intros b Hs; [constructor|].
  inversion Hs as [|? ? Hc Hs']; subst. simpl.
  destruct (is_space c); [destruct b|].
  - now apply IH.
  - constructor; [reflexivity | now apply IH].
  - constructor; [assumption | now apply IH].
Qed.

Lemma trim_start_settled s : all_settled s -> all_settled (trim_start s).
Proof.
  induction 1 as [|c s Hc Hs IH]; [constructor|]. simpl.
  destruct (is_space c); [assumption | now constructor].
Qed.

Lemma trim_end_settled s : all_settled s -> all_settled (trim_end s).
Proof.
  induction 1 as [|c s Hc Hs IH]; [constructor|]. simpl.
  destruct (trim_end s); [destruct (is_space c); repeat constructor; assumption|].
  now constructor.
Qed.

Lemma substitute_unfold s :
  substitute s =
  replace_all (match_word "my")
    (replace_all (match_word "an")
       (replace_all (match_word "a")
          (replace_all (match_word "the")
             (replace_all (match_word "please")
                (replace_all match_switch s))))).
Proof. reflexivity. Qed.

Lemma substitute_settled s : all_settled s -> all_settled (substitute s).
Proof.
  intros Hs. rewrite substitute_unfold.
  repeat (apply replace_from_settled; [apply match_word_settled|]).
  apply replace_from_settled; [apply match_switch_settled | assumption].
Qed.

(** ** Filler words *)

Definition fillers : list string := ["please"; "the"; "a"; "an"; "my"]%string.

Definition no_fillers s : Prop :=
  forall w, List.In w fillers -> ~ List.In (chars w) (words s).

Lemma filler_is_run w : List.In w fillers -> is_run (chars w).
Proof.
  intros Hw. repeat (destruct Hw as [<-|Hw]; [split; [discriminate | repeat constructor]|]).
  destruct Hw.
Qed.

Lemma substitute_no_fillers s : no_fillers (substitute s).
Proof.
  rewrite substitute_unfold.
  set (x0 := replace_all match_switch s).
  set (x1 := replace_all (match_word "please") x0).
  set (x2 := replace_all (match_word "the") x1).
  set (x3 := replace_all (match_word "a") x2).
  set (x4 := replace_all (match_word "an") x3).
  destruct (delete_word_words "please" x0) as [N1 _]; [apply filler_is_run; simpl; auto|].
  destruct (delete_word_words "the" x1) as [N2 S2]; [apply filler_is_run; simpl; auto|].
  destruct (delete_word_words "a" x2) as [N3 S3]; [apply filler_is_run; simpl; auto|].
  destruct (delete_word_words "an" x3) as [N4 S4]; [apply filler_is_run; simpl; auto 6|].
  destruct (delete_word_words "my" x4) as [N5 S5]; [apply filler_is_run; simpl; auto 6|].
  fold x1 in N1, N2, S2. fold x2 in N2, S2, N3, S3. fold x3 in N3, S3, N4, S4.
  fold x4 in N4, S4, N5, S5.
  intros w Hw Hin.
  repeat (destruct Hw as [<-|Hw]; [solve [auto 10]|]). destruct Hw.
Qed.

Lemma rewrite_switch_no_fillers s : no_fillers s -> no_fillers (replace_all match_switch s).
Proof.
  intros Hs w Hw Hin. destruct (rewrite_switch_words s _ Hin) as [Hold|Hnew].
  - now apply (Hs w Hw).
  - repeat (destruct Hw as [<-|Hw];
            [repeat (destruct Hnew as [Hnew|Hnew]; [discriminate|]); destruct Hnew|]).
    destruct Hw.
Qed.

(** With no filler word left, only the first substitution can act. *)
Lemma substitute_without_fillers s :
  no_fillers (replace_all match_switch s) -> substitute s = replace_all match_switch s.
Proof.
  intros Hs. rewrite substitute_unfold.
  rewrite (delete_absent_word "please") by (apply filler_is_run || apply Hs; simpl; auto).
  rewrite (delete_absent_word "the") by (apply filler_is_run || apply Hs; simpl; auto).
  rewrite (delete_absent_word "a") by (apply filler_is_run || apply Hs; simpl; auto).
  rewrite (delete_absent_word "an") by (apply filler_is_run || apply Hs; simpl; auto 6).
  rewrite (delete_absent_word "my") by (apply filler_is_run || apply Hs; simpl; auto 6).
  reflexivity.
Qed.

(** ** Two passes *)

(** What the first pass establishes. *)
Lemma normalize_chars_shape s :
  all_settled (normalize_chars s) /\ tidy (normalize_chars s)
  /\ no_fillers (normalize_chars s).
Proof.
  unfold normalize_chars. split_and!.
  - apply trim_end_settled, trim_start_settled, collapse_settled, substitute_settled,
      blank_lower_all_settled.
  - apply normal_form_tidy.
  - intros w Hw. unfold trim_chars.
    rewrite words_trim_end, words_trim_start, words_collapse.
    now apply substitute_no_fillers.
Qed.

(** On such a text a pass is the first substitution alone. *)
Lemma normalize_chars_again t :
  all_settled t -> tidy t -> no_fillers t ->
  normalize_chars t = replace_all match_switch t.
Proof.
  intros Hset Htidy Hfill. unfold normalize_chars.
  rewrite (all_settled_lower t Hset), (all_settled_blank t Hset).
  rewrite substitute_without_fillers by now apply rewrite_switch_no_fillers.
  now apply tidy_normal_form, rewrite_switch_tidy.
Qed.

Lemma chars_str l : chars (str l) = l.
Proof. apply list_ascii_of_string_of_list_ascii. Qed.

Lemma normalize_twice text :
  normalizeUtterance (normalizeUtterance text) = rewrite_switch (normalizeUtterance text).
Proof.
  unfold normalizeUtterance at 2 3. destruct (negb (truthy text)); [reflexivity|].
  destruct (normalize_chars_shape (chars text)) as (Hset & Htidy & Hfill).
  set (t := normalize_chars (chars text)) in *.
  unfold normalizeUtterance, rewrite_switch. rewrite chars_str.
  destruct (negb (truthy (str t))) eqn:E.
  - destruct t as [|c t]; [reflexivity | discriminate].
  - now rewrite normalize_chars_again.
Qed.

(** C2 (amended). A second pass of the normalizer applies the first
    substitution, switch on/off to turn on/off, to the result of the first
    pass and changes nothing else; so normalising twice gives the same as
    normalising once for every text whose normal form that substitution
    leaves unchanged. *)
Theorem normalize_idempotent_without_switch text :
  normalizeUtterance (normalizeUtterance text) = rewrite_switch (normalizeUtterance text)
  /\ (rewrite_switch (normalizeUtterance text) = normalizeUtterance text ->
      normalizeUtterance (normalizeUtterance text) = normalizeUtterance text).
Proof.
  split; [apply normalize_twice|]. intros Hfix. now rewrite normalize_twice.
Qed.

End NormalizeFacts.

(** C2 as stated fails when a filler word stands between switch and
    on: the first pass deletes the filler after the first substitution has
    run, and the second pass rewrites what is left. *)
Lemma normalize_not_idempotent_counterexample :
  Normalize.normalizeUtterance "switch the on" = "switch on"%string
  /\ Normalize.normalizeUtterance (Normalize.normalizeUtterance "switch the on")
     = "turn on"%string
  /\ Normalize.normalizeUtterance (Normalize.normalizeUtterance "switch the on")
     <> Normalize.normalizeUtterance "switch the on".
Proof.
  split_and!; [vm_compute; reflexivity | vm_compute; reflexivity | vm_compute; discriminate].
Qed.

Lemma normalize_idempotent_without_switch_witness :
  Normalize.normalizeUtterance "Switch on the Pool Pump, please!" = "turn on pool pump"%string
  /\ Normalize.normalizeUtterance
       (Normalize.normalizeUtterance "Switch on the Pool Pump, please!")
     = Normalize.normalizeUtterance "Switch on the Pool Pump, please!".
Proof.
  split; [vm_compute; reflexivity|].
  apply (normalize_idempotent_without_switch "Switch on the Pool Pump, please!").
  vm_compute. reflexivity.
Defined.

(* ===================================================================== *)
(** * More on the plan cache *)
(* ===================================================================== *)

Section IntentCacheMore.
Import IntentCache.
Context {V : Type}.
Implicit Types (m : JsMap V) (c : t V) (k key : string) (e : Entry V).

Lemma map_get_skipn_absent k n m : map_get k m = None -> map_get k (List.skipn n m) = None.
Proof.
  rewrite !map_get_None_keys. intros Hn Hin. apply Hn.
  unfold map_keys in *. apply List.in_map_iff in Hin as (kv & Hk & Hin).
  apply List.in_map_iff. exists kv. split; [assumption|].
  rewrite <- (List.firstn_skipn n m). apply List.in_or_app. now right.
Qed.

Lemma map_delete_length_present k e m :
  distinct_keys m -> map_get k m = Some e ->
  S (List.length (map_delete k m)) = List.length m.
Proof.
  induction m as [|[k' e'] m IH]; intros Hm; [discriminate|].
  inversion Hm as [|? ? Hnot Hrest]; subst. rewrite map_get_cons. simpl.
  destruct (String.eqb_spec k k') as [->|Hne]; simpl.
  - intros _. f_equal. f_equal. apply map_delete_absent. now apply map_get_None_keys.
  - intros Hg. f_equal. now apply IH.
Qed.

Lemma map_delete_length m k : (List.length (map_delete k m) <= List.length m)%nat.
Proof. apply List.filter_length_le. Qed.

Lemma set_then_get c key (v : V) ttlMs now now' :
  well_formed c -> 1 <= maxEntries c ->
  expired now' (stored_entry c v ttlMs now) = false ->
  exists c1, set c key v ttlMs now = Some c1 /\ fst (get c1 key now') = Some v.
Proof.
  intros Hwf Hmax Hlive. rewrite set_spec by (assumption || lia).
  eexists. split; [reflexivity|]. unfold get. simpl.
  set (e := stored_entry c v ttlMs now) in *.
  set (n := Z.to_nat _).
  assert (Hn : (n <= List.length (map_delete key (map c)))%nat).
  { unfold n, map_size, touched. rewrite List.length_app. simpl. lia. }
  assert (Hget : map_get key (List.skipn n (touched (map c) key e)) = Some e).
  { unfold touched. rewrite List.skipn_app.
    replace (n - List.length (map_delete key (map c)))%nat with O by lia.
    simpl. rewrite map_get_app, map_get_skipn_absent by apply map_get_delete_eq.
    rewrite map_get_cons. now rewrite String.eqb_refl. }
  rewrite Hget, Hlive. reflexivity.
Qed.

(** X1. What [set] stores, [get] returns: with a bound of at least one
    entry, a [get] of the key right after the [set], at a time at which the
    stored entry has not expired, returns the value just stored. *)
Theorem intent_cache_set_then_get c key (v : V) ttlMs now now' :
  well_formed c -> 1 <= maxEntries c ->
  expired now' (stored_entry c v ttlMs now) = false ->
  exists c1, set c key v ttlMs now = Some c1 /\ fst (get c1 key now') = Some v.
Proof. apply set_then_get. Qed.

(** X2. [delete] removes the key and nothing else: the key is absent
    afterwards, every other key reads as before, and deleting an absent key
    changes nothing. *)
Theorem intent_cache_delete c key :
  (forall now, fst (get (delete c key) key now) = None)
  /\ (forall k now, k <> key -> fst (get (delete c key) k now) = fst (get c k now))
  /\ (map_get key (map c) = None -> delete c key = c).
Proof.
  split_and!.
  - intros now. unfold get, delete. simpl. now rewrite map_get_delete_eq.
  - intros k now Hne. unfold get, delete. simpl.
    rewrite map_get_delete_ne by assumption.
    destruct (map_get k (map c)) as [e|]; [|reflexivity]. now destruct (expired now e).
  - intros Habsent. unfold delete. rewrite (map_delete_absent _ _ Habsent). now destruct c.
Qed.

(** [get] and [delete] never make the map longer. *)
Lemma get_size c key now :
  well_formed c -> map_size (map (snd (get c key now))) <= map_size (map c).
Proof.
  intros Hwf. unfold get, map_size.
  destruct (map_get key (map c)) as [e|] eqn:Hg; simpl; [|lia].
  destruct (expired now e); simpl.
  - pose proof (map_delete_length (map c) key). lia.
  - rewrite map_set_touch. unfold touched. rewrite List.length_app. simpl.
    pose proof (map_delete_length_present key e (map c) Hwf Hg). lia.
Qed.

Lemma perform_bound c o :
  well_formed c -> 0 <= maxEntries c -> map_size (map c) <= maxEntries c ->
  exists c', perform c o = Some c' /\ well_formed c'
             /\ maxEntries c' = maxEntries c /\ map_size (map c') <= maxEntries c'.
Proof.
  intros Hwf Hmax Hsize. destruct o as [k now|k v ttl now|k]; simpl.
  - eexists. split; [reflexivity|]. split; [now apply get_well_formed|].
    pose proof (get_size c k now Hwf).
    assert (Hm : maxEntries (snd (get c k now)) = maxEntries c).
    { unfold get. destruct (map_get k (map c)) as [e|]; [|reflexivity].
      now destruct (expired now e). }
    rewrite Hm. split; [reflexivity | lia].
  - destruct (set c k v ttl now) as [c'|] eqn:Hset;
      [|rewrite set_spec in Hset by assumption; discriminate].
    exists c'. split; [reflexivity|].
    split; [exact (set_well_formed _ _ _ _ _ _ Hwf Hset)|].
    unfold set, set_fuel in Hset.
    destruct (evict _ _ _) as [m3|] eqn:Hev; [|discriminate].
    apply evict_bound in Hev. injection Hset as <-. simpl. auto.
  - eexists. split; [reflexivity|]. split; [now apply distinct_delete|].
    split; [reflexivity|]. simpl. unfold map_size in *.
    pose proof (map_delete_length (map c) k). lia.
Qed.

(** X3. A cache built with a non-negative bound stays sound through any
    sequence of [get], [set] and [delete] calls: every call returns, no key
    is stored twice, and the number of entries never exceeds the bound. *)
Theorem intent_cache_invariant (bound : Z) (ttl : option (option Z)) (calls : list (Call V)) :
  0 <= bound ->
  exists c', perform_all (new (Some bound) ttl) calls = Some c'
             /\ well_formed c' /\ maxEntries c' = bound
             /\ map_size (map c') <= bound.
Proof.
  intros Hb.
  assert (Hgen : forall c, well_formed c -> maxEntries c = bound ->
                   map_size (map c) <= bound ->
                   exists c', perform_all c calls = Some c' /\ well_formed c'
                              /\ maxEntries c' = bound /\ map_size (map c') <= bound).
  { induction calls as [|o calls IH]; intros c Hwf Hmax Hsize.
    - exists c. simpl. auto.
    - destruct (perform_bound c o Hwf) as (c1 & Hp & Hwf1 & Hmax1 & Hsize1); try lia.
      simpl. rewrite Hp. apply IH; [assumption | congruence | lia]. }
  apply Hgen; [unfold well_formed, distinct_keys; simpl; constructor | reflexivity |].
  unfold map_size. simpl. lia.
Qed.

(** X4. A [get] touches one key only: whatever it returns, every other
    key keeps its entry, and a [get] of a key that is not stored leaves the
    cache as it was. *)
Theorem intent_cache_get_frame c key now :
  (forall k, k <> key ->
     map_get k (map (snd (get c key now))) = map_get k (map c))
  /\ (map_get key (map c) = None -> get c key now = (None, c)).
Proof.
  split.
  - intros k Hne. unfold get. destruct (map_get key (map c)) as [e|]; [|reflexivity].
    destruct (expired now e); simpl.
    + now apply map_get_delete_ne.
    + rewrite map_set_touch. now apply map_get_touched_ne.
  - intros Habsent. unfold get. now rewrite Habsent.
Qed.

(** X5. [set] evicts only on overflow: when the map with the key moved
    to the recent end fits the bound (the key was already stored in a cache
    within its bound, or the cache has room), every other entry stays, in
    its order. *)
Theorem intent_cache_set_keeps_others c key (v : V) ttlMs now :
  well_formed c -> 0 <= maxEntries c ->
  map_size (touched (map c) key (stored_entry c v ttlMs now)) <= maxEntries c ->
  exists c', set c key v ttlMs now = Some c'
             /\ map c' = map_delete key (map c) ++ [(key, stored_entry c v ttlMs now)]
             /\ forall k, k <> key -> map_get k (map c') = map_get k (map c).
Proof.
  intros Hwf Hmax Hfit. rewrite set_spec by assumption.
  eexists. split; [reflexivity|]. simpl.
  replace (Z.to_nat _) with O by lia. simpl.
  split; [reflexivity|]. intros k Hne. now apply map_get_touched_ne.
Qed.

End IntentCacheMore.

Lemma intent_cache_set_then_get_witness :
  exists c1, IntentCache.set two_entries "c" 3 (Some 0) 5 = Some c1
             /\ fst (IntentCache.get c1 "c" 5) = Some 3.
Proof.
  apply (intent_cache_set_then_get two_entries "c" 3 (Some 0) 5 5).
  - exact two_entries_well_formed.
  - simpl. lia.
  - reflexivity.
Defined.

Lemma intent_cache_delete_witness :
  fst (IntentCache.get (IntentCache.delete two_entries "a") "b" 5) = Some 2
  /\ IntentCache.delete two_entries "zz" = two_entries.
Proof.
  destruct (intent_cache_delete two_entries "a") as (_ & Hother & _).
  destruct (intent_cache_delete two_entries "zz") as (_ & _ & Habsent).
  split.
  - rewrite (Hother "b"%string 5); [reflexivity | discriminate].
  - apply Habsent. reflexivity.
Defined.

Lemma intent_cache_invariant_witness :
  exists c', IntentCache.perform_all (IntentCache.new (Some 1) None)
               [IntentCache.CSet "a" 1 None 10; IntentCache.CSet "b" 2 None 11;
                IntentCache.CGet "a" 12; IntentCache.CDelete "b"] = Some c'
             /\ well_formed c' /\ IntentCache.maxEntries c' = 1
             /\ IntentCache.map_size (IntentCache.map c') <= 1.
Proof.
  apply (intent_cache_invariant 1 None). lia.
Defined.

Lemma intent_cache_get_frame_witness :
  IntentCache.map_get "a" (IntentCache.map (snd (IntentCache.get two_entries "b" 1000)))
  = Some (IntentCache.mkEntry 1 None)
  /\ IntentCache.get two_entries "zz" 5 = (None, two_entries).
Proof.
  destruct (intent_cache_get_frame two_entries "b" 1000) as [Hother _].
  destruct (intent_cache_get_frame two_entries "zz" 5) as [_ Hmiss].
  split.
  - rewrite (Hother "a"%string); [reflexivity | discriminate].
  - apply Hmiss. reflexivity.
Defined.

Lemma intent_cache_set_keeps_others_witness :
  exists c', IntentCache.set two_entries "a" 9 None 5 = Some c'
             /\ IntentCache.map c' =
                [("b"%string, IntentCache.mkEntry 2 (Some 900));
                 ("a"%string, IntentCache.mkEntry 9 (Some 60005))].
Proof.
  destruct (intent_cache_set_keeps_others two_entries "a" 9 None 5)
    as (c' & Hset & Hmap & _).
  - exact two_entries_well_formed.
  - simpl. lia.
  - vm_compute. discriminate.
  - exists c'. split; [exact Hset | exact Hmap].
Defined.

(* ===================================================================== *)
(** * More on the directory and the resolver *)
(* ===================================================================== *)

Section DirectoryMore.
Import JS HomeAssistant.

Ltac by_char c :=
  destruct c as [[] [] [] [] [] [] [] []]; vm_compute; intros;
  first [reflexivity | discriminate | (split; reflexivity)].

(** What [tokenize] leaves of a character that is not turned into a
    separator: a lower-case letter or a digit. *)
Definition token_char (c : ascii) : Prop :=
  (is_letter c || is_number c) = true /\ is_space c = false /\ lower_char c = c.

Lemma tokenize_char c :
  let c' := if is_letter (lower_char c) || is_number (lower_char c) || is_space (lower_char c)
            then lower_char c else " "%char in
  is_space c' = false -> token_char c'.
Proof.
  unfold token_char.
  destruct c as [[] [] [] [] [] [] [] []]; vm_compute; intros;
    first [discriminate | (split_and!; reflexivity)].
Qed.

Lemma lower_char_idempotent c : lower_char (lower_char c) = lower_char c.
Proof. by_char c. Qed.

Lemma split_ws_tokens (P : ascii -> Prop) s : forall cur,
  List.Forall P cur ->
  List.Forall (fun c => is_space c = false -> P c) s ->
  forall token, List.In token (split_ws cur s) -> token <> [] /\ List.Forall P token.
Proof.
  assert (Hrev : forall c cur, List.Forall P (c :: cur) ->
                   List.rev (c :: cur) <> [] /\ List.Forall P (List.rev (c :: cur))).
  { intros c cur Hcur. split.
    - simpl. intros E. now apply List.app_eq_nil in E as [_ E].
    - apply Forall_forall. intros x Hx. rewrite Forall_forall in Hcur.
      apply Hcur. apply list_elem_of_In. apply List.in_rev.
      now apply list_elem_of_In. }
  induction s as [|c s IH]; intros cur Hcur Hs token; simpl.
  - destruct cur as [|d cur]; [intros []|]. intros [<-|[]]. now apply Hrev.
  - inversion Hs as [|? ? Hc Hs']; subst. destruct (is_space c) eqn:Ec.
    + destruct cur as [|d cur].
      * now apply IH.
      * intros [<-|Hin]; [now apply Hrev | now apply (IH [])].
    + apply IH; [|assumption]. constructor; auto.
Qed.

(** X6. Every token [tokenize] produces is a non-empty string of
    lower-case letters and digits, and the tokens do not depend on the
    case of the text. *)
Theorem tokenize_tokens (text token : string) :
  (List.In token (tokenize text) ->
   truthy token = true /\ List.Forall token_char (chars token))
  /\ tokenize (toLowerCase text) = tokenize text.
Proof.
  split.
  - unfold tokenize. intros Hin. apply List.in_map_iff in Hin as (l & <- & Hin).
    unfold tokenize_chars in Hin.
    apply (split_ws_tokens token_char) in Hin as [Hne Hall].
    + rewrite chars_str. split; [|assumption]. now destruct l.
    + constructor.
    + apply Forall_forall. intros c Hc. apply list_elem_of_In in Hc.
      apply List.in_map_iff in Hc as (d & <- & Hd).
      apply List.in_map_iff in Hd as (x & <- & _). apply tokenize_char.
  - unfold tokenize, toLowerCase, tokenize_chars. rewrite chars_str.
    assert (Hlow : List.map lower_char (List.map lower_char (chars text))
                   = List.map lower_char (chars text)).
    { rewrite List.map_map. apply List.map_ext. intros c. apply lower_char_idempotent. }
    now rewrite Hlow.
Qed.

Definition token_hits (token : string) (entityTokens : list string) (entityId : string) : Z :=
  (if mem_string token entityTokens then 3 else 0)
  + (if includes entityId token then 1 else 0).

Lemma score_fold queryTokens entityTokens entityId : forall acc,
  List.fold_left
    (fun score token =>
       let score := if mem_string token entityTokens then score + 3 else score in
       if includes entityId token then score + 1 else score)
    queryTokens acc
  = acc + List.fold_right Z.add 0
            (List.map (fun token => token_hits token entityTokens entityId) queryTokens).
Proof.
  induction queryTokens as [|token l IH]; intros acc; simpl; [lia|].
  rewrite IH. unfold token_hits.
  destruct (mem_string token entityTokens), (includes entityId token); lia.
Qed.

Lemma scoreMatch_sum queryTokens entityTokens entityId :
  scoreMatch queryTokens entityTokens entityId =
  List.fold_right Z.add 0
    (List.map (fun token => token_hits token entityTokens entityId) queryTokens).
Proof.
  unfold scoreMatch. destruct queryTokens as [|token l]; [reflexivity|].
  now rewrite score_fold.
Qed.

Lemma sum_hits_bounds entityTokens entityId l :
  0 <= List.fold_right Z.add 0
         (List.map (fun token => token_hits token entityTokens entityId) l)
    <= 4 * Z.of_nat (List.length l).
Proof.
  induction l as [|token l IH]; simpl List.fold_right; simpl List.length; [lia|].
  unfold token_hits at 1 3.
  destruct (mem_string token entityTokens), (includes entityId token); lia.
Qed.

Lemma sum_hits_zero entityTokens entityId l :
  List.fold_right Z.add 0
    (List.map (fun token => token_hits token entityTokens entityId) l) = 0
  <-> forall token, List.In token l ->
        mem_string token entityTokens = false /\ includes entityId token = false.
Proof.
  induction l as [|token l IH]; simpl List.fold_right.
  - split; [intros _ t [] | reflexivity].
  - pose proof (sum_hits_bounds entityTokens entityId l) as Hb. split.
    + intros Hz t [<-|Hin].
      * unfold token_hits at 1 in Hz.
        destruct (mem_string token entityTokens), (includes entityId token);
          first [split; reflexivity | exfalso; lia].
      * apply IH; [|assumption]. unfold token_hits at 1 in Hz.
        destruct (mem_string token entityTokens), (includes entityId token); lia.
    + intros Hall. destruct (Hall token (or_introl eq_refl)) as [H1 H2].
      unfold token_hits at 1. rewrite H1, H2. simpl. apply IH.
      intros t Ht. apply Hall. now right.
Qed.

(** X7. [scoreMatch] adds, for each query token, 3 if the token is one
    of the entity's name tokens and 1 if it occurs in the entity id: the
    score lies between 0 and 4 per token, and it is 0 exactly when no
    token is a name token or occurs in the id. *)
Theorem scoreMatch_bounds (queryTokens entityTokens : list string) (entityId : string) :
  0 <= scoreMatch queryTokens entityTokens entityId
    <= 4 * Z.of_nat (List.length queryTokens)
  /\ (scoreMatch queryTokens entityTokens entityId = 0 <->
      forall token, List.In token queryTokens ->
        mem_string token entityTokens = false /\ includes entityId token = false).
Proof.
  rewrite scoreMatch_sum. split; [apply sum_hits_bounds | apply sum_hits_zero].
Qed.

(** The candidates are the entities of the domains with a positive score. *)
Lemma resolve_candidates_in c domains search r :
  List.In r (resolve_candidates c domains search) <->
  exists domain entity,
    List.In domain domains /\ List.In entity (entities_of c domain)
    /\ r = (e_entity_id entity, resolve_score search entity)
    /\ 0 < resolve_score search entity.
Proof.
  unfold resolve_candidates. rewrite List.in_concat. split.
  - intros (l & Hl & Hr). apply List.in_map_iff in Hl as (domain & <- & Hd).
    apply List.filter_In in Hr as [Hr Hpos]. apply List.in_map_iff in Hr as (entity & <- & He).
    exists domain, entity. simpl in Hpos. apply Z.gtb_lt in Hpos. auto with zarith.
  - intros (domain & entity & Hd & He & -> & Hpos). eexists. split.
    + apply List.in_map_iff. exists domain. split; [reflexivity | assumption].
    + apply List.filter_In. split.
      * apply List.in_map_iff. exists entity. auto.
      * simpl. apply Z.gtb_lt. lia.
Qed.

(** The head of the sorted candidates is a candidate no other exceeds. *)
Lemma sort_desc_head {A} (l : list (A * Z)) best rest :
  sort_desc l = best :: rest ->
  List.In best l /\ forall r, List.In r l -> snd r <= snd best.
Proof.
  intros Hs. pose proof (sort_desc_perm l) as Hp. pose proof (sort_desc_sorted l) as Hd.
  rewrite Hs in Hp, Hd. split.
  - apply (Permutation_in _ Hp). now left.
  - intros r Hr. apply (Permutation_in _ (Permutation_sym Hp)) in Hr as [<-|Hr]; [lia|].
    unfold descending in Hd. apply StronglySorted_inv in Hd as [_ Hall].
    rewrite Forall_forall in Hall. apply Hall. now apply list_elem_of_In.
Qed.

Lemma sort_desc_nil {A} (l : list (A * Z)) : sort_desc l = [] -> l = [].
Proof.
  intros Hs. pose proof (sort_desc_perm l) as Hp. rewrite Hs in Hp.
  now apply Permutation_nil.
Qed.

(** What the resolver returns, on the snapshot. *)
Lemma resolve_best c domains search minScore :
  domains <> [] -> truthy search = true ->
  match resolveEntityId_in c domains search minScore with
  | Some id =>
      exists domain entity,
        List.In domain domains /\ List.In entity (entities_of c domain)
        /\ e_entity_id entity = id
        /\ minScore <= resolve_score search entity
        /\ 0 < resolve_score search entity
        /\ forall domain' entity',
             List.In domain' domains -> List.In entity' (entities_of c domain') ->
             resolve_score search entity' <= resolve_score search entity
  | None =>
      forall domain entity,
        List.In domain domains -> List.In entity (entities_of c domain) ->
        resolve_score search entity <= 0 \/ resolve_score search entity < minScore
  end.
Proof.
  intros Hd Hs. unfold resolveEntityId_in. destruct domains as [|d0 ds]; [contradiction|].
  rewrite Hs. simpl negb. cbv iota.
  destruct (sort_desc (resolve_candidates c (d0 :: ds) search)) as [|best rest] eqn:Hsort.
  - apply sort_desc_nil in Hsort. intros domain entity Hdom Hent.
    destruct (Z.lt_ge_cases 0 (resolve_score search entity)) as [Hpos|Hle]; [|left; lia].
    exfalso. assert (Hin : List.In (e_entity_id entity, resolve_score search entity)
                             (resolve_candidates c (d0 :: ds) search))
      by (apply resolve_candidates_in; eauto 10).
    rewrite Hsort in Hin. destruct Hin.
  - apply sort_desc_head in Hsort as [Hin Hmax].
    apply resolve_candidates_in in Hin as (domain & entity & Hdom & Hent & -> & Hpos).
    simpl snd in *. simpl fst.
    assert (Hall : forall domain' entity',
               List.In domain' (d0 :: ds) -> List.In entity' (entities_of c domain') ->
               resolve_score search entity' <= resolve_score search entity).
    { intros domain' entity' Hdom' Hent'.
      destruct (Z.lt_ge_cases 0 (resolve_score search entity')) as [Hpos'|Hle]; [|lia].
      apply (Hmax (e_entity_id entity', resolve_score search entity')).
      apply resolve_candidates_in. eauto 10. }
    destruct (resolve_score search entity <? minScore) eqn:Hlt.
    + apply Z.ltb_lt in Hlt. intros domain' entity' Hdom' Hent'. right.
      specialize (Hall domain' entity' Hdom' Hent'). lia.
    + apply Z.ltb_ge in Hlt. exists domain, entity. split_and!; auto.
Qed.

(** X8. When the resolver returns an id, it is the id of an entity of
    one of the given domains whose score is positive, at least [minScore],
    and not exceeded by any entity of those domains; when it returns
    nothing although domains and a search were given, no entity of those
    domains has a positive score of at least [minScore]. *)
Theorem resolve_entity_best (c : Client) (domains : list string) (search : string)
    (minScore : Z) :
  domains <> [] -> truthy search = true ->
  (forall id, resolveEntityId_in c domains search minScore = Some id ->
     exists domain entity,
       List.In domain domains /\ List.In entity (entities_of c domain)
       /\ e_entity_id entity = id
       /\ minScore <= resolve_score search entity
       /\ 0 < resolve_score search entity
       /\ forall domain' entity',
            List.In domain' domains -> List.In entity' (entities_of c domain') ->
            resolve_score search entity' <= resolve_score search entity)
  /\ (resolveEntityId_in c domains search minScore = None ->
      forall domain entity,
        List.In domain domains -> List.In entity (entities_of c domain) ->
        resolve_score search entity <= 0 \/ resolve_score search entity < minScore).
Proof.
  intros Hd Hs. pose proof (resolve_best c domains search minScore Hd Hs) as Hbest.
  split.
  - intros id Hid. now rewrite Hid in Hbest.
  - intros Hnone. now rewrite Hnone in Hbest.
Qed.

Lemma phrase_bonus_bounds name search : 0 <= phrase_bonus name search <= 2.
Proof. unfold phrase_bonus. destruct (includes _ _); lia. Qed.

(** X9. A search of at most two words never resolves to an entity whose
    state is unknown or unavailable: its score is at most 4 per word plus
    2, and the penalty of 10 leaves nothing positive. *)
Theorem resolve_short_search_reachable (c : Client) (domains : list string)
    (search : string) (minScore : Z) (id : string) :
  (List.length (tokenize search) <= 2)%nat ->
  resolveEntityId_in c domains search minScore = Some id ->
  exists domain entity,
    List.In domain domains /\ List.In entity (entities_of c domain)
    /\ e_entity_id entity = id /\ unreachable entity = false.
Proof.
  intros Hshort Hid.
  assert (Hd : domains <> []) by (intros ->; discriminate).
  assert (Hs : truthy search = true).
  { unfold resolveEntityId_in in Hid. destruct domains; [discriminate|].
    destruct (truthy search); [reflexivity | discriminate]. }
  pose proof (resolve_best c domains search minScore Hd Hs) as Hbest.
  rewrite Hid in Hbest.
  destruct Hbest as (domain & entity & Hdom & Hent & Heq & _ & Hpos & _).
  exists domain, entity. split_and!; try assumption.
  destruct (unreachable entity) eqn:Hu; [|reflexivity]. exfalso.
  rewrite resolve_score_find_score, Hu in Hpos. unfold find_score in Hpos.
  pose proof (sum_hits_bounds (e_tokens entity) (e_entity_id entity) (tokenize search)).
  pose proof (phrase_bonus_bounds (e_name entity) search).
  rewrite scoreMatch_sum in Hpos. lia.
Qed.

End DirectoryMore.

Section IndexMore.
Import JS HomeAssistant.

Definition domain_of (s : State) : string := split_dot_first (entity_id s).

Definition in_domain_of (domain : string) (s : State) : bool :=
  String.eqb (domain_of s) domain.

Lemma find_append {A} (p : A -> bool) l l' :
  List.find p (l ++ l') =
  match List.find p l with Some x => Some x | None => List.find p l' end.
Proof.
  induction l as [|x l IH]; [reflexivity|]. simpl. now destruct (p x).
Qed.

Lemma by_entity_id_fold states : forall (m : gmap string State) id,
  List.fold_left (fun m s => <[entity_id s := s]> m) states m !! id =
  match List.find (fun s => String.eqb id (entity_id s)) (List.rev states) with
  | Some s => Some s
  | None => m !! id
  end.
Proof.
  induction states as [|s states IH]; intros m id; [reflexivity|].
  simpl. rewrite IH, find_append.
  destruct (List.find _ (List.rev states)); [reflexivity|]. simpl.
  destruct (String.eqb_spec id (entity_id s)) as [->|Hne].
  - apply lookup_insert_eq.
  - apply lookup_insert_ne. congruence.
Qed.

Lemma by_domain_fold states : forall (m : gmap string (list Entity)) domain,
  List.fold_left
    (fun nextByDomain s =>
       let domain := split_dot_first (entity_id s) in
       let list := match nextByDomain !! domain with Some l => l | None => [] end in
       <[domain := list ++ [to_entity s]]> nextByDomain)
    states m !! domain =
  match List.filter (in_domain_of domain) states with
  | [] => m !! domain
  | added => Some (match m !! domain with Some l => l | None => [] end
                   ++ List.map to_entity added)
  end.
Proof.
  induction states as [|s states IH]; intros m domain; [reflexivity|].
  simpl List.fold_left. rewrite IH. simpl List.filter. unfold in_domain_of at 2, domain_of.
  destruct (String.eqb_spec (split_dot_first (entity_id s)) domain) as [->|Hne].
  - rewrite lookup_insert_eq.
    destruct (List.filter (in_domain_of domain) states) as [|x l].
    + reflexivity.
    + simpl. now rewrite <- List.app_assoc.
  - rewrite lookup_insert_ne by assumption. reflexivity.
Qed.

Lemma entities_of_index states c domain :
  entities_of (indexStates states c) domain =
  List.map to_entity (List.filter (in_domain_of domain) states).
Proof.
  unfold entities_of, indexStates, by_domain. simpl. rewrite by_domain_fold.
  rewrite lookup_empty. now destruct (List.filter _ states).
Qed.

Lemma find_some_iff {A} (p : A -> bool) l : is_Some (List.find p l) <-> exists x, List.In x l /\ p x = true.
Proof.
  split.
  - intros [x Hx]. apply List.find_some in Hx. eauto.
  - intros (x & Hin & Hp). destruct (List.find p l) eqn:E; [eauto|].
    rewrite (List.find_none _ _ E x Hin) in Hp. discriminate.
Qed.

(** X10. [indexStates] rebuilds both maps from the same list: an id
    maps to the last state reported under it; a domain maps to the
    entities whose id starts with it, in the hub's order; and an id is
    known to the first map exactly when the second lists an entity with
    that id under the id's domain. *)
Theorem index_states_directory (states : list State) (c : Client) (id domain : string) :
  statesByEntityId (indexStates states c) !! id =
    List.find (fun s => String.eqb id (entity_id s)) (List.rev states)
  /\ entities_of (indexStates states c) domain =
     List.map to_entity (List.filter (in_domain_of domain) states)
  /\ (is_Some (statesByEntityId (indexStates states c) !! id) <->
      exists entity,
        List.In entity (entities_of (indexStates states c) (split_dot_first id))
        /\ e_entity_id entity = id).
Proof.
  assert (Hfind : statesByEntityId (indexStates states c) !! id =
                  List.find (fun s => String.eqb id (entity_id s)) (List.rev states)).
  { unfold indexStates, by_entity_id. simpl. rewrite by_entity_id_fold, lookup_empty.
    now destruct (List.find _ _). }
  split_and!; [exact Hfind | apply entities_of_index |].
  rewrite Hfind, entities_of_index, find_some_iff. split.
  - intros (s & Hin & Hs). apply String.eqb_eq in Hs. subst id.
    exists (to_entity s). split; [|reflexivity].
    apply List.in_map, List.filter_In. split; [now apply List.in_rev|].
    unfold in_domain_of, domain_of. apply String.eqb_refl.
  - intros (entity & Hin & Hid). apply List.in_map_iff in Hin as (s & <- & Hin).
    apply List.filter_In in Hin as [Hin _]. exists s. split; [now apply List.in_rev in Hin|].
    simpl in Hid. rewrite Hid. apply String.eqb_refl.
Qed.

(** X11. [findEntities], with or without a search, returns at most 50
    entries, and each describes a state the hub reported in the requested
    domain: its id, its display name and its state. *)
Theorem find_entities_of_domain (states : list State) (c : Client) (domain : string)
    (search : option string) (v : EntityView) :
  (List.length (findEntities_in (indexStates states c) domain search) <= 50)%nat
  /\ (List.In v (findEntities_in (indexStates states c) domain search) ->
      exists s, List.In s states /\ domain_of s = domain
                /\ v_entity_id v = entity_id s
                /\ v_name v = display_name s
                /\ v_state v = state s).
Proof.
  assert (Hview : forall e, List.In e (entities_of (indexStates states c) domain) ->
            exists s, List.In s states /\ domain_of s = domain
                      /\ v_entity_id (view e) = entity_id s
                      /\ v_name (view e) = display_name s
                      /\ v_state (view e) = state s).
  { intros e He. rewrite entities_of_index in He.
    apply List.in_map_iff in He as (s & <- & Hs). apply List.filter_In in Hs as [Hs Hd].
    exists s. unfold in_domain_of in Hd. apply String.eqb_eq in Hd. auto. }
  unfold findEntities_in. destruct (negb (truthy_opt search)).
  - split; [rewrite List.length_map, List.length_firstn; lia|].
    intros Hin. apply List.in_map_iff in Hin as (e & <- & He).
    apply Hview. apply list_elem_of_In. apply (subseteq_take 50).
    now apply list_elem_of_In.
  - split; [rewrite List.length_map, List.length_firstn; lia|].
    intros Hin. apply List.in_map_iff in Hin as (r & <- & Hr).
    apply Hview. apply list_elem_of_In in Hr. apply (subseteq_take 50) in Hr.
    apply list_elem_of_In in Hr. unfold find_scored in Hr.
    apply (Permutation_in _ (sort_desc_perm _)) in Hr.
    apply List.filter_In in Hr as [Hr _]. apply List.in_map_iff in Hr as (e & <- & He).
    exact He.
Qed.

End IndexMore.

(* ===================================================================== *)
(** * More on the client's calls *)
(* ===================================================================== *)

Section ClientMore.
Import JS HomeAssistant.
Context {H : Type} `{Hub H}.

(** The snapshot part of the client. *)
Definition snapshot (c : Client) : gmap string State * gmap string (list Entity) * Z :=
  (statesByEntityId c, entitiesByDomain c, lastStatesRefreshAt c).

Lemma refresh_idle (force : bool) (w w' : World H) (out : Outcome unit) :
  refreshInFlight (client w) = None ->
  refreshStates force w = (out, w') ->
  refreshInFlight (client w') = None
  /\ (forall p, out <> Suspended p)
  /\ (force = false -> fresh (client w) (now (hub w)) = true ->
      out = Returned tt /\ w' = w)
  /\ (force = true \/ fresh (client w) (now (hub w)) = false ->
      requests w' = requests w ++ [GetStates]
      /\ hub w' = snd (get_states (hub w))
      /\ match fst (get_states (hub w)) with
         | Ok _ states =>
             out = Returned tt
             /\ snapshot (client w') = (by_entity_id states, by_domain states, now (hub w'))
         | NotOk status _ =>
             out = Threw (EFetchStates status) /\ snapshot (client w') = snapshot (client w)
         | Rejected why =>
             out = Threw (ERejected why) /\ snapshot (client w') = snapshot (client w)
         end).
Proof.
  intros Hidle. unfold refreshStates, refresh_enter, fresh. rewrite Hidle.
  destruct (negb force && negb (now (hub w) - lastStatesRefreshAt (client w)
                                >? statesTtlMs (client w))) eqn:Hquick.
  - intros [= <- <-]. split_and!; [assumption | discriminate | auto |].
    apply andb_prop in Hquick as [Hf Hfresh]. intros [->|Hstale]; [discriminate|].
    rewrite Hstale in Hfresh. discriminate.
  - destruct (get_states (hub w)) as [answer h] eqn:Hget.
    destruct (refresh_body answer (now h) _) as [out' c2] eqn:Hbody.
    intros [= <- <-]. simpl.
    split_and!; [reflexivity | | |].
    + intros p. destruct answer as [why|status text|status states]; simpl in Hbody;
        injection Hbody as <- <-; discriminate.
    + intros -> Hfresh. simpl in Hquick. rewrite Hfresh in Hquick. discriminate.
    + intros _. split_and!; [reflexivity | reflexivity |].
      destruct answer as [why|status text|status states]; simpl in Hbody;
        injection Hbody as <- <-; split; reflexivity.
Qed.

(** X12. A [refreshStates] on a client with no refresh in flight never
    stays suspended and leaves the guard empty. When it is not forced and
    the snapshot is fresh it changes nothing and sends nothing. Otherwise
    it sends one inventory request: on an ok answer both maps are rebuilt
    from the answer and the refresh time is the clock after the fetch; on
    any other outcome the call throws and the snapshot is the one before. *)
Theorem refresh_states_idle (force : bool) (w w' : World H) (out : Outcome unit) :
  refreshInFlight (client w) = None ->
  refreshStates force w = (out, w') ->
  refreshInFlight (client w') = None
  /\ (forall p, out <> Suspended p)
  /\ (force = false -> fresh (client w) (now (hub w)) = true ->
      out = Returned tt /\ w' = w)
  /\ (force = true \/ fresh (client w) (now (hub w)) = false ->
      requests w' = requests w ++ [GetStates]
      /\ hub w' = snd (get_states (hub w))
      /\ match fst (get_states (hub w)) with
         | Ok _ states =>
             out = Returned tt
             /\ snapshot (client w') = (by_entity_id states, by_domain states, now (hub w'))
         | NotOk status _ =>
             out = Threw (EFetchStates status) /\ snapshot (client w') = snapshot (client w)
         | Rejected why =>
             out = Threw (ERejected why) /\ snapshot (client w') = snapshot (client w)
         end).
Proof. apply refresh_idle. Qed.

Lemma ensure_known_returned id (w w1 : World H) :
  ensure_known id w = (Returned tt, w1) -> is_Some (statesByEntityId (client w1) !! id).
Proof.
  unfold ensure_known, ensureStatesFresh, known, bind, read_client, ret, throw.
  destruct (refreshStates false w) as [[[]|e|p] w1'] eqn:H1; try discriminate.
  destruct (bool_decide (is_Some (statesByEntityId (client w1') !! id))) eqn:B1.
  - intros [= <-]. now apply bool_decide_eq_true_1 in B1.
  - destruct (refreshStates true w1') as [[[]|e|p] w2'] eqn:H2; try discriminate.
    destruct (bool_decide (is_Some (statesByEntityId (client w2') !! id))) eqn:B2;
      [|discriminate].
    intros [= <-]. now apply bool_decide_eq_true_1 in B2.
Qed.

Lemma obj_get_assign_eq key value o : obj_get key (obj_assign key value o) = Some value.
Proof.
  unfold obj_get. induction o as [|[k v] o IH]; simpl.
  - now rewrite String.eqb_refl.
  - destruct (String.eqb k key) eqn:Hk; simpl.
    + now rewrite String.eqb_refl.
    + rewrite Hk. exact IH.
Qed.

Lemma obj_get_assign_ne key key' value o :
  key' <> key -> obj_get key' (obj_assign key value o) = obj_get key' o.
Proof.
  intros Hne. unfold obj_get. induction o as [|[k v] o IH]; simpl.
  - apply String.eqb_neq in Hne. rewrite String.eqb_sym in Hne. now rewrite Hne.
  - destruct (String.eqb k key) eqn:Hk; simpl.
    + apply String.eqb_eq in Hk. subst k.
      assert (Hkk : String.eqb key key' = false)
        by (apply String.eqb_neq; congruence).
      now rewrite Hkk.
    + destruct (String.eqb k key'); [reflexivity | exact IH].
Qed.

Lemma obj_assign_keys key value o k :
  List.In k (List.map fst (obj_assign key value o)) <->
  k = key \/ List.In k (List.map fst o).
Proof.
  induction o as [|[k0 v0] o IH]; simpl.
  - intuition.
  - destruct (String.eqb_spec k0 key) as [->|Hne]; simpl; [intuition|].
    rewrite IH. intuition.
Qed.

Lemma obj_assign_distinct key value o :
  List.NoDup (List.map fst o) -> List.NoDup (List.map fst (obj_assign key value o)).
Proof.
  induction o as [|[k0 v0] o IH]; simpl; intros Hnd.
  - constructor; [intros [] | constructor].
  - inversion Hnd as [|? ? Hnot Hnd']; subst.
    destruct (String.eqb_spec k0 key) as [->|Hne]; simpl; [now constructor|].
    constructor; [|now apply IH].
    rewrite obj_assign_keys. intros [->|Hin]; [now apply Hne | now apply Hnot].
Qed.

Lemma obj_spread_distinct source : forall o,
  List.NoDup (List.map fst o) -> List.NoDup (List.map fst (obj_spread source o)).
Proof.
  unfold obj_spread. induction source as [|[k v] source IH]; intros o Hnd; simpl;
    [assumption|]. apply IH. now apply obj_assign_distinct.
Qed.

Lemma obj_get_snoc key o k v :
  obj_get key (o ++ [(k, v)]) =
  match obj_get key o with
  | Some found => Some found
  | None => if String.eqb k key then Some v else None
  end.
Proof.
  unfold obj_get. induction o as [|[k0 v0] o IH]; simpl.
  - now destruct (String.eqb k key).
  - destruct (String.eqb k0 key); [reflexivity | exact IH].
Qed.

(** A property of [{ ...o, ...source }] is the last one [source] gives
    for the key, and that of [o] when [source] has none. *)
Lemma obj_get_spread source : forall o key,
  obj_get key (obj_spread source o) =
  match obj_get key (List.rev source) with
  | Some v => Some v
  | None => obj_get key o
  end.
Proof.
  unfold obj_spread. induction source as [|[k v] source IH]; intros o key; simpl;
    [reflexivity|].
  rewrite IH, obj_get_snoc. destruct (obj_get key (List.rev source)); [reflexivity|].
  destruct (String.eqb_spec k key) as [->|Hne].
  - apply obj_get_assign_eq.
  - apply obj_get_assign_ne. congruence.
Qed.

(** The payload [callService] sends: no key twice; the target's entity
    id and area id, when truthy, under their keys; and for every other
    key what [data] gives last. *)
Lemma service_data_spec (input : ToolInput) :
  List.NoDup (List.map fst (service_data input))
  /\ (truthy_opt (target_id input) = true ->
      obj_get "entity_id" (service_data input) = target_id input)
  /\ (truthy_opt (target_area input) = true ->
      obj_get "area_id" (service_data input) = target_area input)
  /\ (forall key,
        (key = "entity_id"%string -> truthy_opt (target_id input) = false) ->
        (key = "area_id"%string -> truthy_opt (target_area input) = false) ->
        obj_get key (service_data input) =
        obj_get key (List.rev (default [] (in_data input)))).
Proof.
  unfold service_data.
  set (fromData := obj_spread (default [] (in_data input)) []).
  assert (Hdata : forall key,
            obj_get key fromData = obj_get key (List.rev (default [] (in_data input)))).
  { intros key. unfold fromData. rewrite obj_get_spread.
    now destruct (obj_get key (List.rev (default [] (in_data input)))). }
  assert (Hnd : List.NoDup (List.map fst fromData))
    by (apply obj_spread_distinct; constructor).
  destruct (target_id input) as [id|] eqn:Hid; simpl;
    [destruct (truthy id) eqn:Htid|];
    (destruct (target_area input) as [area|] eqn:Harea; simpl;
     [destruct (truthy area) eqn:Htarea|]);
    unfold obj_spread; simpl;
    (split_and!;
     [ repeat apply obj_assign_distinct; exact Hnd
     | try discriminate; intros _;
       first [ rewrite obj_get_assign_ne by discriminate; apply obj_get_assign_eq
             | apply obj_get_assign_eq ]
     | try discriminate; intros _; apply obj_get_assign_eq
     | intros key Hentity Harea';
       repeat (rewrite obj_get_assign_ne;
               [|intros ->; first [specialize (Hentity eq_refl) | specialize (Harea' eq_refl)];
                 discriminate]);
       apply Hdata ]).
Qed.

(** X13. [callService] submits at most one control request, and only a
    valid one: when a request is submitted, the domain and the service are
    non-empty, a target entity id, if one is given, is in the snapshot, and
    the request is the last one sent, for that domain and service with the
    merged payload. The call returns only after submitting it, with the
    success record. The merged payload has no key twice: it holds the
    target's entity id and area id, when truthy, under [entity_id] and
    [area_id] whatever [data] says for them, and for every other key the
    value of [data]. *)
Theorem call_service_submits_valid (input : ToolInput) (w w' : World H)
    (out : Outcome ToolValue) :
  callService input w = (out, w') ->
  let domain := default ""%string (in_domain input) in
  let service := default ""%string (in_service input) in
  let post := PostService domain service (service_data input) in
  (control_requests w' = control_requests w
   \/ (control_requests w' = control_requests w ++ [post]
       /\ last (requests w') = Some post
       /\ truthy domain = true /\ truthy service = true
       /\ forall id, target_id input = Some id -> truthy id = true ->
            is_Some (statesByEntityId (client w') !! id)))
  /\ (forall v, out = Returned v ->
        v = VCalled true ("Called " ++ domain ++ "." ++ service)%string
        /\ control_requests w' = control_requests w ++ [post])
  /\ (List.NoDup (List.map fst (service_data input))
      /\ (truthy_opt (target_id input) = true ->
          obj_get "entity_id" (service_data input) = target_id input)
      /\ (truthy_opt (target_area input) = true ->
          obj_get "area_id" (service_data input) = target_area input)
      /\ (forall key,
            (key = "entity_id"%string -> truthy_opt (target_id input) = false) ->
            (key = "area_id"%string -> truthy_opt (target_area input) = false) ->
            obj_get key (service_data input) =
            obj_get key (List.rev (default [] (in_data input))))).
Proof.
  intros Hcall domain service post.
  rewrite (and_assoc _ _ (List.NoDup _ /\ _)). split; [|apply service_data_spec].
  unfold callService in Hcall.
  destruct (truthy_opt (in_domain input)) eqn:Hd; simpl in Hcall;
    [|injection Hcall as <- <-; split; [now left | discriminate]].
  destruct (truthy_opt (in_service input)) eqn:Hs; simpl in Hcall;
    [|injection Hcall as <- <-; split; [now left | discriminate]].
  assert (Htd : truthy domain = true)
    by (unfold domain; destruct (in_domain input); [exact Hd | discriminate]).
  assert (Hts : truthy service = true)
    by (unfold service; destruct (in_service input); [exact Hs | discriminate]).
  unfold bind at 1 in Hcall.
  set (guard := if truthy_opt (target_id input)
                then ensure_known (default ""%string (target_id input)) else ret tt) in Hcall.
  destruct (guard w) as [[[]|e|p] w1] eqn:Hguard.
  - assert (Hc1 : control_requests w1 = control_requests w).
    { unfold guard in Hguard. destruct (truthy_opt (target_id input)).
      - exact (ensure_known_requests _ _ _ _ Hguard).
      - now injection Hguard as <-. }
    assert (Hknown : forall id, target_id input = Some id -> truthy id = true ->
                       is_Some (statesByEntityId (client w1) !! id)).
    { intros id Hid Hty. unfold guard in Hguard. rewrite Hid in Hguard. simpl in Hguard.
      rewrite Hty in Hguard. now apply ensure_known_returned in Hguard. }
    unfold bind, fetch_service in Hcall. fold domain service in Hcall.
    destruct (post_service domain service (service_data input) (hub w1)) as [answer h].
    assert (Hposted : forall out0,
              (out0, mkWorld (client w1) h (requests w1 ++ [post])) = (out, w') ->
              control_requests w' = control_requests w ++ [post]
              /\ last (requests w') = Some post
              /\ truthy domain = true /\ truthy service = true
              /\ forall id, target_id input = Some id -> truthy id = true ->
                   is_Some (statesByEntityId (client w') !! id)).
    { intros out0 [= _ <-]. unfold control_requests in *. simpl.
      rewrite List.filter_app, Hc1. simpl. split_and!; auto. apply last_snoc. }
    destruct answer as [why|status text|status body]; simpl in Hcall.
    + split; [right; now apply (Hposted _ Hcall)|]. injection Hcall as <- _. discriminate.
    + split; [right; now apply (Hposted _ Hcall)|]. injection Hcall as <- _. discriminate.
    + split; [right; now apply (Hposted _ Hcall)|].
      intros v Hv. split; [|now apply (Hposted _ Hcall)].
      injection Hcall as <- _. now injection Hv as <-.
  - injection Hcall as <- <-. split; [left|discriminate].
    unfold guard in Hguard. destruct (truthy_opt (target_id input)).
    + exact (ensure_known_requests _ _ _ _ Hguard).
    + discriminate.
  - injection Hcall as <- <-. split; [left|discriminate].
    unfold guard in Hguard. destruct (truthy_opt (target_id input)).
    + exact (ensure_known_requests _ _ _ _ Hguard).
    + discriminate.
Qed.

Lemma findEntities_requests input (w w' : World H) out :
  findEntities input w = (out, w') -> control_requests w' = control_requests w.
Proof.
  unfold findEntities. destruct (negb (truthy_opt (in_domain input))).
  - now intros [= <- <-].
  - unfold ensureStatesFresh, bind, read_client, ret.
    destruct (refreshStates false w) as [[[]|e|p] w1] eqn:H1; intros [= <- <-];
      exact (proj2 (refreshStates_requests _ _ _ _ H1)).
Qed.

(** How [getEntityState] comes by its answer. *)
Lemma getEntityState_cases id (w w' : World H) out :
  truthy id = true ->
  getEntityState (Some id) w = (out, w') ->
  control_requests w' = control_requests w
  /\ (forall id', List.In (GetState id') (requests w') ->
        List.In (GetState id') (requests w)
        \/ (id' = id /\ statesByEntityId (client w') !! id = None))
  /\ (forall s, out = Returned s ->
        statesByEntityId (client w') !! id = Some s
        \/ (statesByEntityId (client w') !! id = None
            /\ last (requests w') = Some (GetState id))).
Proof.
  intros Hid. unfold getEntityState. simpl. rewrite Hid. simpl.
  unfold ensureStatesFresh, bind, read_client, ret, throw, fetch_state.
  assert (Hkeep : forall force (x x' : World H) o id',
            refreshStates force x = (o, x') ->
            List.In (GetState id') (requests x') -> List.In (GetState id') (requests x)).
  { intros force x x' o id' Hr Hin.
    destruct (proj1 (refreshStates_requests _ _ _ _ Hr)) as [E|E]; rewrite E in Hin;
      [assumption|]. apply List.in_app_or in Hin as [Hin|[Hin|[]]]; [assumption | discriminate]. }
  destruct (refreshStates false w) as [[[]|e|p] w1] eqn:H1.
  2,3: intros [= <- <-]; split_and!;
    [exact (proj2 (refreshStates_requests _ _ _ _ H1)) | eauto | discriminate].
  pose proof (proj2 (refreshStates_requests _ _ _ _ H1)) as C1.
  destruct (statesByEntityId (client w1) !! id) as [cached|] eqn:L1.
  { intros [= <- <-]. split_and!; [assumption | eauto |]. intros s [= <-]. now left. }
  destruct (refreshStates true w1) as [[[]|e|p] w2] eqn:H2.
  2,3: intros [= <- <-]; split_and!;
    [rewrite <- C1; exact (proj2 (refreshStates_requests _ _ _ _ H2)) | eauto | discriminate].
  pose proof (proj2 (refreshStates_requests _ _ _ _ H2)) as C2.
  destruct (statesByEntityId (client w2) !! id) as [cachedAfter|] eqn:L2.
  { intros [= <- <-]. split_and!; [congruence | eauto |]. intros s [= <-]. now left. }
  destruct (get_state id (hub w2)) as [answer h].
  assert (Hend : forall o, (o, mkWorld (client w2) h (requests w2 ++ [GetState id])) = (out, w') ->
            control_requests w' = control_requests w
            /\ (forall id', List.In (GetState id') (requests w') ->
                  List.In (GetState id') (requests w)
                  \/ (id' = id /\ statesByEntityId (client w') !! id = None))
            /\ statesByEntityId (client w') !! id = None
            /\ last (requests w') = Some (GetState id)).
  { intros o [= _ <-]. unfold control_requests in *. simpl.
    rewrite List.filter_app. simpl. rewrite List.app_nil_r.
    split_and!; [congruence | | assumption | apply last_snoc].
    intros id' Hin. apply List.in_app_or in Hin as [Hin|[[= <-]|[]]]; [left; eauto | now right]. }
  destruct answer as [why|status text|status s0]; intros Hres;
    destruct (Hend _ Hres) as (Hc & Hl & Hn & Hlast);
    (split_and!; [assumption | assumption |]).
  - injection Hres as <- _. discriminate.
  - injection Hres as <- _. discriminate.
  - intros s Hs. right. auto.
Qed.

(** X14. The point lookup for a single entity is the last resort of
    [getEntityState]: it sends one only for the id asked for, and only
    when the snapshot still lacks that id after the forced refresh. A state
    it returns is the snapshot's entry for the id, or else the state in the
    hub's ok answer to that lookup, which was sent after a freshness check
    and a forced refresh that both returned and left the snapshot without
    the id; the lookup changes nothing in the client. When the call fails
    with the lookup's status, that is the status of the hub's answer to
    the lookup. *)
Theorem get_entity_state_source (id : string) (w w' : World H) (out : Outcome State) :
  truthy id = true ->
  getEntityState (Some id) w = (out, w') ->
  (forall id', List.In (GetState id') (requests w') ->
     List.In (GetState id') (requests w)
     \/ (id' = id /\ statesByEntityId (client w') !! id = None))
  /\ (forall s, out = Returned s ->
        statesByEntityId (client w') !! id = Some s
        \/ exists w1 w2 status,
             refreshStates false w = (Returned tt, w1)
             /\ refreshStates true w1 = (Returned tt, w2)
             /\ statesByEntityId (client w2) !! id = None
             /\ get_state id (hub w2) = (Ok status s, hub w')
             /\ client w' = client w2
             /\ requests w' = requests w2 ++ [GetState id])
  /\ (forall status, out = Threw (EGetState status) ->
        exists w1 w2 text,
          refreshStates false w = (Returned tt, w1)
          /\ refreshStates true w1 = (Returned tt, w2)
          /\ statesByEntityId (client w2) !! id = None
          /\ get_state id (hub w2) = (NotOk status text, hub w')
          /\ client w' = client w2
          /\ requests w' = requests w2 ++ [GetState id]).
Proof.
  intros Hid Hget.
  destruct (getEntityState_cases id w w' out Hid Hget) as (_ & Hlookups & _).
  split; [exact Hlookups|]. revert Hget.
  unfold getEntityState. simpl. rewrite Hid. simpl.
  unfold ensureStatesFresh, bind, read_client, ret, throw, fetch_state.
  destruct (refreshStates false w) as [[[]|e|p] w1] eqn:H1.
  2:{ intros [= <- <-]. split; [discriminate|]. intros status [= ->].
      unfold refreshStates in H1.
      destruct (refresh_enter _ _ _ _) as [[| q | q] c1]; try discriminate.
      destruct (get_states (hub w)) as [answer h].
      unfold refresh_body in H1. destruct answer; discriminate. }
  2:{ intros [= <- <-]. split; discriminate. }
  destruct (statesByEntityId (client w1) !! id) as [cached|] eqn:L1.
  { intros [= <- <-]. split; [|discriminate]. intros s [= <-]. now left. }
  destruct (refreshStates true w1) as [[[]|e|p] w2] eqn:H2.
  2:{ intros [= <- <-]. split; [discriminate|]. intros status [= ->].
      unfold refreshStates in H2.
      destruct (refresh_enter _ _ _ _) as [[| q | q] c1]; try discriminate.
      destruct (get_states (hub w1)) as [answer h].
      unfold refresh_body in H2. destruct answer; discriminate. }
  2:{ intros [= <- <-]. split; discriminate. }
  destruct (statesByEntityId (client w2) !! id) as [cachedAfter|] eqn:L2.
  { intros [= <- <-]. split; [|discriminate]. intros s [= <-]. now left. }
  destruct (get_state id (hub w2)) as [answer h] eqn:Hanswer.
  destruct answer as [why|status text|status s0]; intros [= <- <-]; simpl.
  - split; discriminate.
  - split; [discriminate|]. intros status' [= <-].
    exists w1, w2, text. split_and!; auto.
  - split; [|discriminate]. intros s [= <-]. right.
    exists w1, w2, status. split_and!; auto.
Qed.

Lemma getEntityState_requests oid (w w' : World H) out :
  getEntityState oid w = (out, w') -> control_requests w' = control_requests w.
Proof.
  destruct oid as [id|]; [destruct (truthy id) eqn:Hid|].
  - intros Hg. exact (proj1 (getEntityState_cases id w w' out Hid Hg)).
  - unfold getEntityState. simpl. rewrite Hid. now intros [= <- <-].
  - unfold getEntityState. simpl. now intros [= <- <-].
Qed.

(** X15. Only the call_service tool reaches the hub's control endpoint:
    whatever [executeTool] is asked under another name, also an unknown
    one, it submits no control request. *)
Theorem execute_tool_no_control (toolName : string) (input : option ToolInput)
    (w w' : World H) (out : Outcome ToolValue) :
  toolName <> "call_service"%string ->
  executeTool toolName input w = (out, w') ->
  control_requests w' = control_requests w.
Proof.
  intros Hname. unfold executeTool.
  destruct (String.eqb toolName "find_entities").
  { unfold bind, ret. destruct (findEntities _ w) as [[l|e|p] w1] eqn:Hf;
      intros [= <- <-]; exact (findEntities_requests _ _ _ _ Hf). }
  destruct (String.eqb toolName "get_entity_state").
  { destruct input as [i|]; [|now intros [= <- <-]].
    unfold bind, ret.
    destruct (getEntityState (in_entity_id i) w) as [[s|e|p] w1] eqn:Hg;
      intros [= <- <-]; exact (getEntityState_requests _ _ _ _ Hg). }
  destruct (String.eqb_spec toolName "call_service"); [contradiction|].
  now intros [= <- <-].
Qed.

End ClientMore.

Section WarmupMore.
Import JS HomeAssistant.
Context {H : Type} `{Hub H}.

(** What [setTimeout] waiting for [ms] milliseconds does to the environment. *)
Variable pause : Z -> H -> H.
Local Open Scope ha_scope.

Definition sleep (ms : Z) : M H unit := fun w =>
  (Returned tt, mkWorld (client w) (pause ms (hub w)) (requests w)).

(** The loop of [warmup] over the attempts still to make. *)
Fixpoint warmup_attempts (attempts : list Z) : M H unit := fun w =>
  match attempts with
  | [] => (Returned tt, w)
  | attempt :: later =>
      match refreshStates true w with
      | (Returned _, w') => (Returned tt, w')
      | (Threw err, w') =>
          if attempt =? 2 then (Returned tt, w')
          else (sleep (250 * (attempt + 1)) ;;; warmup_attempts later) w'
      | (Suspended p, w') => (Suspended p, w')
      end
  end.

(** [warmup()], for a client created with the given [warmupOnStart]. *)
Definition warmup (warmupOnStart : bool) : M H unit :=
  if negb warmupOnStart then ret tt else warmup_attempts [0; 1; 2].

Lemma warmup_attempts_idle attempts : forall (w w' : World H) out,
  refreshInFlight (client w) = None ->
  warmup_attempts attempts w = (out, w') ->
  out = Returned tt /\ refreshInFlight (client w') = None
  /\ exists n, (n <= List.length attempts)%nat
               /\ requests w' = requests w ++ List.repeat GetStates n.
Proof.
  induction attempts as [|attempt later IH]; intros w w' out Hidle; simpl.
  - intros [= <- <-]. split_and!; auto. exists O. simpl. now rewrite List.app_nil_r.
  - destruct (refreshStates true w) as [[[]|e|p] w1] eqn:Hr;
      destruct (refresh_idle true w w1 _ Hidle Hr) as (Hg & Hs & _ & Hsent);
      destruct (Hsent (or_introl eq_refl)) as (Hreq & _).
    + intros [= <- <-]. split_and!; auto. exists 1%nat. split; [lia | exact Hreq].
    + destruct (attempt =? 2).
      * intros [= <- <-]. split_and!; auto. exists 1%nat. split; [lia | exact Hreq].
      * unfold bind, sleep. intros Hrest.
        apply IH in Hrest as (Hout & Hg' & n & Hn & Hreq'); [|exact Hg].
        split_and!; auto. exists (S n). split; [lia|].
        simpl in Hreq'. rewrite Hreq', Hreq, <- List.app_assoc. reflexivity.
    + now destruct (Hs p).
Qed.

(** X16. [warmup] never throws and never blocks start-up on the hub:
    started on a client with no refresh in flight, it returns, leaves the
    guard empty and has sent between zero and three inventory requests and
    nothing else; with [warmupOnStart] off it does nothing; and it stops
    at the first inventory request the hub answers ok, the snapshot then
    being that answer. *)
Theorem warmup_returns (warmupOnStart : bool) (w w' : World H) (out : Outcome unit) :
  refreshInFlight (client w) = None ->
  warmup warmupOnStart w = (out, w') ->
  out = Returned tt
  /\ refreshInFlight (client w') = None
  /\ (exists n, (n <= 3)%nat /\ requests w' = requests w ++ List.repeat GetStates n)
  /\ (warmupOnStart = false -> w' = w)
  /\ (forall status states,
        warmupOnStart = true -> fst (get_states (hub w)) = Ok status states ->
        requests w' = requests w ++ [GetStates]
        /\ statesByEntityId (client w') = by_entity_id states).
Proof.
  intros Hidle. unfold warmup. destruct warmupOnStart; simpl negb; cbv iota.
  - intros Hw. destruct (warmup_attempts_idle _ _ _ _ Hidle Hw) as (Hout & Hg & n & Hn & Hreq).
    split_and!; [assumption | assumption | eauto | discriminate |].
    intros status states _ Hok. simpl in Hw.
    destruct (refreshStates true w) as [o w1] eqn:Hr.
    destruct (refresh_idle true w w1 o Hidle Hr) as (_ & _ & _ & Hsent).
    destruct (Hsent (or_introl eq_refl)) as (Hreq1 & _ & Hans).
    rewrite Hok in Hans. destruct Hans as [-> Hsnap].
    injection Hw as _ <-. split; [assumption|].
    unfold snapshot in Hsnap. now injection Hsnap as -> _ _.
  - intros [= <- <-]. split_and!; auto; [|discriminate].
    exists O. split; [lia|]. simpl. now rewrite List.app_nil_r.
Qed.

End WarmupMore.

(* ===================================================================== *)
(** * More on plans and the tool-use loop *)
(* ===================================================================== *)

Section PlanMore.
Import JS HomeAssistant VoicePlan.
Context {H : Type} `{Hub H}.

Definition is_read (call : ToolCall) : bool := String.eqb (name call) "get_entity_state".

(** The call a result belongs to. *)
Definition call_of (r : ToolResult) : ToolCall := mkToolCall (r_name r) (r_input r).

Lemma plan_calls_filter toolUses plan :
  buildPlanFromToolUses toolUses = Some plan ->
  toolCalls plan = List.filter isCacheableToolCall toolUses /\ version plan = 1.
Proof.
  unfold buildPlanFromToolUses.
  destruct (List.filter isCacheableToolCall toolUses) as [|call rest] eqn:Hf; [discriminate|].
  intros [= <-]. simpl. split; [|reflexivity]. f_equal; [now destruct call|].
  rewrite <- (List.map_id rest) at 2. apply List.map_ext. now intros [].
Qed.

Lemma filter_idempotent {A} (p : A -> bool) l :
  List.filter p (List.filter p l) = List.filter p l.
Proof.
  induction l as [|x l IH]; [reflexivity|]. simpl. destruct (p x) eqn:Hp; [|exact IH].
  simpl. now rewrite Hp, IH.
Qed.

(** X17. A plan holds only calls that may be replayed: every call of a
    plan [buildPlanFromToolUses] returns is cacheable, so each is a state
    read or a service call on a target entity that is not a toggle, and
    building a plan from the plan's own calls gives the plan back. *)
Theorem build_plan_replayable (toolUses : list ToolCall) (plan : Plan) :
  buildPlanFromToolUses toolUses = Some plan ->
  List.Forall (fun call =>
                 isCacheableToolCall call = true
                 /\ (name call = "get_entity_state"%string
                     \/ (name call = "call_service"%string
                         /\ has_target_entity call /\ ~ is_toggle call)))
              (toolCalls plan)
  /\ buildPlanFromToolUses (toolCalls plan) = Some plan.
Proof.
  intros Hplan. destruct (plan_calls_filter _ _ Hplan) as [Hcalls Hversion]. split.
  - rewrite Hcalls. apply Forall_forall. intros call Hin. apply list_elem_of_In in Hin.
    apply List.filter_In in Hin as [_ Hc]. split; [assumption|].
    destruct (String.eqb_spec (name call) "get_entity_state") as [Hr|Hr]; [now left|].
    destruct (String.eqb_spec (name call) "call_service") as [Hs|Hs].
    + right. split; [assumption|].
      rewrite (cacheable_call_service _ Hs) in Hc. apply andb_prop in Hc as [Ht Hnot].
      split; [exact Ht|]. unfold is_toggle. intros Htoggle.
      rewrite Htoggle in Hnot. discriminate.
    + rewrite cacheable_other in Hc by assumption. discriminate.
  - unfold buildPlanFromToolUses. rewrite Hcalls, filter_idempotent, <- Hcalls.
    destruct (toolCalls plan) as [|call rest] eqn:Hc.
    + unfold buildPlanFromToolUses in Hplan. rewrite <- Hcalls in Hplan. discriminate.
    + destruct plan as [ver calls]. simpl in *. subst. f_equal. f_equal.
      f_equal; [now destruct call|].
      rewrite <- (List.map_id rest) at 2. apply List.map_ext. now intros [].
Qed.

Lemma bind_returned {A B} (m : M H A) (k : A -> M H B) (w w' : World H) b :
  bind m k w = (Returned b, w') ->
  exists a w1, m w = (Returned a, w1) /\ k a w1 = (Returned b, w').
Proof.
  unfold bind. destruct (m w) as [[a|e|p] w1]; try discriminate. eauto.
Qed.

Lemma run_calls_returned calls : forall (w w' : World H) results,
  run_calls calls w = (Returned results, w') ->
  List.map call_of results = calls
  /\ List.Forall (fun r => is_read (call_of r) = true -> exists s, r_result r = VState s)
       results.
Proof.
  induction calls as [|call calls IH]; intros w w' results; simpl.
  - unfold ret. intros [= <- <-]. split; [reflexivity | constructor].
  - unfold bind, ret.
    destruct (executeTool (name call) (input call) w) as [[result|e|p] w1] eqn:He;
      try discriminate.
    destruct (run_calls calls w1) as [[rest|e|p] w2] eqn:Hr; try discriminate.
    intros [= <- <-]. destruct (IH _ _ _ Hr) as [Hmap Hall]. split.
    + simpl. rewrite Hmap. now destruct call.
    + constructor; [|assumption]. simpl. unfold is_read, call_of. simpl. intros Hread.
      unfold executeTool in He. apply String.eqb_eq in Hread. rewrite Hread in He.
      simpl in He. destruct (input call) as [i|]; [|discriminate].
      unfold bind, ret in He.
      destruct (getEntityState (in_entity_id i) w) as [[s|e|p] w0]; try discriminate.
      injection He as <- _. eauto.
Qed.

Lemma read_fetch_settled reads : forall (w : World H),
  List.length (fst (read_fetch reads w)) = List.length reads
  /\ List.Forall (fun r => is_missing r = false) (fst (read_fetch reads w)).
Proof.
  induction reads as [|r reads IH]; intros w; simpl; [split; [reflexivity | constructor]|].
  destruct r as [s|e|id].
  - destruct (read_fetch reads w) as [rest w1] eqn:Hr. specialize (IH w).
    rewrite Hr in IH. simpl in *. destruct IH as [Hl Hf]. split; [lia | now constructor].
  - destruct (read_fetch reads w) as [rest w1] eqn:Hr. specialize (IH w).
    rewrite Hr in IH. simpl in *. destruct IH as [Hl Hf]. split; [lia | now constructor].
  - destruct (get_state id (hub w)) as [res h].
    destruct (read_fetch reads _) as [rest w1] eqn:Hr.
    specialize (IH (mkWorld (client w) h (requests w ++ [GetState id]))).
    rewrite Hr in IH. simpl in *. destruct IH as [Hl Hf]. split; [lia|].
    constructor; [now destruct res | assumption].
Qed.

Lemma read_refresh_length force reads (w w1 : World H) reads1 :
  read_refresh force reads w = (inl reads1, w1) -> List.length reads1 = List.length reads.
Proof.
  unfold read_refresh. destruct (List.existsb is_missing reads).
  - destruct (refreshStates force w) as [[u|e|p] w0]; intros [= <- _];
      try apply List.length_map.
  - now intros [= <- _].
Qed.

Lemma first_rejection_none reads :
  first_rejection reads = None ->
  List.Forall (fun r => is_missing r = false) reads ->
  List.Forall (fun r => exists s, r = Resolved s) reads.
Proof.
  unfold first_rejection. intros Hnone Hsettled.
  destruct (error_of (List.find is_type_error reads)); [discriminate|].
  destruct (error_of (List.find is_required reads)); [discriminate|].
  apply Forall_forall. intros r Hin. rewrite Forall_forall in Hsettled.
  specialize (Hsettled r Hin). destruct r as [s|e|id]; [eauto | | discriminate].
  destruct (List.find is_failed reads) as [found|] eqn:Hfind.
  - apply List.find_some in Hfind as [_ Hf]. now destruct found.
  - apply list_elem_of_In in Hin.
    now pose proof (List.find_none _ _ Hfind _ Hin).
Qed.

Lemma read_results_resolved calls : forall reads,
  List.length reads = List.length calls ->
  List.Forall (fun r => exists s, r = Resolved s) reads ->
  List.map call_of (read_results calls reads) = calls
  /\ List.Forall (fun r => exists s, r_result r = VState s) (read_results calls reads).
Proof.
  induction calls as [|call calls IH]; intros [|r reads] Hlen Hall; simpl in *;
    try discriminate; [split; [reflexivity | constructor]|].
  apply Forall_cons in Hall as [[s ->] Hall].
  destruct (IH reads) as [Hmap Hstates]; [lia | assumption |].
  split; [simpl; rewrite Hmap; now destruct call | constructor; [simpl; eauto | assumption]].
Qed.

(** When the reads all come back, there is one state per read, in
    listed order. *)
Lemma read_all_returned calls (w w' : World H) results :
  read_all calls w = (Returned results, w') ->
  List.map call_of results = calls
  /\ List.Forall (fun r => exists s, r_result r = VState s) results.
Proof.
  unfold read_all, read_settle.
  destruct (read_refresh false _ w) as [[checked|p] w1] eqn:H1.
  2:{ destruct (first_rejection _); discriminate. }
  destruct (read_refresh true checked w1) as [[refreshed|p] w2] eqn:H2.
  2:{ destruct (first_rejection _); discriminate. }
  destruct (read_fetch refreshed w2) as [final w3] eqn:H3.
  destruct (first_rejection final) eqn:Hfirst; [discriminate|].
  intros [= <- _].
  pose proof (read_fetch_settled refreshed w2) as [Hlen Hsettled]. rewrite H3 in *.
  simpl in *. apply read_results_resolved.
  - rewrite Hlen, (read_refresh_length _ _ _ _ _ H2), (read_refresh_length _ _ _ _ _ H1).
    apply List.length_map.
  - now apply first_rejection_none.
Qed.

Lemma execute_plan_results plan (w w' : World H) results :
  executePlan plan w = (Returned results, w') ->
  exists others reads,
    results = others ++ reads
    /\ List.map call_of others = List.filter (fun c => negb (is_read c)) (toolCalls plan)
    /\ List.map call_of reads = List.filter is_read (toolCalls plan)
    /\ List.Forall (fun r => exists s, r_result r = VState s) reads.
Proof.
  unfold executePlan. fold is_read. intros Hexec.
  destruct (bind_returned _ _ _ _ _ Hexec) as (others & w1 & Ho & Hrest).
  destruct (bind_returned _ _ _ _ _ Hrest) as (reads & w2 & Hr & Hret).
  unfold ret in Hret. injection Hret as <- _. exists others, reads.
  destruct (run_calls_returned _ _ _ _ Ho) as [Hmo _].
  split_and!; [reflexivity | exact Hmo | |].
  - destruct (List.filter is_read (toolCalls plan)) as [|call calls] eqn:Hf.
    + unfold ret in Hr. now injection Hr as <- _.
    + exact (proj1 (read_all_returned _ _ _ _ Hr)).
  - destruct (List.filter is_read (toolCalls plan)) as [|call calls] eqn:Hf.
    + unfold ret in Hr. injection Hr as <- _. constructor.
    + exact (proj2 (read_all_returned _ _ _ _ Hr)).
Qed.

(** X18. [executePlan] returns one result per call of the plan, the
    calls other than state reads first, in their listed order, and the
    state reads after them, in their listed order. *)
Theorem execute_plan_order (plan : Plan) (w w' : World H) (results : list ToolResult) :
  executePlan plan w = (Returned results, w') ->
  List.map call_of results =
    List.filter (fun c => negb (is_read c)) (toolCalls plan)
    ++ List.filter is_read (toolCalls plan)
  /\ List.length results = List.length (toolCalls plan).
Proof.
  intros Hexec. destruct (execute_plan_results _ _ _ _ Hexec)
    as (others & reads & -> & Ho & Hr & _).
  assert (Hmap : List.map call_of (others ++ reads) =
                 List.filter (fun c => negb (is_read c)) (toolCalls plan)
                 ++ List.filter is_read (toolCalls plan))
    by now rewrite List.map_app, Ho, Hr.
  split; [exact Hmap|].
  rewrite <- (List.length_map call_of), Hmap, List.length_app.
  clear. induction (toolCalls plan) as [|c l IH]; [reflexivity|].
  simpl. destruct (is_read c); simpl; lia.
Qed.


(** The ids the reads are still looking for, in listed order. *)
Definition missing_ids (reads : list Read) : list string :=
  List.flat_map (fun r => match r with Missing id => [id] | _ => [] end) reads.

(** The entity id a state read names. *)
Definition read_id (call : ToolCall) : list string :=
  match input_entity_id (input call) with Some id => [id] | None => [] end.

Lemma missing_ids_start calls :
  sublist (missing_ids (List.map read_start calls)) (List.flat_map read_id calls).
Proof.
  induction calls as [|call calls IH]; simpl; [constructor|].
  apply sublist_app; [|exact IH].
  unfold read_start, read_id, input_entity_id. destruct (input call) as [i|]; simpl;
    [|apply sublist_nil_l].
  destruct (in_entity_id i) as [id|]; simpl; [|apply sublist_nil_l].
  destruct (truthy id); simpl; [reflexivity | apply sublist_nil_l].
Qed.

Lemma missing_ids_map (f : Read -> Read) reads :
  (forall r, f r = r \/ is_missing (f r) = false) ->
  sublist (missing_ids (List.map f reads)) (missing_ids reads).
Proof.
  intros Hf. induction reads as [|r reads IH]; simpl; [constructor|].
  apply sublist_app; [|exact IH].
  destruct (Hf r) as [->|Hsettled]; [reflexivity|].
  destruct (f r); [apply sublist_nil_l | apply sublist_nil_l | discriminate].
Qed.

Lemma read_refresh_requests force reads (w w1 : World H) next :
  read_refresh force reads w = (next, w1) ->
  (exists n, (n <= 1)%nat /\ requests w1 = requests w ++ List.repeat GetStates n)
  /\ match next with
     | inl reads1 => sublist (missing_ids reads1) (missing_ids reads)
     | inr _ => True
     end.
Proof.
  assert (Hsent : forall (x x' : World H) o,
            refreshStates force x = (o, x') ->
            exists n, (n <= 1)%nat /\ requests x' = requests x ++ List.repeat GetStates n).
  { intros x x' o Hr. destruct (proj1 (refreshStates_requests _ _ _ _ Hr)) as [E|E].
    - exists 0%nat. simpl. rewrite List.app_nil_r. auto.
    - exists 1%nat. auto. }
  unfold read_refresh. destruct (List.existsb is_missing reads).
  - destruct (refreshStates force w) as [[u|e|p] w0] eqn:Hr; intros [= <- <-];
      (split; [exact (Hsent _ _ _ Hr)|]); [| |exact I]; apply missing_ids_map.
    + intros [s|e|id]; simpl; auto.
      destruct (statesByEntityId (client w0) !! id); auto.
    + intros [s|e0|id]; simpl; auto.
  - intros [= <- <-]. split; [|reflexivity].
    exists 0%nat. simpl. rewrite List.app_nil_r. auto.
Qed.

Lemma read_fetch_requests reads : forall (w : World H),
  requests (snd (read_fetch reads w)) =
  requests w ++ List.map GetState (missing_ids reads).
Proof.
  induction reads as [|r reads IH]; intros w; simpl; [now rewrite List.app_nil_r|].
  destruct r as [s|e|id].
  - specialize (IH w). destruct (read_fetch reads w) as [rest w1]. exact IH.
  - specialize (IH w). destruct (read_fetch reads w) as [rest w1]. exact IH.
  - destruct (get_state id (hub w)) as [res h].
    specialize (IH (mkWorld (client w) h (requests w ++ [GetState id]))).
    destruct (read_fetch reads _) as [rest w1]. simpl in *.
    now rewrite IH, <- List.app_assoc.
Qed.

Lemma read_settle_world calls reads suspended (w : World H) :
  snd (read_settle calls reads suspended w) = w.
Proof.
  unfold read_settle. destruct (first_rejection reads); [reflexivity|].
  now destruct suspended.
Qed.

(** The requests of the reads of a plan: at most two for the inventory,
    then the lookups. *)
Lemma read_all_requests calls (w w' : World H) out :
  read_all calls w = (out, w') ->
  exists n ids,
    (n <= 2)%nat
    /\ requests w' = requests w ++ List.repeat GetStates n ++ List.map GetState ids
    /\ sublist ids (List.flat_map read_id calls).
Proof.
  unfold read_all. intros Hall.
  destruct (read_refresh false _ w) as [[checked|p] w1] eqn:H1;
    destruct (read_refresh_requests _ _ _ _ _ H1) as [(n1 & Hn1 & Hr1) Hs1].
  2:{ pose proof (read_settle_world calls (List.map read_start calls) (Some p) w1) as Hw.
      rewrite Hall in Hw. simpl in Hw. subst w'.
      exists n1, []. simpl. rewrite List.app_nil_r.
      split_and!; [lia | exact Hr1 | apply sublist_nil_l]. }
  destruct (read_refresh true checked w1) as [[refreshed|p] w2] eqn:H2;
    destruct (read_refresh_requests _ _ _ _ _ H2) as [(n2 & Hn2 & Hr2) Hs2].
  2:{ pose proof (read_settle_world calls checked (Some p) w2) as Hw.
      rewrite Hall in Hw. simpl in Hw. subst w'.
      exists (n1 + n2)%nat, []. simpl. rewrite List.app_nil_r, List.repeat_app.
      split_and!; [lia | now rewrite Hr2, Hr1, <- List.app_assoc | apply sublist_nil_l]. }
  pose proof (read_fetch_requests refreshed w2) as Hr3.
  destruct (read_fetch refreshed w2) as [final w3].
  pose proof (read_settle_world calls final None w3) as Hw.
  rewrite Hall in Hw. simpl in Hw, Hr3. subst w'.
  exists (n1 + n2)%nat, (missing_ids refreshed). split_and!; [lia | |].
  - rewrite Hr3, Hr2, Hr1, List.repeat_app, <- !List.app_assoc. reflexivity.
  - etrans; [exact Hs2|]. etrans; [exact Hs1|]. apply missing_ids_start.
Qed.

(** One read started alone is the tool call. *)
Lemma read_all_single call (w : World H) :
  is_read call = true ->
  read_all [call] w =
  bind (executeTool (name call) (input call))
       (fun result => ret [mkToolResult (name call) (input call) result]) w.
Proof.
  intros Hread. apply String.eqb_eq in Hread.
  destruct call as [n input0]. simpl in Hread. subst n.
  unfold executeTool. simpl.
  unfold read_all, read_start. simpl.
  destruct input0 as [i|]; [|reflexivity].
  unfold getEntityState.
  destruct (truthy_opt (in_entity_id i)) eqn:Hid; simpl; [|reflexivity].
  unfold read_refresh, ensureStatesFresh, bind, read_client, ret, throw, fetch_state. simpl.
  destruct (refreshStates false w) as [[u|e|p] w1]; simpl.
  2:{ now destruct e. }
  2:{ reflexivity. }
  destruct (statesByEntityId (client w1) !! default ""%string (in_entity_id i))
    as [cached|] eqn:L1; simpl; [reflexivity|].
  destruct (refreshStates true w1) as [[u'|e|p] w2]; simpl.
  2:{ now destruct e. }
  2:{ reflexivity. }
  destruct (statesByEntityId (client w2) !! default ""%string (in_entity_id i))
    as [cachedAfter|] eqn:L2; simpl; [reflexivity|].
  destruct (get_state (default ""%string (in_entity_id i)) (hub w2)) as [res h].
  destruct res as [why|status text|status s]; reflexivity.
Qed.

(** X28. The state reads of a plan are started together and share
    their refreshes: a plan of state reads only, however many, sends at
    most two inventory requests, then at most one lookup per read, for
    ids the reads name and in listed order, and no control request; and a
    plan of a single state read does exactly what the tool call does. *)
Theorem execute_plan_reads_together (plan : Plan) (w w' : World H)
    (out : Outcome (list ToolResult)) :
  List.Forall (fun call => is_read call = true) (toolCalls plan) ->
  executePlan plan w = (out, w') ->
  (exists n ids,
     (n <= 2)%nat
     /\ requests w' = requests w ++ List.repeat GetStates n ++ List.map GetState ids
     /\ sublist ids (List.flat_map read_id (toolCalls plan))
     /\ control_requests w' = control_requests w)
  /\ (forall call, toolCalls plan = [call] ->
        (out, w') =
        bind (executeTool (name call) (input call))
             (fun result => ret [mkToolResult (name call) (input call) result]) w).
Proof.
  intros Hreads. unfold executePlan. fold is_read.
  assert (Hkeep : List.filter is_read (toolCalls plan) = toolCalls plan).
  { induction Hreads as [|call calls Hcall _ IH]; [reflexivity|].
    simpl. rewrite Hcall. f_equal. exact IH. }
  assert (Hothers : List.filter (fun c => negb (is_read c)) (toolCalls plan) = []).
  { clear Hkeep. induction Hreads as [|call calls Hcall _ IH]; [reflexivity|].
    simpl. now rewrite Hcall. }
  change (fun c : ToolCall => negb (String.eqb (name c) "get_entity_state"))
    with (fun c => negb (is_read c)).
  rewrite Hothers, Hkeep. simpl. unfold bind at 1. unfold ret at 1.
  intros Hexec.
  assert (Hall : exists out0, read_all (toolCalls plan) w = (out0, w')
                   /\ match out0 with
                      | Returned results => out = Returned ([] ++ results)
                      | Threw e => out = Threw e
                      | Suspended p => out = Suspended p
                      end).
  { destruct (toolCalls plan) as [|call calls].
    - unfold bind, ret in Hexec. injection Hexec as <- <-.
      exists (Returned []). split; reflexivity.
    - unfold bind, ret in Hexec.
      destruct (read_all (call :: calls) w) as [[results|e|p] w1];
        injection Hexec as <- <-; eexists; split; reflexivity. }
  destruct Hall as (out0 & Hall & Hout). split.
  - destruct (read_all_requests _ _ _ _ Hall) as (n & ids & Hn & Hrequests & Hids).
    exists n, ids. split_and!; try assumption.
    unfold control_requests. rewrite Hrequests, !List.filter_app.
    assert (Hg : List.filter is_control (List.repeat GetStates n) = [])
      by (clear; induction n; [reflexivity | exact IHn]).
    assert (Hl : List.filter is_control (List.map GetState ids) = [])
      by (clear; induction ids; [reflexivity | exact IHids]).
    now rewrite Hg, Hl, !List.app_nil_r.
  - intros call Hone. rewrite Hone in Hreads, Hall.
    apply Forall_cons in Hreads as [Hread _].
    rewrite (read_all_single call w Hread) in Hall. unfold bind, ret in *.
    destruct (executeTool (name call) (input call) w) as [[result|e|p] w1];
      injection Hall as <- <-; subst out; reflexivity.
Qed.

End PlanMore.

Section LoopMore.
Import JS HomeAssistant VoicePlan Orchestrator.
Context {H : Type} `{Hub H}.

Lemma run_tools_split before : forall after (w w' : World H) blocks,
  run_tools (before ++ after) w = (inl blocks, w') ->
  exists blocks1 blocks2 w1,
    blocks = blocks1 ++ blocks2
    /\ List.length blocks1 = List.length before
    /\ run_tools before w = (inl blocks1, w1)
    /\ run_tools after w1 = (inl blocks2, w').
Proof.
  induction before as [|[id call] before IH]; intros after w w' blocks; simpl.
  - intros Hrun. exists [], blocks, w. auto.
  - destruct (executeTool (name call) (input call) w) as [out w0].
    destruct (tool_block id out) as [block|p]; [|discriminate].
    destruct (run_tools (before ++ after) w0) as [[rest|p] w2] eqn:Hrest; [|discriminate].
    intros [= <- <-].
    destruct (IH _ _ _ _ Hrest) as (blocks1 & blocks2 & w1 & -> & Hlen & Hb & Ha).
    exists (block :: blocks1), blocks2, w1. rewrite Hb.
    split_and!; [reflexivity | simpl; now rewrite Hlen | reflexivity | exact Ha].
Qed.

(** X20. The loop answers every tool use of a response with what the
    tool did: when [run_tools] returns, there is one result block per
    use, in order and under the id of the use; each tool was executed in
    the world the tools before it left, the tools after it in the world it
    left; its block carries the value [executeTool] returned, not flagged,
    or the error it threw, flagged [is_error]; a tool that throws does not
    stop the loop. *)
Theorem run_tools_blocks (uses : list (string * ToolCall)) (w w' : World H)
    (blocks : list ToolResultBlock) :
  run_tools uses w = (inl blocks, w') ->
  List.map tool_use_id blocks = List.map fst uses
  /\ List.Forall (fun b => match tr_content b with
                           | inl _ => is_error b = false
                           | inr _ => is_error b = true
                           end) blocks
  /\ forall before id call after,
       uses = before ++ (id, call) :: after ->
       exists blocks1 block blocks2 w1,
         blocks = blocks1 ++ block :: blocks2
         /\ List.length blocks1 = List.length before
         /\ run_tools before w = (inl blocks1, w1)
         /\ run_tools after (snd (executeTool (name call) (input call) w1)) =
            (inl blocks2, w')
         /\ match fst (executeTool (name call) (input call) w1) with
            | Returned result => block = mkToolResultBlock id (inl result) false
            | Threw error => block = mkToolResultBlock id (inr error) true
            | Suspended _ => False
            end.
Proof.
  intros Hrun. split_and!.
  - revert w blocks Hrun. induction uses as [|[id call] uses IH]; intros w blocks; simpl.
    + now intros [= <- _].
    + destruct (executeTool (name call) (input call) w) as [out w1].
      destruct out as [result|error|p]; simpl; try discriminate;
        (destruct (run_tools uses w1) as [[rest|p] w2] eqn:Hr; try discriminate;
         intros [= <- <-]; simpl; now rewrite (IH _ _ Hr)).
  - revert w blocks Hrun. induction uses as [|[id call] uses IH]; intros w blocks; simpl.
    + intros [= <- _]. constructor.
    + destruct (executeTool (name call) (input call) w) as [out w1].
      destruct out as [result|error|p]; simpl; try discriminate;
        (destruct (run_tools uses w1) as [[rest|p] w2] eqn:Hr; try discriminate;
         intros [= <- <-]; constructor; [reflexivity | exact (IH _ _ Hr)]).
  - intros before id call after ->.
    destruct (run_tools_split _ _ _ _ _ Hrun)
      as (blocks1 & rest & w1 & -> & Hlen & Hbefore & Hafter).
    simpl in Hafter.
    destruct (executeTool (name call) (input call) w1) as [out w2] eqn:Htool.
    destruct out as [result|error|p]; simpl in *; try discriminate;
      (destruct (run_tools after w2) as [[blocks2|p] w3] eqn:Hr; try discriminate;
       injection Hafter as <- <-;
       eexists blocks1, _, blocks2, w1; rewrite Htool; simpl;
       split_and!; eauto).
Qed.

(** The tool uses the assistant messages of a conversation ask for. *)
Definition requested (messages : list Message) : list ToolCall :=
  List.flat_map
    (fun message => match message with
                    | Assistant content => List.map snd (tool_uses content)
                    | _ => []
                    end) messages.

Lemma requested_app l l' : requested (l ++ l') = requested l ++ requested l'.
Proof. unfold requested. apply List.flat_map_app. Qed.

Lemma tool_loop_replied fuel llm : forall (l l' : Loop),
  tool_loop fuel llm l = Replied l' ->
  String.eqb (stop_reason (l_response l')) "tool_use" = false
  /\ exists added,
       l_messages l' = l_messages l ++ added
       /\ List.length added = (2 * (l_rounds l' - l_rounds l))%nat
       /\ (l_rounds l <= l_rounds l')%nat
       /\ l_toolUsesSeen l' = l_toolUsesSeen l ++ requested added.
Proof.
  induction fuel as [|fuel IH]; intros l l'; simpl;
    destruct (String.eqb (stop_reason (l_response l)) "tool_use") eqn:Hstop;
    try discriminate.
  - intros [= <-]. split; [assumption|]. exists []. rewrite !List.app_nil_r.
    split_and!; auto. simpl. lia.
  - destruct (run_tools _ (l_world l)) as [[toolResults|p] w1]; [|discriminate].
    destruct (llm _) as [response|]; [|discriminate].
    intros Hloop. apply IH in Hloop as (Hstop' & added & Hmsgs & Hlen & Hle & Hseen).
    simpl in *. split; [assumption|].
    exists ([Assistant (content (l_response l)); UserResults toolResults] ++ added).
    split_and!.
    + now rewrite List.app_assoc.
    + simpl. rewrite Hlen. lia.
    + lia.
    + rewrite Hseen, requested_app. simpl. rewrite List.app_nil_r, List.app_assoc.
      reflexivity.
  - intros [= <-]. split; [assumption|]. exists []. rewrite !List.app_nil_r.
    split_and!; auto. simpl. lia.
Qed.


(** The response the loop holds is the model's answer to the messages
    it holds. *)
Lemma tool_loop_last fuel llm : forall (l l' : Loop),
  llm (l_messages l) = Some (l_response l) ->
  tool_loop fuel llm l = Replied l' ->
  llm (l_messages l') = Some (l_response l').
Proof.
  induction fuel as [|fuel IH]; intros l l' Hlast; simpl;
    destruct (String.eqb (stop_reason (l_response l)) "tool_use"); try discriminate.
  - now intros [= <-].
  - destruct (run_tools _ (l_world l)) as [[toolResults|p] w1]; [|discriminate].
    destruct (llm (l_messages l ++ _)) as [response|] eqn:Hllm; [|discriminate].
    apply IH. exact Hllm.
  - now intros [= <-].
Qed.

(** X22. [processVoiceCommand] writes the cache at most once, at the
    end: when it returns, the cache is the one it was given if no tool use
    it saw is cacheable or the normalized utterance is empty, and otherwise
    the result of storing the plan built from the tool uses seen under the
    normalized utterance, with the default time to live. The text it
    returns is the first text block of the model's last response, or
    "Done." when there is none or it is empty; that response is the
    model's answer to the user's text followed by two messages per round,
    it does not ask for tools, and the tool uses seen are those the
    assistant messages among them asked for. *)
Theorem process_voice_command_cache (fuel : nat) (llm : Model)
    (intentCache : IntentCache.t Plan) (userText normalized : string) (w : World H)
    (reply : Reply) :
  processVoiceCommand fuel llm intentCache userText normalized w = Replied reply ->
  match buildPlanFromToolUses (toolUsesSeen reply) with
  | Some plan =>
      if truthy normalized
      then IntentCache.set intentCache normalized plan None (now (hub (world reply)))
           = Some (cache reply)
      else cache reply = intentCache
  | None => cache reply = intentCache
  end
  /\ exists added last,
       llm ([User userText] ++ added) = Some last
       /\ List.length added = (2 * rounds reply)%nat
       /\ toolUsesSeen reply = requested added
       /\ stop_reason last <> "tool_use"%string
       /\ responseText reply = or_else (first_text (content last)) "Done.".
Proof.
  unfold processVoiceCommand.
  destruct (llm [User userText]) as [response|] eqn:Hfirst; [|discriminate].
  destruct (tool_loop fuel llm _) as [l| | |] eqn:Hloop; try discriminate.
  pose proof (tool_loop_last fuel llm (mkLoop response [User userText] [] 0 w) l
                Hfirst Hloop) as Hlast.
  apply tool_loop_replied in Hloop as (Hstop & added & Hmsgs & Hlen & _ & Hseen).
  apply String.eqb_neq in Hstop. simpl in Hmsgs, Hlen, Hseen.
  rewrite Hmsgs in Hlast. rewrite Nat.sub_0_r in Hlen.
  assert (Htext : exists added0 last,
            llm ([User userText] ++ added0) = Some last
            /\ List.length added0 = (2 * l_rounds l)%nat
            /\ l_toolUsesSeen l = requested added0
            /\ stop_reason last <> "tool_use"%string
            /\ or_else (first_text (content (l_response l))) "Done." =
               or_else (first_text (content last)) "Done.").
  { exists added, (l_response l). auto. }
  destruct (buildPlanFromToolUses (l_toolUsesSeen l)) as [plan|] eqn:Hplan.
  - destruct (truthy normalized).
    + destruct (IntentCache.set _ _ _ _ _) as [cache'|] eqn:Hset; [|discriminate].
      intros [= <-]. simpl. rewrite Hplan. split; [assumption | exact Htext].
    + intros [= <-]. simpl. rewrite Hplan. split; [reflexivity | exact Htext].
  - intros [= <-]. simpl. rewrite Hplan. split; [reflexivity | exact Htext].
Qed.

End LoopMore.

Section NormalizeMore.
Import JS Normalize.

Lemma truthy_lower text : truthy (toLowerCase text) = truthy text.
Proof. now destruct text. Qed.

(** X23. The shape of a normalized utterance: every character is a
    lower-case letter, a digit, a space or one of [%], [.], [-]; spaces
    are single and not at either end; and none of the words please, the,
    a, an, my is left. The result does not depend on the case of the
    input. *)
Theorem normalize_output_shape (text : string) :
  all_settled (chars (normalizeUtterance text))
  /\ tidy (chars (normalizeUtterance text))
  /\ no_fillers (chars (normalizeUtterance text))
  /\ normalizeUtterance (toLowerCase text) = normalizeUtterance text.
Proof.
  split_and!.
  1-3: unfold normalizeUtterance; destruct (negb (truthy text));
       [ first [now left | now constructor | intros w _ []]
       | rewrite chars_str; apply normalize_chars_shape ].
  unfold normalizeUtterance. rewrite truthy_lower.
  destruct (negb (truthy text)); [reflexivity|].
  unfold toLowerCase, normalize_chars. rewrite chars_str.
  assert (Hlow : List.map lower_char (List.map lower_char (chars text))
                 = List.map lower_char (chars text)).
  { rewrite List.map_map. apply List.map_ext. intros c. apply lower_char_idempotent. }
  now rewrite Hlow.
Qed.

End NormalizeMore.

(* ===================================================================== *)
(** * src/index.js: the fast path and the request handler *)
(* ===================================================================== *)

Module VoiceHandler.
Import JS HomeAssistant VoicePlan Orchestrator.

Definition ENTITY_MATCH_SCORE_DEFAULT : Z := 4.
Definition ENTITY_MATCH_SCORE_POOL : Z := 3.

(** [.] of a regular expression: any character but a line terminator. *)
Definition is_dot (c : ascii) : bool := negb (Ascii.eqb c "010" || Ascii.eqb c "013").

Definition all_dot (s : list ascii) : bool := List.forallb is_dot s.

(** [\b(w)\b] matches at this position. *)
Definition word_here (w : string) (prev : option ascii) (s : list ascii) : bool :=
  match Normalize.match_word w prev s with Some _ => true | None => false end.

(** An unanchored pattern: some position of the subject passes [test]. *)
Fixpoint somewhere (test : option ascii -> list ascii -> bool)
    (prev : option ascii) (s : list ascii) : bool :=
  test prev s ||
  match s with
  | c :: s' => somewhere test (Some c) s'
  | [] => false
  end.

(** [.*] followed by what [test] checks. *)
Fixpoint after_any (test : option ascii -> list ascii -> bool)
    (prev : option ascii) (s : list ascii) : bool :=
  test prev s ||
  match s with
  | c :: s' => is_dot c && after_any test (Some c) s'
  | [] => false
  end.

Definition temp_here (prev : option ascii) (s : list ascii) : bool :=
  word_here "temp" prev s || word_here "temperature" prev s.

(** [/\bpool\b.*\b(temp|temperature)\b/.test(s)]. *)
Definition pool_then_temp (s : list ascii) : bool :=
  somewhere
    (fun prev s =>
       word_here "pool" prev s
       && after_any temp_here (Normalize.last_char (chars "pool") prev) (List.skipn 4 s))
    None s.

(** [/\b(temp|temperature)\b.*\bpool\b/.test(s)]. *)
Definition temp_then_pool (s : list ascii) : bool :=
  somewhere
    (fun prev s =>
       (word_here "temp" prev s
        && after_any (word_here "pool") (Normalize.last_char (chars "temp") prev)
             (List.skipn 4 s))
       || (word_here "temperature" prev s
           && after_any (word_here "pool")
                (Normalize.last_char (chars "temperature") prev) (List.skipn 11 s)))
    None s.

(** The first position at which a pattern matches, scanning left to right. *)
Fixpoint first_match {A} (m : option ascii -> list ascii -> option A)
    (prev : option ascii) (s : list ascii) : option A :=
  match m prev s with
  | Some r => Some r
  | None =>
      match s with
      | c :: s' => first_match m (Some c) s'
      | [] => None
      end
  end.

(** [\s+(.+)$]: the white space, [j] characters at first, gives
    characters back one at a time until what follows it is a non-empty run
    of [.] characters up to the end. *)
Fixpoint target_after (j : nat) (rest : list ascii) : option (list ascii) :=
  match j with
  | O => None
  | S j' =>
      match List.skipn j rest with
      | [] => target_after j' rest
      | target => if all_dot target then Some target else target_after j' rest
      end
  end.

(** One alternative of [(on|off)] and the rest of the pattern. *)
Definition turn_alt (g : string) (s : list ascii) : option (string * list ascii) :=
  match Normalize.literal (chars g) s with
  | Some rest =>
      match target_after (Normalize.space_run rest) rest with
      | Some target => Some (g, target)
      | None => None
      end
  | None => None
  end.

(** [/\bturn\s+(on|off)\s+(.+)$/] at one position: the two groups. *)
Definition turn_here (prev : option ascii) (s : list ascii)
    : option (string * list ascii) :=
  if Normalize.word_boundary prev s then
    match Normalize.literal (chars "turn") s with
    | Some rest =>
        match Normalize.space_run rest with
        | O => None
        | S _ as n =>
            match turn_alt "on" (List.skipn n rest) with
            | Some r => Some r
            | None => turn_alt "off" (List.skipn n rest)
            end
        end
    | None => None
    end
  else None.

(** [\s+\b(on|off)\b$] on what group 1 leaves. *)
Definition suffix_tail (r : list ascii) : option string :=
  match Normalize.space_run r with
  | O => None
  | S _ as n =>
      let before := Normalize.last_char (List.firstn n r) None in
      let word := List.skipn n r in
      if Normalize.word_boundary before word then
        match Normalize.literal (chars "on") word with
        | Some [] => Some "on"%string
        | _ =>
            match Normalize.literal (chars "off") word with
            | Some [] => Some "off"%string
            | _ => None
            end
        end
      else None
  end.

(** [/^(.+)\s+\b(on|off)\b$/]: group 1, [n] characters at first, gives
    characters back one at a time. *)
Fixpoint suffix_from (n : nat) (s : list ascii) : option (list ascii * string) :=
  match n with
  | O => None
  | S n' =>
      if all_dot (List.firstn n s)
      then match suffix_tail (List.skipn n s) with
           | Some desired => Some (List.firstn n s, desired)
           | None => suffix_from n' s
           end
      else suffix_from n' s
  end.

Definition suffix_match (s : list ascii) : option (list ascii * string) :=
  suffix_from (List.length s) s.

Definition startsWith (s prefix : string) : bool := is_prefix (chars prefix) (chars s).

(** [s.split(' ').length]. *)
Definition pieces (s : string) : Z :=
  Z.of_nat (List.length (List.filter (Ascii.eqb " ") (chars s))) + 1.

Definition looksLikeQuery (targetText : string) : bool :=
  startsWith targetText "what "
  || startsWith targetText "whats "
  || startsWith targetText "what's "
  || startsWith targetText "is "
  || startsWith targetText "are ".

Definition read_plan (entityId : string) : Plan :=
  mkPlan 1 [mkToolCall "get_entity_state"
              (Some (mkToolInput None None None None (Some entityId) None))].

Definition switch_plan (desired entityId : string) : Plan :=
  mkPlan 1 [mkToolCall "call_service"
              (Some (mkToolInput (Some (split_dot_first entityId))
                       (Some (if String.eqb desired "on" then "turn_on" else "turn_off")%string)
                       (Some (mkTarget (Some entityId) None)) None None None))].

(** The body of Express's answer: [res.json(...)], after [res.status(...)]
    where the code sets one. *)
Inductive Body :=
| ResponseBody (response : string)
| ErrorBody (error : string).

Record Answer := mkAnswer {
  status : Z;
  body : Body
}.

Definition apology : string := "Sorry, I encountered an error processing your request.".

Section Handler.
Context {H : Type} `{Hub H}.
Local Open Scope ha_scope.

(** The resolution and plan construction the two imperative rules share. *)
Definition resolve_switch (desired targetText : string) : M H (option Plan) :=
  let minScore := if includes targetText "pool"
                  then ENTITY_MATCH_SCORE_POOL else ENTITY_MATCH_SCORE_DEFAULT in
  entityId <- resolveEntityId ["light"; "switch"]%string targetText minScore ;;
  if truthy_opt entityId
  then ret (Some (switch_plan desired (default ""%string entityId)))
  else ret None.

Definition resolve_pool : M H (option string) :=
  first <- resolveEntityId ["sensor"%string] "pool temperature" ENTITY_MATCH_SCORE_POOL ;;
  if truthy_opt first then ret first
  else resolveEntityId ["sensor"%string] "pool temp" ENTITY_MATCH_SCORE_POOL.

Definition suffix_rule (normalized : string) : M H (option Plan) :=
  match suffix_match (chars normalized) with
  | Some (group, desired) =>
      let targetText := str (trim_chars group) in
      if negb (looksLikeQuery targetText) && (pieces targetText <=? 6)
      then resolve_switch desired targetText
      else ret None
  | None => ret None
  end.

Definition turn_rule (normalized : string) : M H (option Plan) :=
  match first_match turn_here None (chars normalized) with
  | Some (desired, group) =>
      fromTurn <- resolve_switch desired (str (trim_chars group)) ;;
      match fromTurn with
      | Some plan => ret (Some plan)
      | None => suffix_rule normalized
      end
  | None => suffix_rule normalized
  end.

Definition tryFastPathPlan (normalized : string) : M H (option Plan) :=
  if negb (truthy normalized) then ret None
  else if pool_then_temp (chars normalized) || temp_then_pool (chars normalized)
  then
    entityId <- resolve_pool ;;
    if truthy_opt entityId
    then ret (Some (read_plan (default ""%string entityId)))
    else turn_rule normalized
  else turn_rule normalized.

(** What a request that is answered inside the handler's [try] block
    leaves behind. *)
Record Served := mkServed {
  answer : Answer;
  s_world : World H;
  s_cache : IntentCache.t Plan
}.

Definition ok (response : string) (w : World H) (c : IntentCache.t Plan) : Run Served :=
  Replied (mkServed (mkAnswer 200 (ResponseBody response)) w c).

(** The last tier: the model. *)
Definition llm_tier (fuel : nat) (llm : Model) (text normalized : string)
    (w : World H) (c : IntentCache.t Plan) : Run Served :=
  match processVoiceCommand fuel llm c text normalized w with
  | Replied reply => ok (responseText reply) (world reply) (cache reply)
  | Raised why => Raised why
  | Waiting p => Waiting p
  | Running => Running
  end.

(** The second tier: the fast path; a plan that fails falls through. *)
Definition fast_tier (fuel : nat) (llm : Model) (text normalized : string)
    (w : World H) (c : IntentCache.t Plan) : Run Served :=
  match tryFastPathPlan normalized w with
  | (Returned (Some fastPlan), w1) =>
      match executePlan fastPlan w1 with
      | (Returned toolResults, w2) =>
          let response := renderResponseFromToolResults (client w2) toolResults in
          match IntentCache.set c normalized fastPlan None (now (hub w2)) with
          | Some c' => ok response w2 c'
          | None => Running
          end
      | (Threw _, w2) => llm_tier fuel llm text normalized w2 c
      | (Suspended p, _) => Waiting p
      end
  | (Returned None, w1) => llm_tier fuel llm text normalized w1 c
  | (Threw _, w1) => Raised "tryFastPathPlan"
  | (Suspended p, _) => Waiting p
  end.

(** [app.post('/voice', ...)] behind the authentication check, for a
    request body with the given [text]; [Raised] stands for an exception
    that reaches the handler's [catch]. *)
Definition voice (fuel : nat) (llm : Model) (text : option string)
    (w : World H) (c : IntentCache.t Plan) : Run Served :=
  if negb (truthy_opt text)
  then Replied (mkServed (mkAnswer 400 (ErrorBody "No text provided")) w c)
  else
    let text := default ""%string text in
    let normalized := Normalize.normalizeUtterance text in
    match IntentCache.get c normalized (now (hub w)) with
    | (Some cachedPlan, c1) =>
        match executePlan cachedPlan w with
        | (Returned toolResults, w1) =>
            ok (renderResponseFromToolResults (client w1) toolResults) w1 c1
        | (Threw _, w1) =>
            fast_tier fuel llm text normalized w1 (IntentCache.delete c1 normalized)
        | (Suspended p, _) => Waiting p
        end
    | (None, c1) => fast_tier fuel llm text normalized w c1
    end.

(** What the client receives: the answer sent in the [try] block, or the
    one the [catch] block sends. *)
Definition http_answer (r : Run Served) : option Answer :=
  match r with
  | Replied served => Some (answer served)
  | Raised _ => Some (mkAnswer 500 (ResponseBody apology))
  | Waiting _ | Running => None
  end.

End Handler.

Arguments Served H : clear implicits.

End VoiceHandler.


(* ===================================================================== *)
(** * The fast path and the handler: what they return *)
(* ===================================================================== *)

Section FastPathMore.
Import JS HomeAssistant VoicePlan Orchestrator VoiceHandler.
Context {H : Type} `{Hub H}.

(** A computation that sends no control request, however it ends. *)
Definition quiet {A} (m : M H A) : Prop :=
  forall w out w', m w = (out, w') -> control_requests w' = control_requests w.

Lemma bind_cases {A B} (m : M H A) (k : A -> M H B) w out w' :
  bind m k w = (out, w') ->
  (exists a w1, m w = (Returned a, w1) /\ k a w1 = (out, w'))
  \/ (exists e, m w = (Threw e, w') /\ out = Threw e)
  \/ (exists p, m w = (Suspended p, w') /\ out = Suspended p).
Proof.
  unfold bind. destruct (m w) as [[a|e|p] w1].
  - intros Hk. left. eauto.
  - intros [= <- <-]. right. left. eauto.
  - intros [= <- <-]. right. right. eauto.
Qed.

Lemma quiet_ret {A} (a : A) : quiet (ret a).
Proof. intros w out w'. unfold ret. now intros [= <- <-]. Qed.

Lemma quiet_bind {A B} (m : M H A) (k : A -> M H B) :
  quiet m -> (forall a, quiet (k a)) -> quiet (bind m k).
Proof.
  intros Hm Hk w out w' Hb.
  destruct (bind_cases _ _ _ _ _ Hb) as [(a & w1 & Hm1 & Hk1)|[(e & Hm1 & _)|(p & Hm1 & _)]].
  - rewrite (Hk a _ _ _ Hk1). exact (Hm _ _ _ Hm1).
  - exact (Hm _ _ _ Hm1).
  - exact (Hm _ _ _ Hm1).
Qed.

Lemma quiet_resolve domains search minScore : quiet (resolveEntityId domains search minScore).
Proof.
  unfold resolveEntityId. destruct domains; [apply quiet_ret|].
  destruct (negb (truthy search)); [apply quiet_ret|].
  apply quiet_bind.
  - intros w out w' Hr. exact (proj2 (refreshStates_requests _ _ _ _ Hr)).
  - intros _. apply quiet_bind; [|intros c; apply quiet_ret].
    intros w out w'. unfold read_client. now intros [= <- <-].
Qed.

Lemma resolve_returned domains search minScore (w w' : World H) id :
  resolveEntityId domains search minScore w = (Returned (Some id), w') ->
  resolveEntityId_in (client w') domains search minScore = Some id.
Proof.
  unfold resolveEntityId. destruct domains as [|d ds]; [discriminate|].
  destruct (truthy search) eqn:Hs; cbn [negb]; cbv beta iota; [|discriminate].
  unfold ensureStatesFresh, bind, read_client, ret.
  cbv beta. destruct (refreshStates false w) as [[u|e|p] w1]; try discriminate.
  intros [= Hid <-]. exact Hid.
Qed.

(** What a plan of the two imperative rules is. *)
Definition switch_plan_for (c : Client) (plan : Plan) : Prop :=
  exists desired id targetText minScore,
    plan = switch_plan desired id /\ truthy id = true
    /\ (minScore = ENTITY_MATCH_SCORE_POOL \/ minScore = ENTITY_MATCH_SCORE_DEFAULT)
    /\ resolveEntityId_in c ["light"; "switch"]%string targetText minScore = Some id.

(** What a plan of the sensor rule is. *)
Definition read_plan_for (c : Client) (plan : Plan) : Prop :=
  exists id search,
    plan = read_plan id /\ truthy id = true
    /\ resolveEntityId_in c ["sensor"%string] search ENTITY_MATCH_SCORE_POOL = Some id.

Lemma resolve_switch_plan desired targetText (w w' : World H) plan :
  resolve_switch desired targetText w = (Returned (Some plan), w') ->
  switch_plan_for (client w') plan.
Proof.
  unfold resolve_switch. intros Hb.
  destruct (bind_cases _ _ _ _ _ Hb) as [(a & w1 & Hr & Hk)|[(e & _ & ?)|(p & _ & ?)]];
    try discriminate.
  destruct a as [id|]; simpl in Hk; [|discriminate].
  destruct (truthy id) eqn:Hid; [|discriminate].
  unfold ret in Hk. injection Hk as <- <-.
  exists desired, id, targetText. eexists. split_and!; [reflexivity | assumption | |].
  2: exact (resolve_returned _ _ _ _ _ _ Hr).
  destruct (includes targetText "pool"); auto.
Qed.

Lemma quiet_resolve_switch desired targetText : quiet (resolve_switch desired targetText).
Proof.
  unfold resolve_switch. apply quiet_bind; [apply quiet_resolve|].
  intros a. destruct (truthy_opt a); apply quiet_ret.
Qed.

Lemma suffix_rule_plan normalized (w w' : World H) plan :
  suffix_rule normalized w = (Returned (Some plan), w') -> switch_plan_for (client w') plan.
Proof.
  unfold suffix_rule. destruct (suffix_match _) as [[group desired]|]; [|discriminate].
  destruct (_ && _); [apply resolve_switch_plan | discriminate].
Qed.

Lemma quiet_suffix_rule normalized : quiet (suffix_rule normalized).
Proof.
  unfold suffix_rule. destruct (suffix_match _) as [[group desired]|]; [|apply quiet_ret].
  destruct (_ && _); [apply quiet_resolve_switch | apply quiet_ret].
Qed.

Lemma turn_rule_plan normalized (w w' : World H) plan :
  turn_rule normalized w = (Returned (Some plan), w') -> switch_plan_for (client w') plan.
Proof.
  unfold turn_rule. destruct (first_match _ _ _) as [[desired group]|];
    [|apply suffix_rule_plan].
  intros Hb.
  destruct (bind_cases _ _ _ _ _ Hb) as [(a & w1 & Hr & Hk)|[(e & _ & ?)|(p & _ & ?)]];
    try discriminate.
  destruct a as [plan'|].
  - unfold ret in Hk. injection Hk as <- <-. exact (resolve_switch_plan _ _ _ _ _ Hr).
  - exact (suffix_rule_plan _ _ _ _ Hk).
Qed.

Lemma quiet_turn_rule normalized : quiet (turn_rule normalized).
Proof.
  unfold turn_rule. destruct (first_match _ _ _) as [[desired group]|];
    [|apply quiet_suffix_rule].
  apply quiet_bind; [apply quiet_resolve_switch|].
  intros [plan|]; [apply quiet_ret | apply quiet_suffix_rule].
Qed.

Lemma resolve_pool_returned (w w' : World H) id :
  resolve_pool w = (Returned (Some id), w') ->
  exists search,
    resolveEntityId_in (client w') ["sensor"%string] search ENTITY_MATCH_SCORE_POOL = Some id.
Proof.
  unfold resolve_pool. intros Hb.
  destruct (bind_cases _ _ _ _ _ Hb) as [(a & w1 & Hr & Hk)|[(e & _ & ?)|(p & _ & ?)]];
    try discriminate.
  destruct (truthy_opt a) eqn:Ha.
  - unfold ret in Hk. injection Hk as -> <-. eexists. exact (resolve_returned _ _ _ _ _ _ Hr).
  - eexists. exact (resolve_returned _ _ _ _ _ _ Hk).
Qed.

Lemma quiet_resolve_pool : quiet resolve_pool.
Proof.
  unfold resolve_pool. apply quiet_bind; [apply quiet_resolve|].
  intros a. destruct (truthy_opt a); [apply quiet_ret | apply quiet_resolve].
Qed.

Lemma fast_path_cases normalized (w w' : World H) plan :
  tryFastPathPlan normalized w = (Returned (Some plan), w') ->
  truthy normalized = true
  /\ (read_plan_for (client w') plan \/ switch_plan_for (client w') plan).
Proof.
  unfold tryFastPathPlan. destruct (truthy normalized); cbn [negb]; cbv beta iota; [|discriminate].
  split; [reflexivity|]. revert H1.
  destruct (_ || _); [|intros Ht; right; exact (turn_rule_plan _ _ _ _ Ht)].
  intros Hb.
  destruct (bind_cases _ _ _ _ _ Hb) as [(a & w1 & Hr & Hk)|[(e & _ & ?)|(p & _ & ?)]];
    try discriminate.
  destruct a as [id|]; simpl in Hk.
  - destruct (truthy id) eqn:Hid.
    + unfold ret in Hk. injection Hk as <- <-. left.
      destruct (resolve_pool_returned _ _ _ Hr) as [search Hs].
      exists id, search. auto.
    + right. exact (turn_rule_plan _ _ _ _ Hk).
  - right. exact (turn_rule_plan _ _ _ _ Hk).
Qed.

Lemma fast_plan_cacheable c plan :
  read_plan_for c plan \/ switch_plan_for c plan ->
  List.Forall (fun call => isCacheableToolCall call = true) (toolCalls plan)
  /\ buildPlanFromToolUses (toolCalls plan) = Some plan.
Proof.
  intros [(id & search & -> & Hid & _)|(desired & id & t & m & -> & Hid & _)].
  - assert (Hc : isCacheableToolCall
                   (mkToolCall "get_entity_state"
                      (Some (mkToolInput None None None None (Some id) None))) = true)
      by exact Hid.
    split; [repeat constructor; exact Hc|].
    unfold buildPlanFromToolUses, read_plan. simpl toolCalls. simpl List.filter.
    now rewrite Hc.
  - set (call := mkToolCall "call_service"
                   (Some (mkToolInput (Some (split_dot_first id))
                            (Some (if String.eqb desired "on"
                                   then "turn_on" else "turn_off")%string)
                            (Some (mkTarget (Some id) None)) None None None))).
    assert (Hc : isCacheableToolCall call = true).
    { unfold call, isCacheableToolCall. simpl. rewrite Hid. simpl.
      now destruct (String.eqb desired "on"). }
    split; [repeat constructor; exact Hc|].
    unfold buildPlanFromToolUses, switch_plan. fold call. simpl toolCalls. simpl List.filter.
    now rewrite Hc.
Qed.

(** X24. A plan of the fast path is a single call that may be replayed
    from the cache: a state read of an entity the resolver found among the
    sensors, or a turn_on or turn_off of an entity it found among the
    lights and switches; the id is never empty, the call is cacheable, and
    the plan is what [buildPlanFromToolUses] makes of its call. *)
Theorem fast_path_plan (normalized : string) (w w' : World H) (plan : Plan) :
  tryFastPathPlan normalized w = (Returned (Some plan), w') ->
  truthy normalized = true
  /\ (read_plan_for (client w') plan \/ switch_plan_for (client w') plan)
  /\ List.Forall (fun call => isCacheableToolCall call = true) (toolCalls plan)
  /\ buildPlanFromToolUses (toolCalls plan) = Some plan.
Proof.
  intros Hfast. destruct (fast_path_cases _ _ _ _ Hfast) as [Hn Hplan].
  destruct (fast_plan_cacheable _ _ Hplan) as [Hc Hb]. auto.
Qed.

Lemma quiet_fast_path normalized : quiet (tryFastPathPlan normalized).
Proof.
  unfold tryFastPathPlan. destruct (negb (truthy normalized)); [apply quiet_ret|].
  destruct (_ || _); [|apply quiet_turn_rule].
  apply quiet_bind; [apply quiet_resolve_pool|].
  intros a. destruct (truthy_opt a); [apply quiet_ret | apply quiet_turn_rule].
Qed.

(** X25. The fast path only reads: however it ends, it has sent no
    control request to the hub; and for an empty utterance it returns no
    plan without sending anything. *)
Theorem fast_path_reads_only (normalized : string) (w w' : World H)
    (out : Outcome (option Plan)) :
  tryFastPathPlan normalized w = (out, w') ->
  control_requests w' = control_requests w
  /\ (truthy normalized = false -> out = Returned None /\ w' = w).
Proof.
  intros Hfast. split; [exact (quiet_fast_path _ _ _ _ Hfast)|].
  intros Hempty. unfold tryFastPathPlan in Hfast. rewrite Hempty in Hfast.
  unfold ret in Hfast. now injection Hfast as <- <-.
Qed.

Lemma get_maxEntries (c : IntentCache.t Plan) key now' :
  IntentCache.maxEntries (snd (IntentCache.get c key now')) = IntentCache.maxEntries c
  /\ IntentCache.defaultTtlMs (snd (IntentCache.get c key now')) = IntentCache.defaultTtlMs c.
Proof.
  unfold IntentCache.get. destruct (IntentCache.map_get key (IntentCache.map c)) as [e|];
    [|auto]. now destruct (IntentCache.expired now' e).
Qed.

(** X26. A command the fast path resolves is served from the cache the
    next time: when a request misses the cache (bound at least one), the
    fast path yields a plan and the plan executes, the answer is 200 with
    the rendered results, and any later request with the same text, made
    before the stored plan expires, whose execution of that plan succeeds,
    is answered 200 with its rendered results, whatever the model is and
    however little fuel the tool loop has, in the world that executing the
    plan left. *)
Theorem voice_fast_then_cached (fuel : nat) (llm : Model) (text : string)
    (w wf we : World H) (c c1 : IntentCache.t Plan) (fastPlan : Plan)
    (results : list ToolResult) :
  truthy text = true ->
  well_formed c -> 1 <= IntentCache.maxEntries c ->
  IntentCache.get c (Normalize.normalizeUtterance text) (now (hub w)) = (None, c1) ->
  tryFastPathPlan (Normalize.normalizeUtterance text) w = (Returned (Some fastPlan), wf) ->
  executePlan fastPlan wf = (Returned results, we) ->
  exists served,
    voice fuel llm (Some text) w c = Replied served
    /\ answer served =
       mkAnswer 200 (ResponseBody (renderResponseFromToolResults (client we) results))
    /\ s_world served = we
    /\ forall fuel' llm' (w2 w3 : World H) results2,
         IntentCache.expired (now (hub w2))
           (stored_entry c1 fastPlan None (now (hub we))) = false ->
         executePlan fastPlan w2 = (Returned results2, w3) ->
         exists served2,
           voice fuel' llm' (Some text) w2 (s_cache served) = Replied served2
           /\ answer served2 =
              mkAnswer 200 (ResponseBody (renderResponseFromToolResults (client w3) results2))
           /\ s_world served2 = w3.
Proof.
  intros Htext Hwf Hmax Hget Hfast Hexec.
  set (normalized := Normalize.normalizeUtterance text) in *.
  assert (Hc1 : c1 = snd (IntentCache.get c normalized (now (hub w)))) by now rewrite Hget.
  assert (Hwf1 : well_formed c1) by (rewrite Hc1; now apply get_well_formed).
  assert (Hmax1 : 1 <= IntentCache.maxEntries c1)
    by (rewrite Hc1, (proj1 (get_maxEntries _ _ _)); exact Hmax).
  destruct (IntentCache.set c1 normalized fastPlan None (now (hub we))) as [c2|] eqn:Hset.
  2:{ rewrite set_spec in Hset by (assumption || lia). discriminate. }
  exists (mkServed (mkAnswer 200 (ResponseBody (renderResponseFromToolResults (client we) results)))
            we c2).
  split_and!; try reflexivity.
  - unfold voice. simpl. rewrite Htext. simpl. fold normalized. rewrite Hget.
    unfold fast_tier. rewrite Hfast, Hexec, Hset. reflexivity.
  - intros fuel' llm' w2 w3 results2 Hlive Hexec2. simpl.
    destruct (set_then_get c1 normalized fastPlan None (now (hub we)) (now (hub w2))
                Hwf1 Hmax1 Hlive) as (c2' & Hset' & Hhit).
    rewrite Hset in Hset'. injection Hset' as <-.
    destruct (IntentCache.get c2 normalized (now (hub w2))) as [found c3] eqn:Hget2.
    simpl in Hhit. subst found.
    exists (mkServed
              (mkAnswer 200
                 (ResponseBody (renderResponseFromToolResults (client w3) results2)))
              w3 c3).
    split_and!; [|reflexivity|reflexivity].
    unfold voice. simpl. rewrite Htext. simpl. fold normalized. rewrite Hget2, Hexec2.
    reflexivity.
Qed.

(** X27. What a client of the endpoint can receive: 400 with an error
    exactly when the request has no text, in which case nothing is
    touched; otherwise 200 with a response, or 500, and a 500 always
    carries the fixed apology, never the text of the error. *)
Theorem voice_answers (fuel : nat) (llm : Model) (text : option string)
    (w : World H) (c : IntentCache.t Plan) :
  (truthy_opt text = false ->
   voice fuel llm text w c =
   Replied (mkServed (mkAnswer 400 (ErrorBody "No text provided")) w c))
  /\ (forall a, http_answer (voice fuel llm text w c) = Some a ->
        (truthy_opt text = false /\ a = mkAnswer 400 (ErrorBody "No text provided"))
        \/ (truthy_opt text = true /\ exists response, a = mkAnswer 200 (ResponseBody response))
        \/ (truthy_opt text = true /\ a = mkAnswer 500 (ResponseBody apology))).
Proof.
  split.
  - intros Hno. unfold voice. now rewrite Hno.
  - intros a. unfold voice. destruct (truthy_opt text); cbn [negb]; cbv beta iota.
    2:{ simpl. intros [= <-]. left. auto. }
    intros Ha. right.
    assert (Hllm : forall t n w0 c0 a0,
               http_answer (llm_tier fuel llm t n w0 c0) = Some a0 ->
               (exists response, a0 = mkAnswer 200 (ResponseBody response))
               \/ a0 = mkAnswer 500 (ResponseBody apology)).
    { intros t n w0 c0 a0. unfold llm_tier.
      destruct (processVoiceCommand _ _ _ _ _ _) as [reply|why|p|]; simpl;
        try discriminate; intros [= <-]; eauto. }
    assert (Hfast : forall t n w0 c0 a0,
               http_answer (fast_tier fuel llm t n w0 c0) = Some a0 ->
               (exists response, a0 = mkAnswer 200 (ResponseBody response))
               \/ a0 = mkAnswer 500 (ResponseBody apology)).
    { intros t n w0 c0 a0. unfold fast_tier.
      destruct (tryFastPathPlan n w0) as [[[plan|]|e|p] w1]; simpl; try discriminate.
      - destruct (executePlan plan w1) as [[results|e|p] w2]; simpl; try discriminate.
        + destruct (IntentCache.set _ _ _ _ _); simpl; try discriminate.
          intros [= <-]. eauto.
        + apply Hllm.
      - apply Hllm.
      - intros [= <-]. auto. }
    assert (Hboth : (exists response, a = mkAnswer 200 (ResponseBody response))
                    \/ a = mkAnswer 500 (ResponseBody apology)).
    { revert Ha. destruct (IntentCache.get _ _ _) as [[plan|] c1].
      - destruct (executePlan plan w) as [[results|e|p] w1]; simpl; try discriminate.
        + intros [= <-]. eauto.
        + apply Hfast.
      - apply Hfast. }
    destruct Hboth; [left | right]; auto.
Qed.

End FastPathMore.

(* ===================================================================== *)
(** * Worked examples *)
(* ===================================================================== *)

(** A hub pause of [ms] milliseconds on the scripted hub: the clock moves. *)
Definition scripted_pause (ms : Z) (h : Scripted) : Scripted :=
  mkScripted (clock h + ms) (inventories h).

(** The value of a computation that returned, and [d] otherwise. *)
Definition returned_or {A} (d : A) (out : HomeAssistant.Outcome A) : A :=
  match out with
  | HomeAssistant.Returned a => a
  | _ => d
  end.

(** A response asking for the pool temperature and then for an unknown tool. *)
Definition ask_pool : Orchestrator.Response :=
  Orchestrator.mkResponse "tool_use"
    [Orchestrator.Text "Let me check.";
     Orchestrator.ToolUse "toolu_1" "get_entity_state"
       (Some (read_input "sensor.pool_temperature"));
     Orchestrator.ToolUse "toolu_2" "reboot_house" None].

Definition pool_answer : Orchestrator.Response :=
  Orchestrator.mkResponse "end_turn" [Orchestrator.Text "The pool is at 82.1 degrees."].

(** A model that asks once and then answers. *)
Definition asks_pool : Orchestrator.Model := fun messages =>
  Some (if (List.length messages <? 2)%nat then ask_pool else pool_answer).

Definition read_then_switch : VoicePlan.Plan :=
  VoicePlan.mkPlan 1 [read_pool; turn_off_bedroom].

Definition empty_cache : IntentCache.t VoicePlan.Plan :=
  IntentCache.new (Some 10) (Some (Some 60000)).

Lemma tokenize_tokens_witness :
  (JS.truthy "pump" = true /\ List.Forall token_char (JS.chars "pump"))
  /\ HomeAssistant.tokenize (JS.toLowerCase "Pool-Pump 2") =
     HomeAssistant.tokenize "Pool-Pump 2".
Proof.
  destruct (tokenize_tokens "Pool-Pump 2" "pump") as [Htoken Hcase].
  split; [apply Htoken; vm_compute; auto | exact Hcase].
Defined.

Lemma scoreMatch_bounds_witness :
  0 <= HomeAssistant.scoreMatch ["pool"; "pump"]%string ["pool"; "heater"]%string
         "switch.pool_heater" <= 8
  /\ HomeAssistant.scoreMatch ["attic"%string] ["pool"; "heater"]%string
       "switch.pool_heater" = 0.
Proof.
  destruct (scoreMatch_bounds ["pool"; "pump"]%string ["pool"; "heater"]%string
              "switch.pool_heater") as [Hbounds _].
  destruct (scoreMatch_bounds ["attic"%string] ["pool"; "heater"]%string
              "switch.pool_heater") as [_ [_ Hzero]].
  split; [exact Hbounds|].
  apply Hzero. intros token [<-|[]]. vm_compute. auto.
Defined.

Lemma resolve_entity_best_witness :
  exists entity,
    HomeAssistant.e_entity_id entity = "switch.pool_pump"%string
    /\ 3 <= HomeAssistant.resolve_score "pool pump" entity
    /\ HomeAssistant.resolve_score "pool pump" (HomeAssistant.to_entity pool_heater)
       <= HomeAssistant.resolve_score "pool pump" entity.
Proof.
  destruct (resolve_entity_best home ["light"; "switch"]%string "pool pump" 3)
    as [Hsome _]; [discriminate | reflexivity |].
  destruct (Hsome "switch.pool_pump"%string)
    as (domain & entity & _ & _ & Hid & Hmin & _ & Hbest); [vm_compute; reflexivity|].
  exists entity. split_and!; [exact Hid | exact Hmin |].
  apply (Hbest "switch"%string); [simpl; auto | vm_compute; auto].
Defined.

Lemma resolve_short_search_reachable_witness :
  exists domain entity,
    List.In domain ["switch"%string]
    /\ List.In entity (HomeAssistant.entities_of home domain)
    /\ HomeAssistant.e_entity_id entity = "switch.pool_pump"%string
    /\ unreachable entity = false.
Proof.
  apply (resolve_short_search_reachable home ["switch"%string] "pool heater" 3).
  - vm_compute. lia.
  - vm_compute. reflexivity.
Defined.

Lemma index_states_directory_witness :
  HomeAssistant.statesByEntityId home !! "switch.pool_pump"%string = Some pool_pump
  /\ exists entity,
       List.In entity (HomeAssistant.entities_of home "switch")
       /\ HomeAssistant.e_entity_id entity = "switch.pool_pump"%string.
Proof.
  destruct (index_states_directory inventory (HomeAssistant.createHAClient None)
              "switch.pool_pump" "switch") as (Hid & _ & Hlisted).
  split; [exact Hid|].
  apply (proj1 Hlisted). exists pool_pump. exact Hid.
Defined.

Lemma find_entities_of_domain_witness :
  exists s, List.In s inventory /\ domain_of s = "switch"%string
            /\ "switch.pool_pump"%string = HomeAssistant.entity_id s
            /\ "Pool Pump"%string = display_name s
            /\ "off"%string = HomeAssistant.state s.
Proof.
  destruct (find_entities_of_domain inventory (HomeAssistant.createHAClient None)
              "switch" (Some "pump"%string)
              (HomeAssistant.mkEntityView "switch.pool_pump" "Pool Pump" "off"))
    as [_ Hfound].
  apply Hfound. vm_compute. auto.
Defined.

Lemma refresh_states_idle_witness :
  HomeAssistant.refreshInFlight
    (HomeAssistant.client (snd (HomeAssistant.refreshStates false cold_start))) = None
  /\ HomeAssistant.requests (snd (HomeAssistant.refreshStates false cold_start)) =
     [HomeAssistant.GetStates]
  /\ snapshot (HomeAssistant.client (snd (HomeAssistant.refreshStates false cold_start))) =
     (HomeAssistant.by_entity_id inventory, HomeAssistant.by_domain inventory,
      1700000000100).
Proof.
  destruct (refresh_states_idle false cold_start
              (snd (HomeAssistant.refreshStates false cold_start))
              (fst (HomeAssistant.refreshStates false cold_start)))
    as (Hguard & _ & _ & Hsent); [reflexivity | vm_compute; reflexivity |].
  destruct Hsent as (Hrequests & _ & _ & Hsnapshot); [right; vm_compute; reflexivity|].
  split_and!; [exact Hguard | exact Hrequests | exact Hsnapshot].
Defined.

(** A service call whose [data] names another entity than its target. *)
Definition dim_bedroom : HomeAssistant.ToolInput :=
  HomeAssistant.mkToolInput (Some "light"%string) (Some "turn_on"%string)
    (Some (HomeAssistant.mkTarget (Some "light.bedroom"%string) None))
    (Some [("entity_id", "light.attic"); ("brightness", "40")]%string) None None.

Lemma call_service_submits_valid_witness :
  control_requests (snd (HomeAssistant.callService dim_bedroom cold_start)) =
  [HomeAssistant.PostService "light" "turn_on"
     [("entity_id", "light.bedroom"); ("brightness", "40")]%string]
  /\ HomeAssistant.obj_get "entity_id" (HomeAssistant.service_data dim_bedroom) =
     Some "light.bedroom"%string
  /\ HomeAssistant.obj_get "brightness" (HomeAssistant.service_data dim_bedroom) =
     Some "40"%string.
Proof.
  destruct (call_service_submits_valid dim_bedroom cold_start
              (snd (HomeAssistant.callService dim_bedroom cold_start))
              (fst (HomeAssistant.callService dim_bedroom cold_start)))
    as (_ & Hreturned & _ & Hentity & _ & Hdata); [vm_compute; reflexivity|].
  split_and!.
  - apply (Hreturned (HomeAssistant.VCalled true "Called light.turn_on")).
    vm_compute. reflexivity.
  - apply Hentity. reflexivity.
  - rewrite Hdata; [reflexivity | discriminate | discriminate].
Defined.

Lemma get_entity_state_source_witness :
  (forall id',
     List.In (HomeAssistant.GetState id')
       (HomeAssistant.requests
          (snd (HomeAssistant.getEntityState (Some "light.attic"%string) cold_start))) ->
     id' = "light.attic"%string)
  /\ HomeAssistant.statesByEntityId
       (HomeAssistant.client
          (snd (HomeAssistant.getEntityState (Some "light.bedroom"%string) cold_start)))
       !! "light.bedroom"%string = Some bedroom_light
  /\ exists w2 text,
       HomeAssistant.statesByEntityId (HomeAssistant.client w2) !! "light.attic"%string = None
       /\ fst (HomeAssistant.get_state "light.attic" (HomeAssistant.hub w2)) =
          HomeAssistant.NotOk 404 text
       /\ HomeAssistant.requests
            (snd (HomeAssistant.getEntityState (Some "light.attic"%string) cold_start)) =
          HomeAssistant.requests w2 ++ [HomeAssistant.GetState "light.attic"].
Proof.
  destruct (get_entity_state_source "light.attic" cold_start
              (snd (HomeAssistant.getEntityState (Some "light.attic"%string) cold_start))
              (fst (HomeAssistant.getEntityState (Some "light.attic"%string) cold_start)))
    as (Hlookups & _ & Hfailed); [reflexivity | vm_compute; reflexivity |].
  destruct (get_entity_state_source "light.bedroom" cold_start
              (snd (HomeAssistant.getEntityState (Some "light.bedroom"%string) cold_start))
              (fst (HomeAssistant.getEntityState (Some "light.bedroom"%string) cold_start)))
    as (_ & Hstate & _); [reflexivity | vm_compute; reflexivity |].
  split_and!.
  - intros id' Hin. destruct (Hlookups id' Hin) as [[]|[-> _]]. reflexivity.
  - destruct (Hstate bedroom_light) as [Hknown|(w1 & w2 & status & _ & _ & _ & Hok & _)];
      [vm_compute; reflexivity | exact Hknown | vm_compute in Hok; discriminate].
  - destruct (Hfailed 404) as (w1 & w2 & text & _ & _ & Hnone & Hanswer & _ & Hrequests);
      [vm_compute; reflexivity|].
    exists w2, text. split_and!; [exact Hnone | now rewrite Hanswer | exact Hrequests].
Defined.

Lemma execute_tool_no_control_witness :
  control_requests
    (snd (HomeAssistant.executeTool "reboot_house" None cold_start)) = []
  /\ control_requests
       (snd (HomeAssistant.executeTool "get_entity_state"
               (Some (read_input "light.attic")) cold_start)) = [].
Proof.
  split.
  - apply (execute_tool_no_control "reboot_house" None cold_start _
             (fst (HomeAssistant.executeTool "reboot_house" None cold_start)));
      [discriminate | vm_compute; reflexivity].
  - apply (execute_tool_no_control "get_entity_state" (Some (read_input "light.attic"))
             cold_start _
             (fst (HomeAssistant.executeTool "get_entity_state"
                     (Some (read_input "light.attic")) cold_start)));
      [discriminate | vm_compute; reflexivity].
Defined.

Lemma warmup_returns_witness :
  fst (warmup scripted_pause true cold_start) = HomeAssistant.Returned tt
  /\ HomeAssistant.requests (snd (warmup scripted_pause true cold_start)) =
     [HomeAssistant.GetStates]
  /\ HomeAssistant.statesByEntityId
       (HomeAssistant.client (snd (warmup scripted_pause true cold_start))) =
     HomeAssistant.by_entity_id inventory.
Proof.
  destruct (warmup_returns scripted_pause true cold_start
              (snd (warmup scripted_pause true cold_start))
              (fst (warmup scripted_pause true cold_start)))
    as (Hout & _ & _ & _ & Hfirst); [reflexivity | vm_compute; reflexivity |].
  destruct (Hfirst 200 inventory) as [Hrequests Hsnapshot]; [reflexivity | reflexivity |].
  split_and!; [exact Hout | exact Hrequests | exact Hsnapshot].
Defined.

Lemma build_plan_replayable_witness :
  List.Forall (fun call =>
                 VoicePlan.isCacheableToolCall call = true
                 /\ (VoicePlan.name call = "get_entity_state"%string
                     \/ (VoicePlan.name call = "call_service"%string
                         /\ has_target_entity call /\ ~ is_toggle call)))
              [turn_off_bedroom; read_pool]
  /\ VoicePlan.buildPlanFromToolUses [turn_off_bedroom; read_pool] =
     Some (VoicePlan.mkPlan 1 [turn_off_bedroom; read_pool]).
Proof.
  apply (build_plan_replayable [turn_off_bedroom; toggle_bedroom; find_lights; read_pool]
           (VoicePlan.mkPlan 1 [turn_off_bedroom; read_pool])).
  reflexivity.
Defined.

Lemma execute_plan_order_witness :
  List.map call_of
    (returned_or [] (fst (VoicePlan.executePlan read_then_switch cold_start))) =
  [turn_off_bedroom; read_pool]
  /\ List.length
       (returned_or [] (fst (VoicePlan.executePlan read_then_switch cold_start))) = 2%nat.
Proof.
  apply (execute_plan_order read_then_switch cold_start
           (snd (VoicePlan.executePlan read_then_switch cold_start))).
  vm_compute. reflexivity.
Defined.


(** Two state reads of entities the hub does not report. *)
Definition read_two_unknown : VoicePlan.Plan :=
  VoicePlan.mkPlan 1
    [VoicePlan.mkToolCall "get_entity_state" (Some (read_input "light.attic"));
     VoicePlan.mkToolCall "get_entity_state" (Some (read_input "light.cellar"))].

Lemma execute_plan_reads_together_witness :
  (exists n ids,
     (n <= 2)%nat
     /\ HomeAssistant.requests (snd (VoicePlan.executePlan read_two_unknown cold_start)) =
        HomeAssistant.requests cold_start
        ++ List.repeat HomeAssistant.GetStates n ++ List.map HomeAssistant.GetState ids
     /\ sublist ids ["light.attic"; "light.cellar"]%string
     /\ control_requests (snd (VoicePlan.executePlan read_two_unknown cold_start)) =
        control_requests cold_start)
  /\ HomeAssistant.requests (snd (VoicePlan.executePlan read_two_unknown cold_start)) =
     [HomeAssistant.GetStates; HomeAssistant.GetStates;
      HomeAssistant.GetState "light.attic"; HomeAssistant.GetState "light.cellar"]
  /\ fst (VoicePlan.executePlan read_two_unknown cold_start) =
     HomeAssistant.Threw (HomeAssistant.EGetState 404).
Proof.
  destruct (execute_plan_reads_together read_two_unknown cold_start
              (snd (VoicePlan.executePlan read_two_unknown cold_start))
              (fst (VoicePlan.executePlan read_two_unknown cold_start)))
    as [Hrequests _];
    [repeat constructor | vm_compute; reflexivity |].
  split_and!; [exact Hrequests | vm_compute; reflexivity | vm_compute; reflexivity].
Defined.

Lemma run_tools_blocks_witness :
  exists blocks w',
    Orchestrator.run_tools (Orchestrator.tool_uses (Orchestrator.content ask_pool))
      cold_start = (inl blocks, w')
    /\ List.map Orchestrator.tool_use_id blocks = ["toolu_1"; "toolu_2"]%string
    /\ exists blocks1 w1,
         Orchestrator.run_tools [("toolu_1"%string, read_pool)] cold_start = (inl blocks1, w1)
         /\ blocks =
            blocks1 ++ [Orchestrator.mkToolResultBlock "toolu_2"
                          (inr (HomeAssistant.EUnknownTool "reboot_house")) true].
Proof.
  destruct (Orchestrator.run_tools (Orchestrator.tool_uses (Orchestrator.content ask_pool))
              cold_start) as [[blocks|p] w'] eqn:Hrun;
    [|vm_compute in Hrun; discriminate].
  exists blocks, w'. split; [reflexivity|].
  destruct (run_tools_blocks _ _ _ _ Hrun) as (Hids & _ & Hat).
  split; [exact Hids|].
  destruct (Hat [("toolu_1"%string, read_pool)] "toolu_2"%string
              (VoicePlan.mkToolCall "reboot_house" None) [] eq_refl)
    as (blocks1 & block & blocks2 & w1 & Hblocks & _ & Hbefore & Hafter & Hblock).
  simpl in Hafter, Hblock. injection Hafter as <- _. subst block.
  exists blocks1, w1. split; [exact Hbefore | exact Hblocks].
Defined.


Lemma process_voice_command_cache_witness :
  exists reply c',
    Orchestrator.processVoiceCommand 3 asks_pool empty_cache
      "How warm is the pool?" "how warm is pool" cold_start = Orchestrator.Replied reply
    /\ VoicePlan.buildPlanFromToolUses (Orchestrator.toolUsesSeen reply) =
       Some (VoicePlan.mkPlan 1 [read_pool])
    /\ IntentCache.set empty_cache "how warm is pool" (VoicePlan.mkPlan 1 [read_pool]) None
         (HomeAssistant.now (HomeAssistant.hub (Orchestrator.world reply))) = Some c'
    /\ Orchestrator.cache reply = c'
    /\ exists added last,
         asks_pool ([Orchestrator.User "How warm is the pool?"] ++ added) = Some last
         /\ List.length added = (2 * Orchestrator.rounds reply)%nat
         /\ Orchestrator.toolUsesSeen reply = requested added
         /\ Orchestrator.stop_reason last <> "tool_use"%string
         /\ Orchestrator.responseText reply =
            JS.or_else (Orchestrator.first_text (Orchestrator.content last)) "Done.".
Proof.
  destruct (Orchestrator.processVoiceCommand 3 asks_pool empty_cache
              "How warm is the pool?" "how warm is pool" cold_start)
    as [reply| | |] eqn:Hrun; try (vm_compute in Hrun; discriminate).
  pose proof (process_voice_command_cache 3 asks_pool empty_cache
                "How warm is the pool?" "how warm is pool" cold_start reply Hrun)
    as [Hcache Htext].
  assert (Hplan : VoicePlan.buildPlanFromToolUses (Orchestrator.toolUsesSeen reply) =
                  Some (VoicePlan.mkPlan 1 [read_pool])).
  { vm_compute in Hrun. injection Hrun as <-. reflexivity. }
  rewrite Hplan in Hcache. simpl in Hcache.
  exists reply, (Orchestrator.cache reply).
  split_and!; [reflexivity | exact Hplan | exact Hcache | reflexivity | exact Htext].
Defined.

Lemma fast_path_plan_witness :
  JS.truthy "turn off pool pump" = true
  /\ (read_plan_for home (VoiceHandler.switch_plan "off" "switch.pool_pump")
      \/ switch_plan_for home (VoiceHandler.switch_plan "off" "switch.pool_pump"))
  /\ List.Forall (fun call => VoicePlan.isCacheableToolCall call = true)
       (VoicePlan.toolCalls (VoiceHandler.switch_plan "off" "switch.pool_pump"))
  /\ VoicePlan.buildPlanFromToolUses
       (VoicePlan.toolCalls (VoiceHandler.switch_plan "off" "switch.pool_pump")) =
     Some (VoiceHandler.switch_plan "off" "switch.pool_pump").
Proof.
  pose proof (fast_path_plan "turn off pool pump" cold_start
                (snd (VoiceHandler.tryFastPathPlan "turn off pool pump" cold_start))
                (VoiceHandler.switch_plan "off" "switch.pool_pump")) as Hplan.
  apply Hplan. vm_compute. reflexivity.
Defined.

Lemma fast_path_reads_only_witness :
  VoiceHandler.tryFastPathPlan "" cold_start = (HomeAssistant.Returned None, cold_start)
  /\ control_requests
       (snd (VoiceHandler.tryFastPathPlan "what is pool temperature" cold_start)) = [].
Proof.
  destruct (fast_path_reads_only "" cold_start
              (snd (VoiceHandler.tryFastPathPlan "" cold_start))
              (fst (VoiceHandler.tryFastPathPlan "" cold_start)))
    as [_ Hempty]; [reflexivity|].
  destruct (fast_path_reads_only "what is pool temperature" cold_start
              (snd (VoiceHandler.tryFastPathPlan "what is pool temperature" cold_start))
              (fst (VoiceHandler.tryFastPathPlan "what is pool temperature" cold_start)))
    as [Hquiet _]; [vm_compute; reflexivity|].
  split; [|exact Hquiet].
  destruct (Hempty eq_refl) as [Hout Hworld]. reflexivity.
Defined.

Lemma voice_fast_then_cached_witness :
  exists served,
    VoiceHandler.voice 0 always_asks (Some "Turn off the pool pump, please"%string)
      cold_start empty_cache = Orchestrator.Replied served
    /\ VoiceHandler.answer served =
       VoiceHandler.mkAnswer 200 (VoiceHandler.ResponseBody "Turned off Pool Pump.")
    /\ exists served2,
         VoiceHandler.voice 0 always_asks (Some "Turn off the pool pump, please"%string)
           (VoiceHandler.s_world served) (VoiceHandler.s_cache served) =
         Orchestrator.Replied served2
         /\ VoiceHandler.answer served2 =
            VoiceHandler.mkAnswer 200 (VoiceHandler.ResponseBody "Turned off Pool Pump.").
Proof.
  pose (text := "Turn off the pool pump, please"%string).
  pose (plan := VoiceHandler.switch_plan "off" "switch.pool_pump").
  pose (wf := snd (VoiceHandler.tryFastPathPlan (Normalize.normalizeUtterance text)
                     cold_start)).
  pose (we := snd (VoicePlan.executePlan plan wf)).
  pose (results := returned_or [] (fst (VoicePlan.executePlan plan wf))).
  destruct (voice_fast_then_cached 0 always_asks text cold_start wf we
              empty_cache empty_cache plan results)
    as (served & Hfirst & Hanswer & Hworld & Hnext);
    [reflexivity | unfold well_formed, distinct_keys; simpl; constructor
     | simpl; lia | reflexivity | vm_compute; reflexivity | vm_compute; reflexivity |].
  exists served. split_and!; [exact Hfirst | rewrite Hanswer; vm_compute; reflexivity |].
  destruct (Hnext 0%nat always_asks we (snd (VoicePlan.executePlan plan we))
              (returned_or [] (fst (VoicePlan.executePlan plan we))))
    as (served2 & Hsecond & Hanswer2 & _);
    [vm_compute; reflexivity | vm_compute; reflexivity |].
  exists served2. rewrite Hworld.
  split; [exact Hsecond | rewrite Hanswer2; vm_compute; reflexivity].
Defined.

Lemma voice_answers_witness :
  VoiceHandler.voice 0 always_asks (Some ""%string) cold_start empty_cache =
  Orchestrator.Replied
    (VoiceHandler.mkServed
       (VoiceHandler.mkAnswer 400 (VoiceHandler.ErrorBody "No text provided"))
       cold_start empty_cache).
Proof.
  apply (voice_answers 0 always_asks (Some ""%string) cold_start empty_cache).
  reflexivity.
Defined.
